(** * HASH256_PTX: SHA-256 of 33-byte records, CPU reference and batch dispatcher

    A shallow embedding of
      - [src/sha256.cpp]        (class [SHA256]: Init, Transform, Update, Final, Hash)
      - [include/ptx_sha256.hpp] (class [PTX_SHA256]: hash_batch; and, in the
        module [Setup], the constructor, initialize, read_ptx, compile_ptx,
        cleanup and the destructor)
      - [tests/test_ptx_sha256.cpp] (print_hex, compare_hashes and the loops
        of main that generate the test batch and compare the results)
    together with the properties the design document states about them
    and further properties of the code.

    Conventions.
      - [uint32_t] and [uint64_t] values are [Z] with the wrap-around written
        out ([wrap32], [wrap64]); [uint8_t] is [Byte.byte].
      - a C array that is written through an index is a list updated with
        stdpp's [<[i:=x]>]; a pointer-and-length pair is a list.
      - a [for] loop over a counter is a [fold_left] over the counter values. *)

From Stdlib Require Import ZArith List Lia String Ascii.
From Stdlib.Strings Require Import Byte.
From Stdlib Require Import FunctionalExtensionality DecimalString.
From stdpp Require Import base list gmap strings.

Local Open Scope Z_scope.

(* ===================================================================== *)
(** ** Machine integers *)
(* ===================================================================== *)

Module Mach.

(** Conversion to [uint32_t]. *)
Definition wrap32 (z : Z) : Z := z mod 2 ^ 32.

(** Conversion to [uint64_t] / [size_t]. *)
Definition wrap64 (z : Z) : Z := z mod 2 ^ 64.

(** Conversion to (32-bit) [int], two's complement. *)
Definition to_int (z : Z) : Z := (z + 2 ^ 31) mod 2 ^ 32 - 2 ^ 31.

(** [uint32_t] addition. *)
Definition add32 (x y : Z) : Z := wrap32 (x + y).

(** The value of a [uint8_t]. *)
Definition byte_val (b : byte) : Z := Z.of_N (Byte.to_N b).

(** Conversion to [uint8_t]. *)
Definition to_u8 (z : Z) : byte :=
  match Byte.of_N (Z.to_N (z mod 256)) with
  | Some b => b
  | None => x00
  end.

(** [for (i = lo; i < lo + n; ++i) s = body i s]. *)
Definition for_loop {S : Type} (lo n : nat) (body : nat -> S -> S) (s : S) : S :=
  fold_left (fun acc i => body i acc) (seq lo n) s.

(** [for (j = n - 1; j >= 0; --j) s = body j s]. *)
Definition for_down {S : Type} (n : nat) (body : nat -> S -> S) (s : S) : S :=
  fold_left (fun acc j => body j acc) (rev (seq 0 n)) s.

(** [memcpy(dst + off, src, n)] on arrays held as lists. *)
Definition memcpy (dst : list byte) (off : nat) (src : list byte) (n : nat) : list byte :=
  take off dst ++ take n src ++ drop (off + n) dst.

(** [memset(dst + off, c, n)]. *)
Definition memset (dst : list byte) (off : nat) (c : byte) (n : nat) : list byte :=
  take off dst ++ replicate n c ++ drop (off + n) dst.

(** [p[i]] for a [const uint8_t*]. *)
Definition rd (p : list byte) (i : nat) : Z := byte_val (nth i p x00).

(** [a[i]] for a [uint32_t] array. *)
Definition rw (a : list Z) (i : nat) : Z := nth i a 0.

End Mach.
Import Mach.

(* ===================================================================== *)
(** ** Hexadecimal text (test vectors are given as hex strings) *)
(* ===================================================================== *)

Module Hex.

Definition digit (c : ascii) : option Z :=
  let n := Z.of_N (N_of_ascii c) in
  if (48 <=? n) && (n <=? 57) then Some (n - 48)
  else if (97 <=? n) && (n <=? 102) then Some (n - 87)
  else if (65 <=? n) && (n <=? 70) then Some (n - 55)
  else None.

Fixpoint bytes_of (s : string) : list byte :=
  match s with
  | String hi (String lo rest) =>
      match digit hi, digit lo with
      | Some h, Some l => to_u8 (16 * h + l) :: bytes_of rest
      | _, _ => []
      end
  | _ => []
  end.

End Hex.

(* ===================================================================== *)
(** ** src/sha256.cpp *)
(* ===================================================================== *)

Module SHA256.

(** The macros at the head of the file, on [uint32_t] operands. *)
Definition ROR (x n : Z) : Z := Z.lor (Z.shiftr x n) (wrap32 (Z.shiftl x (32 - n))).
Definition CH (x y z : Z) : Z := Z.lxor (Z.land x y) (Z.land (wrap32 (Z.lnot x)) z).
Definition MAJ (x y z : Z) : Z :=
  Z.lxor (Z.lxor (Z.land x y) (Z.land x z)) (Z.land y z).
Definition EP0 (x : Z) : Z := Z.lxor (Z.lxor (ROR x 2) (ROR x 13)) (ROR x 22).
Definition EP1 (x : Z) : Z := Z.lxor (Z.lxor (ROR x 6) (ROR x 11)) (ROR x 25).
Definition SIG0 (x : Z) : Z := Z.lxor (Z.lxor (ROR x 7) (ROR x 18)) (Z.shiftr x 3).
Definition SIG1 (x : Z) : Z := Z.lxor (Z.lxor (ROR x 17) (ROR x 19)) (Z.shiftr x 10).

(** [static const uint32_t K[64]]. *)
Definition K : list Z :=
  [ 0x428A2F98; 0x71374491; 0xB5C0FBCF; 0xE9B5DBA5;
    0x3956C25B; 0x59F111F1; 0x923F82A4; 0xAB1C5ED5;
    0xD807AA98; 0x12835B01; 0x243185BE; 0x550C7DC3;
    0x72BE5D74; 0x80DEB1FE; 0x9BDC06A7; 0xC19BF174;
    0xE49B69C1; 0xEFBE4786; 0x0FC19DC6; 0x240CA1CC;
    0x2DE92C6F; 0x4A7484AA; 0x5CB0A9DC; 0x76F988DA;
    0x983E5152; 0xA831C66D; 0xB00327C8; 0xBF597FC7;
    0xC6E00BF3; 0xD5A79147; 0x06CA6351; 0x14292967;
    0x27B70A85; 0x2E1B2138; 0x4D2C6DFC; 0x53380D13;
    0x650A7354; 0x766A0ABB; 0x81C2C92E; 0x92722C85;
    0xA2BFE8A1; 0xA81A664B; 0xC24B8B70; 0xC76C51A3;
    0xD192E819; 0xD6990624; 0xF40E3585; 0x106AA070;
    0x19A4C116; 0x1E376C08; 0x2748774C; 0x34B0BCB5;
    0x391C0CB3; 0x4ED8AA4A; 0x5B9CCA4F; 0x682E6FF3;
    0x748F82EE; 0x78A5636F; 0x84C87814; 0x8CC70208;
    0x90BEFFFA; 0xA4506CEB; 0xBEF9A3F7; 0xC67178F2 ].

(** The object.  [transforms] is a ghost field: the blocks handed to
    [Transform], oldest first.  The C++ object has no such member; it is
    kept so that "how often, and on what, was the compression function
    run" can be stated. *)
Record t := Obj {
  state : list Z;          (* uint32_t state[8]  *)
  count : Z;               (* uint64_t count     *)
  buffer : list byte;      (* uint8_t buffer[64] *)
  transforms : list (list byte)
}.

(** [SHA256::Init]: sets the state words and the count, leaves the buffer. *)
Definition Init (o : t) : t :=
  Obj [ 0x6a09e667; 0xbb67ae85; 0x3c6ef372; 0xa54ff53a;
        0x510e527f; 0x9b05688c; 0x1f83d9ab; 0x5be0cd19 ]
      0 (buffer o) (transforms o).

(** First loop of [Transform]: [m[i]] for [i < 16], with [j = 4 * i].
    The bytes are promoted to [int] before the shifts, the result is
    stored into a [uint32_t]. *)
Definition load_word (data : list byte) (i : nat) (m : list Z) : list Z :=
  let j := (4 * i)%nat in
  <[ i := wrap32 (Z.lor (Z.lor (Z.lor (to_int (Z.shiftl (rd data j) 24))
                                       (Z.shiftl (rd data (j + 1)) 16))
                                (Z.shiftl (rd data (j + 2)) 8))
                         (rd data (j + 3))) ]> m.

(** Second loop of [Transform]: [m[i]] for [16 <= i < 64]. *)
Definition extend_word (i : nat) (m : list Z) : list Z :=
  <[ i := add32 (add32 (add32 (SIG1 (rw m (i - 2))) (rw m (i - 7)))
                       (SIG0 (rw m (i - 15))))
                (rw m (i - 16)) ]> m.

(** "Prepare message schedule": both loops, from the (indeterminate)
    initial contents [m0] of the local array [m[64]]. *)
Definition schedule_from (m0 : list Z) (data : list byte) : list Z :=
  for_loop 16 48 extend_word (for_loop 0 16 (load_word data) m0).

Definition schedule (data : list byte) : list Z :=
  schedule_from (replicate 64 0) data.

(** The array after its first [t] entries have been written: the two
    loops stopped after [t] turns in all. *)
Definition schedule_steps (m0 : list Z) (data : list byte) (t : nat) : list Z :=
  for_loop 16 (t - 16) extend_word (for_loop 0 (Nat.min t 16) (load_word data) m0).

(** The working variables [a .. h]. *)
Record vars := Vars { va : Z; vb : Z; vc : Z; vd : Z; ve : Z; vf : Z; vg : Z; vh : Z }.

(** Body of the main loop. *)
Definition round (m : list Z) (i : nat) (v : vars) : vars :=
  let '(Vars a b c d e f g h) := v in
  let t1 := add32 (add32 (add32 (add32 h (EP1 e)) (CH e f g)) (rw K i)) (rw m i) in
  let t2 := add32 (EP0 a) (MAJ a b c) in
  let h := g in
  let g := f in
  let f := e in
  let e := add32 d t1 in
  let d := c in
  let c := b in
  let b := a in
  let a := add32 t1 t2 in
  Vars a b c d e f g h.

(** [SHA256::Transform(data)]. *)
Definition Transform (o : t) (data : list byte) : t :=
  let m := schedule data in
  let st := state o in
  let v := Vars (rw st 0) (rw st 1) (rw st 2) (rw st 3)
                (rw st 4) (rw st 5) (rw st 6) (rw st 7) in
  let '(Vars a b c d e f g h) := for_loop 0 64 (round m) v in
  let st := <[ 0%nat := add32 (rw st 0) a ]> st in
  let st := <[ 1%nat := add32 (rw st 1) b ]> st in
  let st := <[ 2%nat := add32 (rw st 2) c ]> st in
  let st := <[ 3%nat := add32 (rw st 3) d ]> st in
  let st := <[ 4%nat := add32 (rw st 4) e ]> st in
  let st := <[ 5%nat := add32 (rw st 5) f ]> st in
  let st := <[ 6%nat := add32 (rw st 6) g ]> st in
  let st := <[ 7%nat := add32 (rw st 7) h ]> st in
  Obj st (count o) (buffer o) (transforms o ++ [take 64 data]).

(** The loop "Process full blocks" of [Update]:
    [for (i = i0; i + 64 <= len; i += 64) Transform(data + i)].
    Every turn consumes 64 bytes of [data], so [length data] turns of
    fuel are never used up. *)
Fixpoint full_blocks (fuel : nat) (o : t) (data : list byte) (i len : Z) : t * Z :=
  match fuel with
  | O => (o, i)
  | S fuel' =>
      if i + 64 <=? len
      then full_blocks fuel' (Transform o (drop (Z.to_nat i) data)) data (i + 64) len
      else (o, i)
  end.

(** [SHA256::Update(data, len)], with [len = length data]. *)
Definition Update (o : t) (data : list byte) : t :=
  let len := Z.of_nat (length data) in
  let i := 0 in
  let bufferSpace := 64 - count o mod 64 in
  let o := Obj (state o) (wrap64 (count o + len)) (buffer o) (transforms o) in
  let '(o, i, bufferSpace) :=
    if len >=? bufferSpace then
      let o := Obj (state o) (count o)
                   (memcpy (buffer o) (Z.to_nat (64 - bufferSpace)) data (Z.to_nat bufferSpace))
                   (transforms o) in
      let o := Transform o (buffer o) in
      let '(o, i) := full_blocks (length data) o data bufferSpace len in
      (o, i, 64)
    else (o, i, bufferSpace) in
  Obj (state o) (count o)
      (memcpy (buffer o) (Z.to_nat (64 - bufferSpace))
              (drop (Z.to_nat i) data) (Z.to_nat (len - i)))
      (transforms o).

(** The loop of [Final] that stores the bit count, low byte last. *)
Definition put_length (j : nat) (s : list byte * Z) : list byte * Z :=
  let '(buf, bitCount) := s in
  (<[ (56 + j)%nat := to_u8 (Z.land bitCount 0xff) ]> buf, Z.shiftr bitCount 8).

(** The loop of [Final] that writes the digest. *)
Definition put_word (st : list Z) (i : nat) : list byte :=
  [ to_u8 (Z.land (Z.shiftr (rw st i) 24) 0xff);
    to_u8 (Z.land (Z.shiftr (rw st i) 16) 0xff);
    to_u8 (Z.land (Z.shiftr (rw st i) 8) 0xff);
    to_u8 (Z.land (rw st i) 0xff) ].

(** [SHA256::Final(hash)]: the object afterwards and the 32 bytes written
    to [hash]. *)
Definition Final (o : t) : t * list byte :=
  let i := count o mod 64 in
  let buf := <[ Z.to_nat i := x80 ]> (buffer o) in
  let i := i + 1 in
  let '(o, buf, i) :=
    if i >? 56 then
      let buf := memset buf (Z.to_nat i) x00 (Z.to_nat (64 - i)) in
      let o := Transform (Obj (state o) (count o) buf (transforms o)) buf in
      (o, buf, 0)
    else (o, buf, i) in
  let buf := memset buf (Z.to_nat i) x00 (Z.to_nat (56 - i)) in
  let bitCount := wrap64 (count o * 8) in
  let '(buf, _) := for_down 8 put_length (buf, bitCount) in
  let o := Transform (Obj (state o) (count o) buf (transforms o)) buf in
  (o, concat (map (put_word (state o)) (seq 0 8))).

(** [SHA256::Hash(data, len, hash)].  [sha] is the storage of the local
    object before its constructor runs, contents indeterminate. *)
Definition Hash_obj (sha : t) (data : list byte) : t * list byte :=
  let sha := Init (Obj (state sha) (count sha) (buffer sha) []) in
  let sha := Update sha data in
  Final sha.

Definition Hash (sha : t) (data : list byte) : list byte := snd (Hash_obj sha data).

End SHA256.

(* ===================================================================== *)
(** ** SHA-256 as the design document and FIPS 180-4 word it *)
(* ===================================================================== *)

(** These definitions follow the text of the design document (sections 3,
    4.1, 4.2, 4.3) and of FIPS 180-4, to which it defers; none of them is
    taken from the C++ code.  They are what the code is compared with. *)
Module FIPS.

(** Words are integers in [0, 2^32); all sums are taken modulo 2^32. *)
Definition word (x : Z) : Prop := 0 <= x < 2 ^ 32.

(** ROTR(x, n): the [n] low bits of [x] move to the top, the rest move
    down by [n] places. *)
Definition ROTR (x n : Z) : Z := x / 2 ^ n + (x mod 2 ^ n) * 2 ^ (32 - n).
Definition SHR (x n : Z) : Z := x / 2 ^ n.

(** The complement of a 32-bit word. *)
Definition neg (x : Z) : Z := 2 ^ 32 - 1 - x.

Definition Ch (x y z : Z) : Z := Z.lxor (Z.land x y) (Z.land (neg x) z).
Definition Maj (x y z : Z) : Z :=
  Z.lxor (Z.land x y) (Z.lxor (Z.land x z) (Z.land y z)).
Definition Sigma0 (x : Z) : Z := Z.lxor (ROTR x 2) (Z.lxor (ROTR x 13) (ROTR x 22)).
Definition Sigma1 (x : Z) : Z := Z.lxor (ROTR x 6) (Z.lxor (ROTR x 11) (ROTR x 25)).
Definition sigma0 (x : Z) : Z := Z.lxor (ROTR x 7) (Z.lxor (ROTR x 18) (SHR x 3)).
Definition sigma1 (x : Z) : Z := Z.lxor (ROTR x 17) (Z.lxor (ROTR x 19) (SHR x 10)).

(** *** The constants, from their definition

    FIPS 180-4, 4.2.2 and 5.3.3: the round constants are the first 32
    bits of the fractional parts of the cube roots of the first 64
    primes, the initial hash value those of the square roots of the
    first 8 primes. *)

Definition is_prime (n : Z) : bool :=
  (2 <=? n) && forallb (fun d => negb (n mod d =? 0)) (map Z.of_nat (seq 2 (Z.to_nat n - 2))).

(** The first [n] primes, searched upwards from [from]. *)
Fixpoint primes_from (fuel : nat) (from : Z) (n : nat) : list Z :=
  match fuel, n with
  | O, _ | _, O => []
  | S fuel', S n' =>
      if is_prime from then from :: primes_from fuel' (from + 1) n'
      else primes_from fuel' (from + 1) n
  end.

Definition primes (n : nat) : list Z := primes_from 400 2 n.

(** Integer [k]-th root below [2^bits], one binary digit at a time from
    the top: the largest [r] with [r^k <= x]. *)
Definition root_digit (k x : Z) (r : Z) (b : nat) : Z :=
  let r' := r + 2 ^ Z.of_nat b in
  if r' ^ k <=? x then r' else r.

Definition iroot (k x : Z) (bits : nat) : Z :=
  fold_left (root_digit k x) (rev (seq 0 bits)) 0.

(** First 32 bits of the fractional part of the [k]-th root of [p]. *)
Definition frac_root (k p : Z) : Z := iroot k (p * 2 ^ (32 * k)) 40 mod 2 ^ 32.

(** [x] is the first 32 bits of the fractional part of the [k]-th root
    of [p]: for some integer part [q], the number [q + x / 2^32] is at
    most the root and [q + (x + 1) / 2^32] is above it. *)
Definition is_frac_root (k p x : Z) : bool :=
  (0 <=? x) && (x <? 2 ^ 32)
  && existsb (fun q => let r := q * 2 ^ 32 + x in
                       (r ^ k <=? p * 2 ^ (32 * k)) && (p * 2 ^ (32 * k) <? (r + 1) ^ k))
             (map Z.of_nat (seq 0 32)).

Definition K : list Z := Eval vm_compute in map (frac_root 3) (primes 64).
Definition H0 : list Z := Eval vm_compute in map (frac_root 2) (primes 8).

(** *** Padding and parsing (FIPS 180-4, 5.1.1 and 5.2.1) *)

(** The 8 bytes of a 64-bit length, and the 4 bytes of a word, most
    significant first. *)
Definition be_bytes (n : nat) (x : Z) : list byte :=
  map (fun k => to_u8 (x / 2 ^ (8 * Z.of_nat k) mod 256)) (rev (seq 0 n)).

(** The message, the byte [0x80], the least number of zero bytes that
    brings the length to 56 modulo 64, and the bit length on 8 bytes. *)
Definition pad (msg : list byte) : list byte :=
  let len := Z.of_nat (length msg) in
  msg ++ [x80] ++ replicate (Z.to_nat ((55 - len) mod 64)) x00 ++ be_bytes 8 (8 * len).

(** The word made of four bytes, most significant first. *)
Definition be_word (b0 b1 b2 b3 : byte) : Z :=
  byte_val b0 * 2 ^ 24 + byte_val b1 * 2 ^ 16 + byte_val b2 * 2 ^ 8 + byte_val b3.

(** [M t]: word [t] of a 64-byte block. *)
Definition M (block : list byte) (t : nat) : Z :=
  be_word (nth (4 * t) block x00) (nth (4 * t + 1) block x00)
          (nth (4 * t + 2) block x00) (nth (4 * t + 3) block x00).

(** The 64-byte blocks of a padded message. *)
Fixpoint blocks (n : nat) (bytes : list byte) : list (list byte) :=
  match n with
  | O => []
  | S n' => take 64 bytes :: blocks n' (drop 64 bytes)
  end.

(** *** Message schedule (design document 4.2, steps 1 and 2)

    [W_upto block t] lists [W[t-1], W[t-2], ..., W[0]], latest first, so
    that [W[t-k]] is its element [k-1]. *)
Fixpoint W_upto (block : list byte) (t : nat) : list Z :=
  match t with
  | O => []
  | S t' =>
      let prev := W_upto block t' in
      (if (t' <? 16)%nat then M block t'
       else (sigma1 (nth 1 prev 0) + nth 6 prev 0
             + sigma0 (nth 14 prev 0) + nth 15 prev 0) mod 2 ^ 32) :: prev
  end.

Definition W (block : list byte) (t : nat) : Z := hd 0 (W_upto block (S t)).

(** *** Compression (design document 4.2, steps 3 to 5) *)

Definition regs : Type := Z * Z * Z * Z * Z * Z * Z * Z.

Definition step (Kt Wt : Z) (r : regs) : regs :=
  let '(a, b, c, d, e, f, g, h) := r in
  let T1 := (h + Sigma1 e + Ch e f g + Kt + Wt) mod 2 ^ 32 in
  let T2 := (Sigma0 a + Maj a b c) mod 2 ^ 32 in
  ((T1 + T2) mod 2 ^ 32, a, b, c, (d + T1) mod 2 ^ 32, e, f, g).

(** The working state after [t] rounds. *)
Fixpoint rounds (block : list byte) (init : regs) (t : nat) : regs :=
  match t with
  | O => init
  | S t' => step (nth t' K 0) (W block t') (rounds block init t')
  end.

Definition regs_of (H : list Z) : regs :=
  (nth 0 H 0, nth 1 H 0, nth 2 H 0, nth 3 H 0, nth 4 H 0, nth 5 H 0, nth 6 H 0, nth 7 H 0).

Definition list_of (r : regs) : list Z :=
  let '(a, b, c, d, e, f, g, h) := r in [a; b; c; d; e; f; g; h].

Definition compress (H : list Z) (block : list byte) : list Z :=
  map (fun p => (fst p + snd p) mod 2 ^ 32)
      (combine (firstn 8 H) (list_of (rounds block (regs_of H) 64))).

(** *** The digest *)

Definition serialize (H : list Z) : list byte := concat (map (be_bytes 4) H).

Definition sha256 (msg : list byte) : list byte :=
  let padded := pad msg in
  serialize (fold_left compress (blocks (length padded / 64) padded) H0).

(** *** The lane program for 33-byte records (design document 4.1, 4.3) *)

(** Bytes 0..32 the record, byte 33 [0x80], bytes 34..55 zero, bytes
    56..63 the constant [00 00 00 00 00 00 01 08]. *)
Definition pad33 (record : list byte) : list byte :=
  record ++ [x80] ++ replicate 22 x00 ++ [x00; x00; x00; x00; x00; x00; x01; x08].

(** Modelled from the spec: the lane program of the kernel, whose text
    is missing from the sources (design document 4.3): padding, one
    compression from the initial constants, serialization of the eight
    state words, most significant byte first. *)
Definition lane (record : list byte) : list byte :=
  serialize (compress H0 (pad33 record)).

End FIPS.

(* ===================================================================== *)
(** ** include/ptx_sha256.hpp *)
(* ===================================================================== *)

Module PTX.

(** *** The CUDA driver, as [hash_batch] sees it

    The driver is not code of this repository.  It is modelled as the
    environment of [hash_batch]:
    - the device holds a finite map of live allocations, from the
      device pointer to the size asked for and the bytes found at each
      offset from the pointer; [cuMemAlloc] does not clear the memory
      it returns, so a new allocation starts with arbitrary bytes;
    - whether a call reports [CUDA_SUCCESS], and what a new allocation
      contains, is chosen by the environment ([driver]);
    - a call that reports an error has had no effect;
    - [cuMemFree] releases the allocation (the code does not look at
      its result);
    - every call is appended to a trace. *)

Inductive CUresult := CUDA_SUCCESS | CUDA_ERROR.

Definition succeeded (r : CUresult) : bool :=
  match r with CUDA_SUCCESS => true | CUDA_ERROR => false end.

Record dbuf := DBuf {
  bytesize : Z;
  bytes : Z -> byte
}.

Inductive call :=
| MemAlloc (bytesize : Z)
| MemFree (dptr : Z)
| MemcpyHtoD (dptr bytecount : Z)
| MemcpyDtoH (dptr bytecount : Z)
| LaunchKernel (gridDimX blockDimX d_input d_output num_keys : Z)
| CtxSynchronize.

Record world := World {
  device : gmap Z dbuf;     (* live device allocations             *)
  cerr : list string;       (* lines written to std::cerr          *)
  trace : list call         (* driver calls made so far, in order  *)
}.

(** The answers of the driver during one [hash_batch]. *)
Record driver := Driver {
  alloc_input_ok : bool;
  input_garbage : Z -> byte;
  alloc_output_ok : bool;
  output_garbage : Z -> byte;
  htod_ok : bool;
  launch_ok : bool;
  sync_ok : bool;
  dtoh_ok : bool
}.

Definition verdict (ok : bool) : CUresult := if ok then CUDA_SUCCESS else CUDA_ERROR.

Definition logged (c : call) (w : world) : world :=
  World (device w) (cerr w) (trace w ++ [c]).

(** [std::cerr << msg << std::endl]. *)
Definition report (msg : string) (w : world) : world :=
  World (device w) (cerr w ++ [msg]) (trace w).

(** [[0, n)] of [dst] overwritten from [src]. *)
Definition copy (src dst : Z -> byte) (n : Z) : Z -> byte :=
  fun a => if (0 <=? a) && (a <? n) then src a else dst a.

Definition cuMemAlloc (ok : bool) (garbage : Z -> byte) (size : Z) (w : world)
  : CUresult * Z * world :=
  let w := logged (MemAlloc size) w in
  if ok then
    let dptr := fresh (dom (device w)) in
    (CUDA_SUCCESS, dptr,
     World (<[dptr := DBuf size garbage]> (device w)) (cerr w) (trace w))
  else (CUDA_ERROR, 0, w).

Definition cuMemFree (dptr : Z) (w : world) : world :=
  let w := logged (MemFree dptr) w in
  World (delete dptr (device w)) (cerr w) (trace w).

Definition cuMemcpyHtoD (ok : bool) (dptr : Z) (src : Z -> byte) (n : Z) (w : world)
  : CUresult * world :=
  let w := logged (MemcpyHtoD dptr n) w in
  match ok, device w !! dptr with
  | true, Some b =>
      (CUDA_SUCCESS,
       World (<[dptr := DBuf (bytesize b) (copy src (bytes b) n)]> (device w))
             (cerr w) (trace w))
  | _, _ => (CUDA_ERROR, w)
  end.

Definition cuMemcpyDtoH (ok : bool) (dst : Z -> byte) (dptr : Z) (n : Z) (w : world)
  : CUresult * (Z -> byte) * world :=
  let w := logged (MemcpyDtoH dptr n) w in
  match ok, device w !! dptr with
  | true, Some b => (CUDA_SUCCESS, copy (bytes b) dst n, w)
  | _, _ => (CUDA_ERROR, dst, w)
  end.

Definition cuCtxSynchronize (ok : bool) (w : world) : CUresult * world :=
  (verdict ok, logged CtxSynchronize w).

(** *** The kernel *)

(** What a loaded kernel function does: from the grid dimensions and
    its three arguments (the input area, the output area, the count),
    the output area it leaves. *)
Definition kernel : Type := Z -> Z -> (Z -> byte) -> (Z -> byte) -> Z -> Z -> byte.

(** The 33 bytes of record [i] in an input area. *)
Definition record (input : Z -> byte) (i : Z) : list byte :=
  map (fun j => input (33 * i + Z.of_nat j)) (seq 0 33).

(** Modelled from the spec: the kernel [sha256_kernel] (the file
    ptx/sha256_kernel_full.ptx and its generator generate_sha256_ptx.py)
    is missing from the sources.  Design document, sections 2, 3 and 4.3:
    one lane per record; lane [i] consumes InputRecord [i], the 33 bytes
    at offset [33 i] of the input area, runs the lane program (padding,
    one compression from the initial constants, big-endian
    serialization) and writes the 32 bytes to its own output slot, at
    offset [32 i] of the output area; no lane reads or writes another
    lane's record.  The lanes are the launched threads whose index is
    below [num_keys]. *)
Definition sha256_kernel : kernel :=
  fun (gridDimX blockDimX : Z) (d_input d_output : Z -> byte) (num_keys : Z) (a : Z) =>
    let lane := a / 32 in
    if (0 <=? a) && (lane <? Z.min num_keys (gridDimX * blockDimX))
    then nth (Z.to_nat (a mod 32)) (FIPS.lane (record d_input lane)) x00
    else d_output a.

(** Launching [f] on a grid with the arguments [d_input], [d_output],
    [num_keys]. *)
Definition cuLaunchKernel (ok : bool) (f : kernel) (gridDimX blockDimX : Z)
    (d_input d_output num_keys : Z) (w : world) : CUresult * world :=
  let w := logged (LaunchKernel gridDimX blockDimX d_input d_output num_keys) w in
  match ok, device w !! d_input, device w !! d_output with
  | true, Some bi, Some bo =>
      (CUDA_SUCCESS,
       World (<[d_output := DBuf (bytesize bo)
                  (f gridDimX blockDimX (bytes bi) (bytes bo) num_keys)]>
                (device w))
             (cerr w) (trace w))
  | _, _, _ => (CUDA_ERROR, w)
  end.

(** *** class PTX_SHA256 *)

(** [kernel_] is the function found in the loaded module. *)
Record t := Engine {
  module_ : Z;
  kernel_ : kernel;
  context_ : Z;
  initialized_ : bool
}.

(** [size_t input_size = num_keys * 33]: the product is formed in
    [uint32_t] ([num_keys] is a [uint32_t], [33] an [int]) and widened
    afterwards. *)
Definition input_size (num_keys : Z) : Z := wrap32 (num_keys * 33).
Definition output_size (num_keys : Z) : Z := wrap32 (num_keys * 32).

Definition threads_per_block : Z := 128.

(** [int blocks = (num_keys + threads_per_block - 1) / threads_per_block],
    in [uint32_t], converted to [int]. *)
Definition blocks (num_keys : Z) : Z :=
  to_int (wrap32 (wrap32 (num_keys + threads_per_block) - 1) / threads_per_block).

(** [PTX_SHA256::hash_batch(h_input, h_output, num_keys)]: the value
    returned, the caller's output buffer afterwards, and the world
    afterwards.  The host buffers are given by their bytes at each
    offset. *)
Definition hash_batch (this : t) (drv : driver) (h_input h_output : Z -> byte)
    (num_keys : Z) (w : world) : bool * (Z -> byte) * world :=
  if negb (initialized_ this) then
    (false, h_output, report "PTX_SHA256 not initialized" w)
  else
  let input_size := input_size num_keys in
  let output_size := output_size num_keys in
  let '(result, d_input, w) :=
    cuMemAlloc (alloc_input_ok drv) (input_garbage drv) input_size w in
  if negb (succeeded result) then
    (false, h_output, report "Failed to allocate input memory" w)
  else
  let '(result, d_output, w) :=
    cuMemAlloc (alloc_output_ok drv) (output_garbage drv) output_size w in
  if negb (succeeded result) then
    let w := cuMemFree d_input w in
    (false, h_output, report "Failed to allocate output memory" w)
  else
  let '(result, w) := cuMemcpyHtoD (htod_ok drv) d_input h_input input_size w in
  if negb (succeeded result) then
    let w := cuMemFree d_input w in
    let w := cuMemFree d_output w in
    (false, h_output, report "Failed to copy input to device" w)
  else
  let blocks := blocks num_keys in
  let '(result, w) :=
    cuLaunchKernel (launch_ok drv) (kernel_ this)
                   (wrap32 blocks) (wrap32 threads_per_block)
                   d_input d_output num_keys w in
  if negb (succeeded result) then
    let w := cuMemFree d_input w in
    let w := cuMemFree d_output w in
    (false, h_output, report "Failed to launch kernel" w)
  else
  let '(result, w) := cuCtxSynchronize (sync_ok drv) w in
  if negb (succeeded result) then
    let w := cuMemFree d_input w in
    let w := cuMemFree d_output w in
    (false, h_output, report "Kernel execution failed" w)
  else
  let '(result, h_output, w) :=
    cuMemcpyDtoH (dtoh_ok drv) h_output d_output output_size w in
  if negb (succeeded result) then
    let w := cuMemFree d_input w in
    let w := cuMemFree d_output w in
    (false, h_output, report "Failed to copy output from device" w)
  else
  let w := cuMemFree d_input w in
  let w := cuMemFree d_output w in
  (true, h_output, w).

End PTX.

(** *** Test data *)

Definition test_pubkey : list byte :=
  Hex.bytes_of "0279be667ef9dcbbac55a06295ce870b07029bfcdb2dce28d959f2815b16f81798".

Definition test_digest : list byte :=
  Hex.bytes_of "0f715baf5d4c2ed329785cef29e562f73488c8a2bb9dbc5700b361d54b9b0554".

(** Storage of a [SHA256] object before its constructor has run. *)
Definition blank : SHA256.t := SHA256.Obj [] 0 (replicate 64 x00) [].

(** A host buffer holding the given bytes, zero elsewhere. *)
Definition host_of (l : list byte) : Z -> byte :=
  fun a => if 0 <=? a then nth (Z.to_nat a) l x00 else x00.

(** An initialized engine whose module holds the kernel of the design
    document. *)
Definition engine : PTX.t := PTX.Engine 1 PTX.sha256_kernel 1 true.
Definition no_garbage : Z -> byte := fun _ => x00.
Definition all_ok : PTX.driver :=
  PTX.Driver true no_garbage true no_garbage true true true true.
Definition world0 : PTX.world := PTX.World ∅ [] [].

(** A driver that refuses the first allocation, one that refuses the
    second, and one that hands out memory filled with 0xff. *)
Definition refuse_first : PTX.driver :=
  PTX.Driver false no_garbage true no_garbage true true true true.
Definition refuse_second : PTX.driver :=
  PTX.Driver true no_garbage false no_garbage true true true true.
Definition all_ok_dirty : PTX.driver :=
  PTX.Driver true (fun _ => xff) true (fun _ => xff) true true true true.

(** What a call returned, the caller's buffer after it, the world after it. *)
Definition returned (r : bool * (Z -> byte) * PTX.world) : bool := fst (fst r).
Definition buffer_after (r : bool * (Z -> byte) * PTX.world) : Z -> byte := snd (fst r).
Definition world_after (r : bool * (Z -> byte) * PTX.world) : PTX.world := snd r.

(* ===================================================================== *)
(** ** Auxiliary notions used in the statements *)
(* ===================================================================== *)

(** What the array [m] of [Transform] holds once its first [t] entries are
    written. *)
Definition filled (block : list byte) (t : nat) (m : list Z) : Prop :=
  length m = 64%nat /\ forall k, (k < t)%nat -> rw m k = FIPS.W block k.

(** The eight working variables, as the document's tuple. *)
Definition vars_of (r : FIPS.regs) : SHA256.vars :=
  let '(a, b, c, d, e, f, g, h) := r in SHA256.Vars a b c d e f g h.

Definition words8 (r : FIPS.regs) : Prop :=
  let '(a, b, c, d, e, f, g, h) := r in
  FIPS.word a /\ FIPS.word b /\ FIPS.word c /\ FIPS.word d /\
  FIPS.word e /\ FIPS.word f /\ FIPS.word g /\ FIPS.word h.

(** The driver reports success throughout one [hash_batch]. *)
Definition all_verdicts (drv : PTX.driver) : bool :=
  PTX.alloc_input_ok drv && PTX.alloc_output_ok drv && PTX.htod_ok drv
  && PTX.launch_ok drv && PTX.sync_ok drv && PTX.dtoh_ok drv.

(** The device input area once the upload is done. *)
Definition staged (drv : PTX.driver) (h_input : Z -> byte) (num_keys : Z) : Z -> byte :=
  PTX.copy h_input (PTX.input_garbage drv) (PTX.input_size num_keys).

(** The device output area once the kernel has run. *)
Definition computed (this : PTX.t) (drv : PTX.driver) (h_input : Z -> byte) (num_keys : Z)
  : Z -> byte :=
  PTX.kernel_ this (wrap32 (PTX.blocks num_keys)) (wrap32 PTX.threads_per_block)
    (staged drv h_input num_keys) (PTX.output_garbage drv) num_keys.

(** The caller's output buffer once the download is done. *)
Definition downloaded (this : PTX.t) (drv : PTX.driver) (h_input h_output : Z -> byte)
    (num_keys : Z) : Z -> byte :=
  PTX.copy (computed this drv h_input num_keys) h_output (PTX.output_size num_keys).

(** Output slot [i] of a host buffer. *)
Definition slot (h_output : Z -> byte) (i : Z) : list byte :=
  map (fun j => h_output (32 * i + Z.of_nat j)) (seq 0 32).

(** The buffer [Final] hands to [Transform] for a count of 33. *)
Definition closing_buffer (buf : list byte) : list byte :=
  fst (for_down 8 SHA256.put_length
         (memset (<[33%nat := x80]> buf) 34 x00 22, 264)).

(** Record 0 as the kernel finds it in the device input area when only
    the first 29 bytes have been uploaded: bytes 0..28 from the caller's
    buffer, bytes 29..32 as the allocation held them. *)
Definition unstaged_record (h_input memory : Z -> byte) : list byte :=
  map (fun j => h_input (Z.of_nat j)) (seq 0 29)
  ++ map (fun j => memory (Z.of_nat j)) (seq 29 4).

(* ===================================================================== *)
(** ** Notions for [Update] and [Final] on messages of any length *)
(* ===================================================================== *)

(** The bytes [Update] has put aside in the buffer for the next block:
    the first [count % 64] bytes of the buffer. *)
Definition pending (o : SHA256.t) : list byte :=
  take (Z.to_nat (SHA256.count o mod 64)) (SHA256.buffer o).

(** The members have the sizes and ranges of their declarations. *)
Definition well_formed (o : SHA256.t) : Prop :=
  length (SHA256.buffer o) = 64%nat
  /\ length (SHA256.state o) = 8%nat
  /\ Forall FIPS.word (SHA256.state o)
  /\ 0 <= SHA256.count o < 2 ^ 64.

(** The full 64-byte blocks of [bytes], in order. *)
Definition full_blocks_of (bytes : list byte) : list (list byte) :=
  FIPS.blocks (length bytes / 64) bytes.

(** The bytes of [bytes] after its full blocks. *)
Definition remainder_of (bytes : list byte) : list byte :=
  drop (length bytes / 64 * 64) bytes.

(** The state after compressing the full blocks of [bytes] one by one. *)
Definition absorb (st : list Z) (bytes : list byte) : list Z :=
  fold_left FIPS.compress (full_blocks_of bytes) st.

(** What [Final] appends to the pending bytes: the marker, the zeros and
    the 64-bit count of bits as the object holds it. *)
Definition closing (o : SHA256.t) : list byte :=
  pending o ++ [x80]
  ++ replicate (Z.to_nat ((55 - SHA256.count o) mod 64)) x00
  ++ FIPS.be_bytes 8 (wrap64 (SHA256.count o * 8)).

(* ===================================================================== *)
(** ** include/ptx_sha256.hpp: construction, initialization, cleanup *)
(* ===================================================================== *)

Module Setup.

(** *** The driver and the file system, as [initialize] and [cleanup]
    see them

    As for [hash_batch], the CUDA driver is the environment:
    - the world holds the sets of live contexts, loaded modules and live
      link states; a handle returned by a successful creation is not
      null and not one of the live handles;
    - whether a call reports [CUDA_SUCCESS] is chosen by the environment
      ([driver]), and so are the device, the function handle and the
      texts the linker leaves in [walltime], [info_log] and [error_log];
    - a call that reports an error has had no effect, in particular it
      has not written its result argument;
    - [cuModuleUnload], [cuLinkDestroy] and [cuCtxDestroy] release the
      handle they are given (the code does not look at their results);
    - every call is appended to a trace.
    The file system is a function from a path to what opening and
    reading the file gives. *)

Inductive call :=
| Init (flags : Z)
| DeviceGet (ordinal : Z)
| CtxCreate (flags dev : Z)
| LinkCreate (numOptions : Z)
| LinkAddData (state size : Z) (name : string)
| LinkComplete (state : Z)
| ModuleLoadData
| ModuleGetFunction (hmod : Z) (name : string)
| ModuleUnload (hmod : Z)
| LinkDestroy (state : Z)
| CtxDestroy (ctx : Z).

Record world := World {
  contexts : gset Z;        (* live contexts                        *)
  modules : gset Z;         (* loaded modules                       *)
  linkers : gset Z;         (* live link states                     *)
  cerr : list string;       (* lines written to std::cerr           *)
  cout : list string;       (* lines written to std::cout           *)
  trace : list call         (* driver calls made so far, in order   *)
}.

(** The answers of the driver during one [initialize]. *)
Record driver := Driver {
  init_ok : bool;
  device_ok : bool;
  device : Z;
  ctx_ok : bool;
  link_create_ok : bool;
  add_data_ok : bool;
  complete_ok : bool;
  walltime : string;        (* the float [walltime], as printed     *)
  info_log : string;
  error_log : string;       (* at the time it is printed            *)
  load_ok : bool;
  function_ok : bool;
  function : Z
}.

(** What [std::ifstream file(path)] and reading it through give: the
    file cannot be opened, or it has these contents, or an exception
    derived from [std::exception] is thrown meanwhile (its [what()]). *)
Inductive file_result :=
| CannotOpen
| Contents (s : string)
| Throws (what : string).

Definition logged (c : call) (w : world) : world :=
  World (contexts w) (modules w) (linkers w) (cerr w) (cout w) (trace w ++ [c]).

(** [std::cerr << msg << std::endl] and [std::cout << msg << std::endl]. *)
Definition report (msg : string) (w : world) : world :=
  World (contexts w) (modules w) (linkers w) (cerr w ++ [msg]) (cout w) (trace w).

Definition say (msg : string) (w : world) : world :=
  World (contexts w) (modules w) (linkers w) (cerr w) (cout w ++ [msg]) (trace w).

(** A handle that is neither null nor live. *)
Definition new_handle (live : gset Z) : Z := fresh ({[ 0 ]} ∪ live).

Definition cuInit (ok : bool) (flags : Z) (w : world) : PTX.CUresult * world :=
  (PTX.verdict ok, logged (Init flags) w).

Definition cuDeviceGet (ok : bool) (dev ordinal : Z) (w : world)
  : PTX.CUresult * Z * world :=
  (PTX.verdict ok, (if ok then dev else 0), logged (DeviceGet ordinal) w).

Definition cuCtxCreate (ok : bool) (flags dev : Z) (w : world)
  : PTX.CUresult * Z * world :=
  let w := logged (CtxCreate flags dev) w in
  if ok then
    let ctx := new_handle (contexts w) in
    (PTX.CUDA_SUCCESS, ctx,
     World ({[ ctx ]} ∪ contexts w) (modules w) (linkers w) (cerr w) (cout w) (trace w))
  else (PTX.CUDA_ERROR, 0, w).

Definition cuCtxDestroy (ctx : Z) (w : world) : world :=
  let w := logged (CtxDestroy ctx) w in
  World (contexts w ∖ {[ ctx ]}) (modules w) (linkers w) (cerr w) (cout w) (trace w).

Definition cuLinkCreate (ok : bool) (numOptions : Z) (w : world)
  : PTX.CUresult * Z * world :=
  let w := logged (LinkCreate numOptions) w in
  if ok then
    let st := new_handle (linkers w) in
    (PTX.CUDA_SUCCESS, st,
     World (contexts w) (modules w) ({[ st ]} ∪ linkers w) (cerr w) (cout w) (trace w))
  else (PTX.CUDA_ERROR, 0, w).

Definition cuLinkAddData (ok : bool) (state size : Z) (name : string) (w : world)
  : PTX.CUresult * world :=
  (PTX.verdict ok, logged (LinkAddData state size name) w).

Definition cuLinkComplete (ok : bool) (state : Z) (w : world) : PTX.CUresult * world :=
  (PTX.verdict ok, logged (LinkComplete state) w).

Definition cuLinkDestroy (state : Z) (w : world) : world :=
  let w := logged (LinkDestroy state) w in
  World (contexts w) (modules w) (linkers w ∖ {[ state ]}) (cerr w) (cout w) (trace w).

Definition cuModuleLoadData (ok : bool) (w : world) : PTX.CUresult * Z * world :=
  let w := logged ModuleLoadData w in
  if ok then
    let hmod := new_handle (modules w) in
    (PTX.CUDA_SUCCESS, hmod,
     World (contexts w) ({[ hmod ]} ∪ modules w) (linkers w) (cerr w) (cout w) (trace w))
  else (PTX.CUDA_ERROR, 0, w).

Definition cuModuleGetFunction (ok : bool) (fn hmod : Z) (name : string) (w : world)
  : PTX.CUresult * Z * world :=
  (PTX.verdict ok, (if ok then fn else 0), logged (ModuleGetFunction hmod name) w).

Definition cuModuleUnload (hmod : Z) (w : world) : world :=
  let w := logged (ModuleUnload hmod) w in
  World (contexts w) (modules w ∖ {[ hmod ]}) (linkers w) (cerr w) (cout w) (trace w).

(** *** class PTX_SHA256 *)

(** The members; the three handles are pointers, [0] is [nullptr]. *)
Record t := Obj {
  module_ : Z;
  kernel_ : Z;
  context_ : Z;
  initialized_ : bool
}.

(** The constructor, on the storage of the object: its initializer list
    names [module_], [kernel_] and [initialized_]; [context_] keeps
    whatever the storage held. *)
Definition PTX_SHA256 (storage : t) : t :=
  Obj 0 0 (context_ storage) false.

(** [PTX_SHA256::cleanup()]. *)
Definition cleanup (this : t) (w : world) : t * world :=
  let this :=
    if negb (kernel_ this =? 0)
    then Obj (module_ this) 0 (context_ this) (initialized_ this)
    else this in
  let '(this, w) :=
    if negb (module_ this =? 0) then
      let w := cuModuleUnload (module_ this) w in
      (Obj 0 (kernel_ this) (context_ this) (initialized_ this), w)
    else (this, w) in
  let '(this, w) :=
    if negb (context_ this =? 0) then
      let w := cuCtxDestroy (context_ this) w in
      (Obj (module_ this) (kernel_ this) 0 (initialized_ this), w)
    else (this, w) in
  (Obj (module_ this) (kernel_ this) (context_ this) false, w).

(** The destructor. *)
Definition destroy (this : t) (w : world) : t * world := cleanup this w.

(** [PTX_SHA256::read_ptx(path)]: the string returned, or the exception
    thrown. *)
Definition read_ptx (files : string -> file_result) (ptx_file_path : string) (w : world)
  : (string + string) * world :=
  match files ptx_file_path with
  | CannotOpen => (inl ""%string, report ("Failed to open PTX file: " ++ ptx_file_path) w)
  | Contents s => (inl s, w)
  | Throws what => (inr what, w)
  end.

Definition num_options : Z := 7.

Definition newline : string := String "010"%char EmptyString.

(** [PTX_SHA256::compile_ptx(ptx_source)]. *)
Definition compile_ptx (this : t) (drv : driver) (ptx_source : string) (w : world)
  : bool * t * world :=
  let '(result, linker_state, w) := cuLinkCreate (link_create_ok drv) num_options w in
  if negb (PTX.succeeded result) then
    (false, this, report "Failed to create linker" w)
  else
  let '(result, w) :=
    cuLinkAddData (add_data_ok drv) linker_state
                  (Z.of_nat (String.length ptx_source)) "sha256_kernel.ptx" w in
  if negb (PTX.succeeded result) then
    let w := report "Failed to add PTX source to linker" w in
    let w := report ("Error log: " ++ error_log drv) w in
    let w := cuLinkDestroy linker_state w in
    (false, this, w)
  else
  let '(result, w) := cuLinkComplete (complete_ok drv) linker_state w in
  if negb (PTX.succeeded result) then
    let w := report "Failed to complete linking" w in
    let w := report ("Error log: " ++ error_log drv) w in
    let w := cuLinkDestroy linker_state w in
    (false, this, w)
  else
  let w := say ("CUDA Link Completed in " ++ walltime drv ++ " ms.") w in
  let w := say ("Linker Output:" ++ newline ++ info_log drv) w in
  let '(result, hmod, w) := cuModuleLoadData (load_ok drv) w in
  if negb (PTX.succeeded result) then
    let w := report "Failed to load module" w in
    let w := cuLinkDestroy linker_state w in
    (false, this, w)
  else
  let this := Obj hmod (kernel_ this) (context_ this) (initialized_ this) in
  let '(result, fn, w) :=
    cuModuleGetFunction (function_ok drv) (function drv) (module_ this) "sha256_kernel" w in
  if negb (PTX.succeeded result) then
    let w := report "Failed to get kernel function" w in
    let w := cuModuleUnload (module_ this) w in
    let w := cuLinkDestroy linker_state w in
    (false, this, w)
  else
  let this := Obj (module_ this) fn (context_ this) (initialized_ this) in
  let w := cuLinkDestroy linker_state w in
  (true, this, w).

(** [PTX_SHA256::initialize(ptx_file_path)].  The [try] block is the
    whole body; the one place of the model where an exception arises is
    the reading of the file, and the handler is the last case. *)
Definition initialize (this : t) (drv : driver) (files : string -> file_result)
    (ptx_file_path : string) (w : world) : bool * t * world :=
  let '(result, w) := cuInit (init_ok drv) 0 w in
  if negb (PTX.succeeded result) then
    (false, this, report "Failed to initialize CUDA driver API" w)
  else
  let '(result, dev, w) := cuDeviceGet (device_ok drv) (device drv) 0 w in
  if negb (PTX.succeeded result) then
    (false, this, report "Failed to get CUDA device" w)
  else
  let '(result, ctx, w) := cuCtxCreate (ctx_ok drv) 0 dev w in
  if negb (PTX.succeeded result) then
    (false, this, report "Failed to create CUDA context" w)
  else
  let this := Obj (module_ this) (kernel_ this) ctx (initialized_ this) in
  let '(read, w) := read_ptx files ptx_file_path w in
  match read with
  | inl ptx_source =>
      if String.eqb ptx_source "" then (false, this, w)
      else
      let '(ok, this, w) := compile_ptx this drv ptx_source w in
      if negb ok then (false, this, w)
      else
      (true, Obj (module_ this) (kernel_ this) (context_ this) true, w)
  | inr what =>
      (false, this, report ("Exception during initialization: " ++ what) w)
  end.

(** The engine [hash_batch] works with, [denotes] telling what the
    function behind a handle computes. *)
Definition engine_of (denotes : Z -> PTX.kernel) (this : t) : PTX.t :=
  PTX.Engine (module_ this) (denotes (kernel_ this)) (context_ this) (initialized_ this).

End Setup.

(** *** Notions used in the statements about [initialize] *)

(** The driver accepts the three calls that set up the context, the
    five calls of [compile_ptx], and everything [initialize] needs is
    there. *)
Definition boots (drv : Setup.driver) : bool :=
  Setup.init_ok drv && Setup.device_ok drv && Setup.ctx_ok drv.

Definition links (drv : Setup.driver) : bool :=
  Setup.link_create_ok drv && Setup.add_data_ok drv && Setup.complete_ok drv && Setup.load_ok drv
  && Setup.function_ok drv.

Definition ready (drv : Setup.driver) (files : string -> Setup.file_result) (path : string) : bool :=
  boots drv
  && match files path with
     | Setup.Contents s => negb (String.eqb s "") && links drv
     | _ => false
     end.


(** *** Test data for the engine's life cycle *)

(** A driver that accepts every call of [initialize], a file system
    that holds the kernel text under the path of the test program, and a
    world without resources. *)
Definition setup_ok : Setup.driver :=
  Setup.Driver true true 0 true true true true "0.5" "info" "" true true 7.
Definition no_function : Setup.driver :=
  Setup.Driver true true 0 true true true true "0.5" "info" "" true false 7.
Definition no_cuda : Setup.driver :=
  Setup.Driver false true 0 true true true true "0.5" "info" "" true true 7.
Definition ptx_path : string := "ptx/sha256_kernel_full.ptx".
Definition disk (path : string) : Setup.file_result :=
  if String.eqb path ptx_path then Setup.Contents ".version 7.0" else Setup.CannotOpen.
Definition setup0 : Setup.world := Setup.World ∅ ∅ ∅ [] [] [].

(** *** Notions used in the statements about the calls of [hash_batch] *)

(** The answers of the driver to the six calls of [hash_batch] that can
    be refused, in the order of the calls. *)
Definition verdicts (drv : PTX.driver) : list bool :=
  [ PTX.alloc_input_ok drv; PTX.alloc_output_ok drv; PTX.htod_ok drv;
    PTX.launch_ok drv; PTX.sync_ok drv; PTX.dtoh_ok drv ].

(** How many answers come before the first refusal. *)
Fixpoint accepted (vs : list bool) : nat :=
  match vs with
  | true :: vs' => S (accepted vs')
  | _ => 0%nat
  end.

(** The six calls, with the two device pointers the allocations gave. *)
Definition requests (num_keys d_input d_output : Z) : list PTX.call :=
  [ PTX.MemAlloc (PTX.input_size num_keys);
    PTX.MemAlloc (PTX.output_size num_keys);
    PTX.MemcpyHtoD d_input (PTX.input_size num_keys);
    PTX.LaunchKernel (wrap32 (PTX.blocks num_keys)) (wrap32 PTX.threads_per_block)
                     d_input d_output num_keys;
    PTX.CtxSynchronize;
    PTX.MemcpyDtoH d_output (PTX.output_size num_keys) ].

(** The line written to [std::cerr] when call number [k] is refused. *)
Definition complaints : list string :=
  [ "Failed to allocate input memory"; "Failed to allocate output memory";
    "Failed to copy input to device"; "Failed to launch kernel";
    "Kernel execution failed"; "Failed to copy output from device" ]%string.

(** The releases that follow [k] accepted calls. *)
Definition releases (k : nat) (d_input d_output : Z) : list PTX.call :=
  match k with
  | 0%nat => []
  | 1%nat => [PTX.MemFree d_input]
  | _ => [PTX.MemFree d_input; PTX.MemFree d_output]
  end.

(* ===================================================================== *)
(** ** tests/test_ptx_sha256.cpp *)
(* ===================================================================== *)

Module Tests.

(** [printf("%02x", b)]: the two lowercase hexadecimal digits of a byte. *)
Definition hex_char (n : Z) : ascii :=
  ascii_of_N (Z.to_N (if n <? 10 then 48 + n else 87 + n)).

Definition printf_02x (b : byte) : string :=
  String (hex_char (byte_val b / 16)) (String (hex_char (byte_val b mod 16)) EmptyString).

(** [print_hex(label, data, len)], with [len = length data]: the text
    written to the standard output. *)
Definition print_hex (label : string) (data : list byte) : string :=
  let out := (label ++ ": ")%string in
  let out :=
    for_loop 0 (length data)
             (fun i out => (out ++ printf_02x (nth i data x00))%string) out in
  (out ++ Setup.newline)%string.

(** One turn of the loop of [main] that generates the test batch and its
    reference digests: record [i] is the test key with its last byte
    replaced by [i & 0xFF].  [sha i] is the storage of the local object
    of the [i]-th call of [SHA256::Hash]. *)
Definition generate (sha : nat -> SHA256.t) (i : nat) (s : list byte * list byte)
  : list byte * list byte :=
  let '(input_batch, cpu_batch) := s in
  let input_batch := memcpy input_batch (i * 33) test_pubkey 33 in
  let input_batch :=
    <[ (i * 33 + 32)%nat := to_u8 (Z.land (Z.of_nat i) 0xFF) ]> input_batch in
  let hash := SHA256.Hash (sha i) (take 33 (drop (i * 33) input_batch)) in
  let cpu_batch := memcpy cpu_batch (i * 32) hash 32 in
  (input_batch, cpu_batch).

(** The whole loop, from the two arrays as [new] returned them. *)
Definition generate_batch (sha : nat -> SHA256.t) (batch_size : nat)
    (input_batch cpu_batch : list byte) : list byte * list byte :=
  for_loop 0 batch_size (generate sha) (input_batch, cpu_batch).

End Tests.

(** The hexadecimal text of a byte string, two digits per byte. *)
Definition hex (data : list byte) : string :=
  fold_right (fun b s => (Tests.printf_02x b ++ s)%string) ""%string data.

(** Record [i] of the generated batch. *)
Definition varied (i : nat) : list byte :=
  take 32 test_pubkey ++ [to_u8 (Z.of_nat (i mod 256))].

(** *** The comparison of the batch with its reference (same file) *)

Module Compare.

(** [memcmp(s1, s2, n)] of the C library: zero when the first [n] bytes
    agree, otherwise the difference of the first two bytes that differ,
    taken as [unsigned char]. *)
Fixpoint memcmp (s1 s2 : list byte) (n : nat) : Z :=
  match n with
  | O => 0
  | S n' =>
      if rd s1 0 =? rd s2 0 then memcmp (drop 1 s1) (drop 1 s2) n'
      else rd s1 0 - rd s2 0
  end.

(** [compare_hashes(hash1, hash2, len)]. *)
Definition compare_hashes (hash1 hash2 : list byte) (len : nat) : bool :=
  memcmp hash1 hash2 len =? 0.

(** [printf("%d", i)] for an [i] that is not negative. *)
Definition printf_d (i : nat) : string := NilZero.string_of_uint (Nat.to_uint i).

(** One turn of the loop of [main] that compares the two batches: the
    count of mismatches (an [int]) and the text written so far. *)
Definition compare_one (cpu_batch gpu_batch : list byte) (i : nat) (s : Z * string)
  : Z * string :=
  let '(mismatches, out) := s in
  if negb (compare_hashes (drop (i * 32) cpu_batch) (drop (i * 32) gpu_batch) 32) then
    let out :=
      if mismatches =? 0 then
        (out ++ ("❌ Mismatch at key " ++ printf_d i ++ ":" ++ Setup.newline)
             ++ Tests.print_hex "  CPU" (take 32 (drop (i * 32) cpu_batch))
             ++ Tests.print_hex "  GPU" (take 32 (drop (i * 32) gpu_batch)))%string
      else out in
    (to_int (mismatches + 1), out)
  else (mismatches, out).

(** The whole loop. *)
Definition compare_batches (batch_size : nat) (cpu_batch gpu_batch : list byte)
  : Z * string :=
  for_loop 0 batch_size (compare_one cpu_batch gpu_batch) (0, ""%string).

End Compare.

(** The first [n] bytes of a host buffer, as an array. *)
Definition array_of (h : Z -> byte) (n : nat) : list byte :=
  map (fun a => h (Z.of_nat a)) (seq 0 n).

(* ===================================================================== *)
(** ** The reference definitions, checked *)
(* ===================================================================== *)

Section Validation.

(** The two standard one-block vectors of FIPS 180-4. *)
Example sha256_abc :
  FIPS.sha256 (Hex.bytes_of "616263")
  = Hex.bytes_of "ba7816bf8f01cfea414140de5dae2223b00361a396177a9cb410ff61f20015ad".
Proof. vm_compute. reflexivity. Qed.

Example sha256_empty :
  FIPS.sha256 []
  = Hex.bytes_of "e3b0c44298fc1c149afbf4c8996fb92427ae41e4649b934ca495991b7852b855".
Proof. vm_compute. reflexivity. Qed.

(** A two-block vector (56 bytes). *)
Example sha256_two_blocks :
  FIPS.sha256 (Hex.bytes_of
    "6162636462636465636465666465666765666768666768696768696a68696a6b696a6b6c6a6b6c6d6b6c6d6e6c6d6e6f6d6e6f706e6f7071")
  = Hex.bytes_of "248d6a61d20638b8e5c026930c3e6039a33ce45964ff2167f6ecedd419db06c1".
Proof. vm_compute. reflexivity. Qed.

(** The constants are what their definition says, and the code's tables
    are these constants. *)
Lemma primes_are_prime :
  FIPS.primes 64 = filter (fun n => FIPS.is_prime n) (map Z.of_nat (seq 0 312)).
Proof. vm_compute. reflexivity. Qed.

Lemma K_are_cube_root_fractions :
  forallb (fun pk => FIPS.is_frac_root 3 (fst pk) (snd pk))
          (combine (FIPS.primes 64) FIPS.K) = true
  /\ length FIPS.K = 64%nat.
Proof. vm_compute. split; reflexivity. Qed.

Lemma H0_are_square_root_fractions :
  forallb (fun ph => FIPS.is_frac_root 2 (fst ph) (snd ph))
          (combine (FIPS.primes 8) FIPS.H0) = true
  /\ length FIPS.H0 = 8%nat.
Proof. vm_compute. split; reflexivity. Qed.

Lemma K_tables_agree : SHA256.K = FIPS.K.
Proof. reflexivity. Qed.

(** The reference engine agrees with the definition on messages of
    other lengths too, across the padding boundaries. *)
Example Hash_other_lengths :
  map (fun n => SHA256.Hash blank (replicate n x61)) [0; 1; 55; 56; 63; 64; 65; 120]%nat
  = map (fun n => FIPS.sha256 (replicate n x61)) [0; 1; 55; 56; 63; 64; 65; 120]%nat.
Proof. vm_compute. reflexivity. Qed.

End Validation.

(* ===================================================================== *)
(** ** Words and bytes: arithmetic facts *)
(* ===================================================================== *)

Section WordFacts.

Lemma byte_val_range (b : byte) : 0 <= byte_val b < 256.
Proof.
  unfold byte_val. pose proof (Byte.to_N_bounded b). lia.
Qed.

Lemma wrap32_word (z : Z) : FIPS.word (wrap32 z).
Proof. unfold FIPS.word, wrap32. apply Z.mod_pos_bound. lia. Qed.

Lemma wrap32_small (z : Z) : FIPS.word z -> wrap32 z = z.
Proof. unfold FIPS.word, wrap32. intros. apply Z.mod_small. lia. Qed.

Lemma wrap32_land (z : Z) : wrap32 z = Z.land z (Z.ones 32).
Proof. unfold wrap32. rewrite Z.land_ones by lia. reflexivity. Qed.

Lemma wrap32_lor (x y : Z) : wrap32 (Z.lor x y) = Z.lor (wrap32 x) (wrap32 y).
Proof. rewrite !wrap32_land. apply Z.land_lor_distr_l. Qed.

Lemma wrap32_to_int (z : Z) : wrap32 (to_int z) = wrap32 z.
Proof. unfold wrap32, to_int. Z.div_mod_to_equations. lia. Qed.

(** A sum of two [uint32_t] additions is one addition modulo 2^32. *)
Lemma add32_add32_l (x y z : Z) : add32 (add32 x y) z = (x + y + z) mod 2 ^ 32.
Proof. unfold add32, wrap32. apply Z.add_mod_idemp_l. lia. Qed.

Lemma add32_sum4 (a b c d : Z) :
  add32 (add32 (add32 a b) c) d = (a + b + c + d) mod 2 ^ 32.
Proof. unfold add32, wrap32. Z.div_mod_to_equations. lia. Qed.

Lemma add32_sum5 (a b c d e : Z) :
  add32 (add32 (add32 (add32 a b) c) d) e = (a + b + c + d + e) mod 2 ^ 32.
Proof. unfold add32, wrap32. Z.div_mod_to_equations. lia. Qed.

(** Bits that do not overlap: or is addition. *)
Lemma lor_hi_lo (k hi lo : Z) :
  0 <= k -> 0 <= lo < 2 ^ k -> Z.lor (hi * 2 ^ k) lo = hi * 2 ^ k + lo.
Proof.
  intros Hk Hlo. symmetry. apply Z.add_nocarry_lor.
  apply Z.bits_inj'. intros n Hn.
  rewrite Z.land_spec, Z.bits_0.
  destruct (Z.lt_ge_cases n k) as [Hlt | Hge].
  - rewrite Z.mul_pow2_bits_low by lia. reflexivity.
  - rewrite <- (Z.mod_small lo (2 ^ k)) by lia.
    rewrite Z.mod_pow2_bits_high by lia. apply andb_false_r.
Qed.

(** The macro [ROR] is the rotation. *)
Lemma ROR_ROTR (x n : Z) :
  FIPS.word x -> 0 < n < 32 -> SHA256.ROR x n = FIPS.ROTR x n.
Proof.
  unfold FIPS.word, SHA256.ROR, FIPS.ROTR, wrap32. intros Hx Hn.
  rewrite Z.shiftr_div_pow2, Z.shiftl_mul_pow2 by lia.
  replace (2 ^ 32) with (2 ^ n * 2 ^ (32 - n)) at 1
    by (rewrite <- Z.pow_add_r by lia; f_equal; lia).
  rewrite Z.mul_mod_distr_r by lia.
  rewrite Z.lor_comm, lor_hi_lo; [lia | lia |].
  split; [apply Z.div_pos; lia |].
  apply Z.div_lt_upper_bound; [lia |].
  rewrite <- Z.pow_add_r by lia. replace (n + (32 - n)) with 32 by lia. lia.
Qed.

Lemma ROTR_word (x n : Z) : FIPS.word x -> 0 < n < 32 -> FIPS.word (FIPS.ROTR x n).
Proof.
  unfold FIPS.word, FIPS.ROTR. intros Hx Hn.
  assert (H2n : 0 < 2 ^ n) by lia.
  assert (Hp : 2 ^ 32 = 2 ^ n * 2 ^ (32 - n))
    by (rewrite <- Z.pow_add_r by lia; f_equal; lia).
  assert (H2m : 0 < 2 ^ (32 - n)) by lia.
  pose proof (Z.mod_pos_bound x (2 ^ n) H2n) as Hm.
  assert (Hd : 0 <= x / 2 ^ n < 2 ^ (32 - n)).
  { split; [apply Z.div_pos; lia |]. apply Z.div_lt_upper_bound; lia. }
  nia.
Qed.

Lemma lxor_word (x y : Z) : FIPS.word x -> FIPS.word y -> FIPS.word (Z.lxor x y).
Proof.
  unfold FIPS.word. intros Hx Hy.
  assert (H0 : 0 <= Z.lxor x y) by (apply Z.lxor_nonneg; lia).
  split; [exact H0 |].
  destruct (Z.eq_dec (Z.lxor x y) 0) as [-> | Hne]; [lia |].
  apply Z.log2_lt_pow2; [lia |].
  eapply Z.le_lt_trans; [apply Z.log2_lxor; lia |].
  apply Z.max_lub_lt.
  - destruct (Z.eq_dec x 0) as [-> | ?]; [simpl; lia | apply Z.log2_lt_pow2; lia].
  - destruct (Z.eq_dec y 0) as [-> | ?]; [simpl; lia | apply Z.log2_lt_pow2; lia].
Qed.

Lemma SHR_word (x n : Z) : FIPS.word x -> 0 <= n -> FIPS.word (FIPS.SHR x n).
Proof.
  unfold FIPS.word, FIPS.SHR. intros Hx Hn.
  assert (0 < 2 ^ n) by lia.
  split; [apply Z.div_pos; lia |].
  apply Z.div_lt_upper_bound; nia.
Qed.

Lemma CH_Ch (x y z : Z) : FIPS.word x -> SHA256.CH x y z = FIPS.Ch x y z.
Proof.
  unfold FIPS.word, SHA256.CH, FIPS.Ch, FIPS.neg, wrap32, Z.lnot. intros Hx.
  do 2 f_equal. unfold Z.pred. Z.div_mod_to_equations. lia.
Qed.

Lemma MAJ_Maj (x y z : Z) : SHA256.MAJ x y z = FIPS.Maj x y z.
Proof. unfold SHA256.MAJ, FIPS.Maj. apply Z.lxor_assoc. Qed.

Lemma EP0_Sigma0 (x : Z) : FIPS.word x -> SHA256.EP0 x = FIPS.Sigma0 x.
Proof.
  intros Hx. unfold SHA256.EP0, FIPS.Sigma0.
  rewrite !ROR_ROTR by (auto; lia). apply Z.lxor_assoc.
Qed.

Lemma EP1_Sigma1 (x : Z) : FIPS.word x -> SHA256.EP1 x = FIPS.Sigma1 x.
Proof.
  intros Hx. unfold SHA256.EP1, FIPS.Sigma1.
  rewrite !ROR_ROTR by (auto; lia). apply Z.lxor_assoc.
Qed.

Lemma SIG0_sigma0 (x : Z) : FIPS.word x -> SHA256.SIG0 x = FIPS.sigma0 x.
Proof.
  intros Hx. unfold SHA256.SIG0, FIPS.sigma0, FIPS.SHR.
  rewrite !ROR_ROTR by (auto; lia). rewrite Z.shiftr_div_pow2 by lia.
  apply Z.lxor_assoc.
Qed.

Lemma SIG1_sigma1 (x : Z) : FIPS.word x -> SHA256.SIG1 x = FIPS.sigma1 x.
Proof.
  intros Hx. unfold SHA256.SIG1, FIPS.sigma1, FIPS.SHR.
  rewrite !ROR_ROTR by (auto; lia). rewrite Z.shiftr_div_pow2 by lia.
  apply Z.lxor_assoc.
Qed.

(** The four promoted, shifted and or-ed bytes are the big-endian word. *)
Lemma load_be_word (b0 b1 b2 b3 : byte) :
  wrap32 (Z.lor (Z.lor (Z.lor (to_int (Z.shiftl (byte_val b0) 24))
                              (Z.shiftl (byte_val b1) 16))
                       (Z.shiftl (byte_val b2) 8))
                (byte_val b3))
  = FIPS.be_word b0 b1 b2 b3.
Proof.
  pose proof (byte_val_range b0). pose proof (byte_val_range b1).
  pose proof (byte_val_range b2). pose proof (byte_val_range b3).
  rewrite !wrap32_lor, wrap32_to_int, !Z.shiftl_mul_pow2 by lia.
  rewrite !wrap32_small by (unfold FIPS.word; lia).
  unfold FIPS.be_word.
  rewrite <- !Z.lor_assoc.
  rewrite (lor_hi_lo 8) by lia.
  rewrite (lor_hi_lo 16) by lia.
  rewrite (lor_hi_lo 24) by lia.
  lia.
Qed.

Lemma be_word_word (b0 b1 b2 b3 : byte) : FIPS.word (FIPS.be_word b0 b1 b2 b3).
Proof.
  pose proof (byte_val_range b0). pose proof (byte_val_range b1).
  pose proof (byte_val_range b2). pose proof (byte_val_range b3).
  unfold FIPS.word, FIPS.be_word. lia.
Qed.

End WordFacts.

(* ===================================================================== *)
(** ** Loops and arrays *)
(* ===================================================================== *)

Section LoopFacts.

Context {S : Type}.

Lemma for_loop_0 (lo : nat) (body : nat -> S -> S) (s : S) :
  for_loop lo 0 body s = s.
Proof. reflexivity. Qed.

(** The last turn of a loop, peeled off. *)
Lemma for_loop_S (lo n : nat) (body : nat -> S -> S) (s : S) :
  for_loop lo (Datatypes.S n) body s = body (lo + n)%nat (for_loop lo n body s).
Proof.
  unfold for_loop. rewrite seq_S, fold_left_app. reflexivity.
Qed.

End LoopFacts.

(** The loop over full blocks in [Update] always leaves through its
    condition: the fuel it is given is never used up. *)
Lemma full_blocks_exits (fuel : nat) (o : SHA256.t) (data : list byte) (i len : Z) :
  len < i + 64 * Z.of_nat fuel + 64 ->
  len < snd (SHA256.full_blocks fuel o data i len) + 64.
Proof.
  revert o i. induction fuel as [| fuel IH]; intros o i Hlen; simpl.
  - lia.
  - destruct (Z.leb_spec (i + 64) len) as [Hle | Hgt].
    + apply IH. lia.
    + simpl. lia.
Qed.

Lemma Update_loop_exits (o : SHA256.t) (data : list byte) (i : Z) :
  0 <= i ->
  Z.of_nat (length data)
  < snd (SHA256.full_blocks (length data) o data i (Z.of_nat (length data))) + 64.
Proof. intros Hi. apply full_blocks_exits. lia. Qed.

Lemma rw_insert_eq (m : list Z) (i : nat) (v : Z) :
  (i < length m)%nat -> rw (<[i := v]> m) i = v.
Proof.
  intros Hi. unfold rw. rewrite nth_lookup, list_lookup_insert_eq by exact Hi.
  reflexivity.
Qed.

Lemma rw_insert_ne (m : list Z) (i k : nat) (v : Z) :
  i <> k -> rw (<[i := v]> m) k = rw m k.
Proof.
  intros Hne. unfold rw. rewrite !nth_lookup, list_lookup_insert_ne by exact Hne.
  reflexivity.
Qed.

Lemma rw_ext (a b : list Z) :
  length a = length b ->
  (forall k, (k < length a)%nat -> rw a k = rw b k) -> a = b.
Proof. intros Hlen Hval. apply (nth_ext _ _ 0 0); assumption. Qed.

(* ===================================================================== *)
(** ** The message schedule of [Transform] *)
(* ===================================================================== *)

Section Schedule.

Variable block : list byte.

Lemma W_upto_length (t : nat) : length (FIPS.W_upto block t) = t.
Proof. induction t as [| t IH]; simpl; [reflexivity | now rewrite IH]. Qed.

(** Element [j] of the latest-first list is [W[t-1-j]]. *)
Lemma W_upto_nth (t j : nat) :
  (j < t)%nat -> nth j (FIPS.W_upto block t) 0 = FIPS.W block (t - 1 - j).
Proof.
  revert j. induction t as [| t IH]; intros j Hj; [lia |].
  destruct j as [| j].
  - replace (Datatypes.S t - 1 - 0)%nat with t by lia. reflexivity.
  - change (nth (Datatypes.S j) (FIPS.W_upto block (Datatypes.S t)) 0)
      with (nth j (FIPS.W_upto block t) 0).
    rewrite IH by lia. f_equal. lia.
Qed.

Lemma W_low (t : nat) : (t < 16)%nat -> FIPS.W block t = FIPS.M block t.
Proof.
  intros Ht. unfold FIPS.W. simpl.
  destruct (Nat.ltb_spec t 16); [reflexivity | lia].
Qed.

Lemma W_high (t : nat) :
  (16 <= t)%nat ->
  FIPS.W block t =
    (FIPS.sigma1 (FIPS.W block (t - 2)) + FIPS.W block (t - 7)
     + FIPS.sigma0 (FIPS.W block (t - 15)) + FIPS.W block (t - 16)) mod 2 ^ 32.
Proof.
  intros Ht. unfold FIPS.W at 1. simpl.
  destruct (Nat.ltb_spec t 16); [lia |].
  rewrite !W_upto_nth by lia.
  replace (t - 1 - 1)%nat with (t - 2)%nat by lia.
  replace (t - 1 - 6)%nat with (t - 7)%nat by lia.
  replace (t - 1 - 14)%nat with (t - 15)%nat by lia.
  replace (t - 1 - 15)%nat with (t - 16)%nat by lia.
  reflexivity.
Qed.

Lemma W_word (t : nat) : FIPS.word (FIPS.W block t).
Proof.
  destruct (Nat.lt_ge_cases t 16) as [Hlt | Hge].
  - rewrite W_low by exact Hlt. apply be_word_word.
  - rewrite W_high by exact Hge. apply wrap32_word.
Qed.


Lemma load_word_value (i : nat) (m : list Z) :
  (i < length m)%nat -> rw (SHA256.load_word block i m) i = FIPS.M block i.
Proof.
  intros Hi. unfold SHA256.load_word. rewrite rw_insert_eq by exact Hi.
  unfold rd, FIPS.M. apply load_be_word.
Qed.

Lemma load_loop_filled (m0 : list Z) (t : nat) :
  length m0 = 64%nat -> (t <= 16)%nat ->
  filled block t (for_loop 0 t (SHA256.load_word block) m0).
Proof.
  intros Hlen. induction t as [| t IH]; intros Ht.
  - split; [exact Hlen | intros k Hk; lia].
  - destruct IH as [IHlen IHval]; [lia |].
    rewrite for_loop_S. simpl.
    split.
    + unfold SHA256.load_word. rewrite length_insert. exact IHlen.
    + intros k Hk. destruct (Nat.eq_dec k t) as [-> | Hne].
      * rewrite load_word_value by lia. symmetry. apply W_low. lia.
      * unfold SHA256.load_word. rewrite rw_insert_ne by lia.
        apply IHval. lia.
Qed.

Lemma extend_word_value (i : nat) (m : list Z) :
  (16 <= i < 64)%nat -> filled block i m ->
  rw (SHA256.extend_word i m) i = FIPS.W block i.
Proof.
  intros Hi [Hlen Hval]. unfold SHA256.extend_word.
  rewrite rw_insert_eq by lia.
  rewrite !Hval by lia.
  rewrite SIG1_sigma1, SIG0_sigma0 by apply W_word.
  rewrite (W_high i) by lia.
  apply add32_sum4.
Qed.

Lemma extend_loop_filled (m : list Z) (n : nat) :
  filled block 16 m -> (n <= 48)%nat ->
  filled block (16 + n) (for_loop 16 n SHA256.extend_word m).
Proof.
  intros Hm. induction n as [| n IH]; intros Hn.
  - rewrite Nat.add_0_r. exact Hm.
  - assert (IH' : filled block (16 + n) (for_loop 16 n SHA256.extend_word m))
      by (apply IH; lia).
    rewrite for_loop_S.
    split.
    + unfold SHA256.extend_word. rewrite length_insert. apply IH'.
    + intros k Hk. destruct (Nat.eq_dec k (16 + n)%nat) as [-> | Hne].
      * apply extend_word_value; [lia | exact IH'].
      * unfold SHA256.extend_word. rewrite rw_insert_ne by lia.
        apply IH'. lia.
Qed.

(** After both loops every entry is the schedule word, whatever the
    array held before. *)
Lemma schedule_from_filled (m0 : list Z) :
  length m0 = 64%nat -> filled block 64 (SHA256.schedule_from m0 block).
Proof.
  intros Hlen. unfold SHA256.schedule_from.
  change 64%nat with (16 + 48)%nat at 1.
  apply extend_loop_filled.
  - apply load_loop_filled; [exact Hlen | apply le_n].
  - apply le_n.
Qed.

Lemma schedule_filled : filled block 64 (SHA256.schedule block).
Proof. apply schedule_from_filled. reflexivity. Qed.

(** The contents of the uninitialised local array do not matter. *)
Lemma schedule_from_any (m0 : list Z) :
  length m0 = 64%nat -> SHA256.schedule_from m0 block = SHA256.schedule block.
Proof.
  intros Hlen.
  destruct (schedule_from_filled m0 Hlen) as [L1 V1].
  destruct schedule_filled as [L2 V2].
  apply rw_ext.
  - rewrite L1, L2. reflexivity.
  - intros k Hk. rewrite L1 in Hk. rewrite V1, V2 by exact Hk. reflexivity.
Qed.

End Schedule.

(* ===================================================================== *)
(** ** The main loop of [Transform] *)
(* ===================================================================== *)

Section Compression.

Variable block : list byte.


Lemma step_words8 (Kt Wt : Z) (r : FIPS.regs) :
  words8 r -> words8 (FIPS.step Kt Wt r).
Proof.
  destruct r as [[[[[[[a b] c] d] e] f] g] h].
  intros (Ha & Hb & Hc & Hd & He & Hf & Hg & Hh).
  unfold FIPS.step, words8.
  repeat split; try apply wrap32_word; try apply Z.mod_pos_bound; try lia;
    first [apply Ha | apply Hb | apply Hc | apply Hd | apply He | apply Hf | apply Hg].
Qed.

Lemma rounds_words8 (init : FIPS.regs) (t : nat) :
  words8 init -> words8 (FIPS.rounds block init t).
Proof.
  intros Hi. induction t as [| t IH]; simpl; [exact Hi | now apply step_words8].
Qed.

(** One turn of the loop is one round of the document. *)
Lemma round_step (m : list Z) (t : nat) (r : FIPS.regs) :
  words8 r -> rw m t = FIPS.W block t ->
  SHA256.round m t (vars_of r) = vars_of (FIPS.step (nth t FIPS.K 0) (FIPS.W block t) r).
Proof.
  destruct r as [[[[[[[a b] c] d] e] f] g] h].
  intros (Ha & Hb & Hc & Hd & He & Hf & Hg & Hh) Hm.
  unfold SHA256.round, FIPS.step, vars_of.
  rewrite Hm, K_tables_agree.
  rewrite EP1_Sigma1, EP0_Sigma0, CH_Ch, MAJ_Maj by assumption.
  rewrite !(add32_sum5 h).
  unfold rw, add32, wrap32. reflexivity.
Qed.

Lemma loop_rounds (m : list Z) (init : FIPS.regs) (t : nat) :
  filled block 64 m -> words8 init -> (t <= 64)%nat ->
  for_loop 0 t (SHA256.round m) (vars_of init) = vars_of (FIPS.rounds block init t).
Proof.
  intros [_ Hm] Hi. induction t as [| t IH]; intros Ht; [reflexivity |].
  rewrite for_loop_S, IH by lia. simpl.
  apply round_step; [apply rounds_words8; exact Hi | apply Hm; lia].
Qed.

(** [Transform] replaces the state by the compressed state, logs the
    block, and leaves the count and the buffer alone. *)
Lemma Transform_compress (o : SHA256.t) :
  length (SHA256.state o) = 8%nat -> Forall FIPS.word (SHA256.state o) ->
  SHA256.Transform o block =
    SHA256.Obj (FIPS.compress (SHA256.state o) block)
               (SHA256.count o) (SHA256.buffer o)
               (SHA256.transforms o ++ [take 64 block]).
Proof.
  destruct o as [st cnt buf log]. simpl. intros Hlen Hw.
  destruct st as [| a [| b [| c [| d [| e [| f [| g [| h [| ? ?]]]]]]]]];
    try discriminate Hlen.
  assert (Hi : words8 (a, b, c, d, e, f, g, h)).
  { repeat (apply Forall_cons_1 in Hw; destruct Hw as [? Hw]).
    unfold words8. tauto. }
  unfold SHA256.Transform, FIPS.compress. simpl SHA256.state.
  change (SHA256.Vars (rw [a; b; c; d; e; f; g; h] 0) (rw [a; b; c; d; e; f; g; h] 1)
            (rw [a; b; c; d; e; f; g; h] 2) (rw [a; b; c; d; e; f; g; h] 3)
            (rw [a; b; c; d; e; f; g; h] 4) (rw [a; b; c; d; e; f; g; h] 5)
            (rw [a; b; c; d; e; f; g; h] 6) (rw [a; b; c; d; e; f; g; h] 7))
    with (vars_of (a, b, c, d, e, f, g, h)).
  rewrite (loop_rounds _ _ 64 (schedule_filled block) Hi) by lia.
  change (FIPS.regs_of [a; b; c; d; e; f; g; h]) with (a, b, c, d, e, f, g, h).
  destruct (FIPS.rounds block (a, b, c, d, e, f, g, h) 64)
    as [[[[[[[a' b'] c'] d'] e'] f'] g'] h'].
  reflexivity.
Qed.

End Compression.

(* ===================================================================== *)
(** ** [Update] and [Final] on a 33-byte message *)
(* ===================================================================== *)

Section Padding33.

(** A list of known length, opened into its elements. *)
Ltac open_list l H :=
  repeat (destruct l as [| ? l]; [discriminate H |]);
  destruct l; [| discriminate H]; clear H.

(** [Update] on a fresh object only copies the 33 bytes into the buffer. *)
Lemma Update_33 (st : list Z) (buf : list byte) (log : list (list byte))
    (data : list byte) :
  length data = 33%nat ->
  SHA256.Update (SHA256.Obj st 0 buf log) data
  = SHA256.Obj st 33 (memcpy buf 0 data 33) log.
Proof.
  intros Hlen. unfold SHA256.Update. simpl. rewrite Hlen. reflexivity.
Qed.


Lemma Final_33 (st : list Z) (buf : list byte) (log : list (list byte)) :
  SHA256.Final (SHA256.Obj st 33 buf log)
  = let blk := closing_buffer buf in
    let o := SHA256.Transform (SHA256.Obj st 33 blk log) blk in
    (o, concat (map (SHA256.put_word (SHA256.state o)) (seq 0 8))).
Proof.
  unfold SHA256.Final, closing_buffer. simpl SHA256.count. simpl SHA256.buffer.
  change (33 mod 64) with 33. change (33 + 1 >? 56) with false. cbv iota.
  change (Z.to_nat 33) with 33%nat. change (Z.to_nat (33 + 1)) with 34%nat.
  change (Z.to_nat (56 - (33 + 1))) with 22%nat.
  change (wrap64 (33 * 8)) with 264.
  destruct (for_down 8 SHA256.put_length _) as [b c]. reflexivity.
Qed.

(** Copying, marking, zero filling and storing the length give exactly
    the padded block, whatever the buffer held. *)
Lemma closing_buffer_33 (buf data : list byte) :
  length buf = 64%nat -> length data = 33%nat ->
  closing_buffer (memcpy buf 0 data 33) = FIPS.pad33 data.
Proof.
  intros Hb Hd. open_list buf Hb. open_list data Hd. reflexivity.
Qed.

(** The general padding rule, at length 33, is the fixed layout. *)
Lemma pad_33 (data : list byte) :
  length data = 33%nat -> FIPS.pad data = FIPS.pad33 data.
Proof.
  intros Hd. unfold FIPS.pad, FIPS.pad33. rewrite Hd. reflexivity.
Qed.

Lemma pad33_length (data : list byte) :
  length data = 33%nat -> length (FIPS.pad33 data) = 64%nat.
Proof.
  intros Hd. unfold FIPS.pad33. rewrite !length_app, Hd. reflexivity.
Qed.

End Padding33.

(* ===================================================================== *)
(** ** The reference engine on 33-byte records *)
(* ===================================================================== *)

Section Reference.

Lemma put_word_be_bytes (st : list Z) (i : nat) :
  SHA256.put_word st i = FIPS.be_bytes 4 (rw st i).
Proof.
  unfold SHA256.put_word, FIPS.be_bytes. simpl.
  change 255 with (Z.ones 8).
  rewrite !Z.land_ones, !Z.shiftr_div_pow2 by lia.
  change (rw st i / 2 ^ 0) with (rw st i / 1). rewrite Z.div_1_r.
  reflexivity.
Qed.

Lemma digest_serialize (st : list Z) :
  length st = 8%nat ->
  concat (map (SHA256.put_word st) (seq 0 8)) = FIPS.serialize st.
Proof.
  intros Hlen.
  destruct st as [| a [| b [| c [| d [| e [| f [| g [| h [| ? ?]]]]]]]]];
    try discriminate Hlen.
  unfold FIPS.serialize. simpl seq. simpl map.
  rewrite !put_word_be_bytes. reflexivity.
Qed.

Lemma compress_length (H : list Z) (block : list byte) :
  length H = 8%nat -> length (FIPS.compress H block) = 8%nat.
Proof.
  intros Hlen. unfold FIPS.compress.
  destruct (FIPS.rounds block (FIPS.regs_of H) 64) as [[[[[[[a b] c] d] e] f] g] h].
  rewrite length_map, length_combine, length_firstn, Hlen. reflexivity.
Qed.

Lemma H0_words : Forall FIPS.word FIPS.H0.
Proof. unfold FIPS.H0, FIPS.word. repeat constructor; lia. Qed.

(** The constants set by [Init] are the initial hash value. *)
Lemma Init_H0 (o : SHA256.t) :
  SHA256.Init o = SHA256.Obj FIPS.H0 0 (SHA256.buffer o) (SHA256.transforms o).
Proof. reflexivity. Qed.

(** [Hash] on 33 bytes: one [Transform], of the padded block, from the
    initial constants; the digest is the serialized state. *)
Lemma Hash_obj_33 (sha : SHA256.t) (data : list byte) :
  length (SHA256.buffer sha) = 64%nat -> length data = 33%nat ->
  SHA256.Hash_obj sha data =
    (SHA256.Obj (FIPS.compress FIPS.H0 (FIPS.pad33 data)) 33
                (FIPS.pad33 data) [FIPS.pad33 data],
     FIPS.lane data).
Proof.
  intros Hbuf Hdata. unfold SHA256.Hash_obj, FIPS.lane. rewrite Init_H0.
  cbn [SHA256.buffer SHA256.transforms SHA256.state SHA256.count].
  rewrite (Update_33 _ _ _ _ Hdata), Final_33.
  rewrite (closing_buffer_33 _ _ Hbuf Hdata). cbv zeta.
  rewrite Transform_compress; [| reflexivity | exact H0_words].
  cbn [SHA256.buffer SHA256.transforms SHA256.state SHA256.count app].
  rewrite digest_serialize by (apply compress_length; reflexivity).
  rewrite take_ge by (rewrite pad33_length by exact Hdata; lia).
  reflexivity.
Qed.

Lemma sha256_33 (data : list byte) :
  length data = 33%nat -> FIPS.sha256 data = FIPS.lane data.
Proof.
  intros Hdata. unfold FIPS.sha256, FIPS.lane.
  rewrite (pad_33 _ Hdata), (pad33_length _ Hdata).
  change (64 / 64)%nat with 1%nat. simpl FIPS.blocks. simpl fold_left.
  rewrite take_ge by (rewrite pad33_length by exact Hdata; lia).
  reflexivity.
Qed.

(** The array after [t] writes holds the first [t] schedule words. *)
Lemma schedule_steps_filled (block : list byte) (m0 : list Z) (t : nat) :
  length m0 = 64%nat -> (t <= 64)%nat ->
  filled block t (SHA256.schedule_steps m0 block t).
Proof.
  intros Hlen Ht. unfold SHA256.schedule_steps.
  destruct (Nat.le_gt_cases t 16) as [Hle | Hgt].
  - replace (t - 16)%nat with 0%nat by lia.
    rewrite Nat.min_l by exact Hle. rewrite for_loop_0.
    apply load_loop_filled; assumption.
  - rewrite Nat.min_r by lia.
    replace t with (16 + (t - 16))%nat at 1 by lia.
    apply extend_loop_filled; [| lia].
    apply load_loop_filled; [exact Hlen | apply le_n].
Qed.

End Reference.

(* ===================================================================== *)
(** ** Properties of the reference engine *)
(* ===================================================================== *)

(** C1. For every record of exactly 33 bytes, the digest computed by
    [SHA256::Hash] is the FIPS 180-4 SHA-256 digest of those bytes, and so
    is the digest of the lane program (padding to one block, one
    compression from the initial constants, serialization); for the record
    0279be66...f81798 it is 0f715baf...9b0554.  This holds whatever the
    storage of the hashing object held before its constructor ran. *)
Theorem hash_of_33_bytes_is_sha256 (sha : SHA256.t) :
  length (SHA256.buffer sha) = 64%nat ->
  (forall data : list byte,
      length data = 33%nat ->
      SHA256.Hash sha data = FIPS.sha256 data /\ FIPS.lane data = FIPS.sha256 data)
  /\ SHA256.Hash sha test_pubkey = test_digest
  /\ FIPS.lane test_pubkey = test_digest
  /\ FIPS.sha256 test_pubkey = test_digest.
Proof.
  intros Hbuf.
  assert (Hgen : forall data : list byte, length data = 33%nat ->
            SHA256.Hash sha data = FIPS.lane data).
  { intros data Hdata. unfold SHA256.Hash.
    rewrite (Hash_obj_33 _ _ Hbuf Hdata). reflexivity. }
  assert (Hvec : FIPS.lane test_pubkey = test_digest) by (vm_compute; reflexivity).
  split; [| split; [| split]].
  - intros data Hdata. rewrite (sha256_33 _ Hdata). split; [now apply Hgen | reflexivity].
  - rewrite Hgen by reflexivity. exact Hvec.
  - exact Hvec.
  - rewrite sha256_33 by reflexivity. exact Hvec.
Qed.

Lemma hash_of_33_bytes_is_sha256_witness :
  SHA256.Hash blank test_pubkey = FIPS.sha256 test_pubkey
  /\ SHA256.Hash blank test_pubkey = test_digest.
Proof.
  destruct (hash_of_33_bytes_is_sha256 blank eq_refl) as [Hall [Hvec _]].
  split; [exact (proj1 (Hall test_pubkey eq_refl)) | exact Hvec].
Defined.

(** C3. For every 33-byte message, [Hash] runs the compression function
    exactly once, on one 64-byte block whose bytes 0..32 are the message,
    byte 33 is 0x80, bytes 34..55 are zero and bytes 56..63 are the
    big-endian 64-bit encoding of 264, that is 00 00 00 00 00 00 01 08. *)
Theorem padded_block_of_33_bytes (sha : SHA256.t) (data : list byte) :
  length (SHA256.buffer sha) = 64%nat ->
  length data = 33%nat ->
  exists blk : list byte,
    SHA256.transforms (fst (SHA256.Hash_obj sha data)) = [blk]
    /\ length blk = 64%nat
    /\ take 33 blk = data
    /\ blk !! 33%nat = Some x80
    /\ (forall i, (34 <= i <= 55)%nat -> blk !! i = Some x00)
    /\ drop 56 blk = FIPS.be_bytes 8 264
    /\ drop 56 blk = [x00; x00; x00; x00; x00; x00; x01; x08].
Proof.
  intros Hbuf Hdata. exists (FIPS.pad33 data).
  rewrite (Hash_obj_33 _ _ Hbuf Hdata). unfold FIPS.pad33.
  split; [reflexivity |].
  split; [rewrite !length_app, Hdata; reflexivity |].
  split; [rewrite take_app_length' by (symmetry; exact Hdata); reflexivity |].
  split; [rewrite lookup_app_r, Hdata by lia; reflexivity |].
  split.
  - intros i Hi. rewrite lookup_app_r by lia. rewrite Hdata.
    destruct (i - 33)%nat as [| j] eqn:Ej; [lia |].
    change (([x80] ++ replicate 22 x00 ++ [x00; x00; x00; x00; x00; x00; x01; x08])
              !! Datatypes.S j)
      with ((replicate 22 x00 ++ [x00; x00; x00; x00; x00; x00; x01; x08]) !! j).
    rewrite lookup_app_l by (rewrite length_replicate; lia).
    apply lookup_replicate_2. lia.
  - rewrite drop_app_ge by lia. rewrite Hdata. split; reflexivity.
Qed.

Lemma padded_block_of_33_bytes_witness :
  exists blk : list byte,
    SHA256.transforms (fst (SHA256.Hash_obj blank test_pubkey)) = [blk]
    /\ length blk = 64%nat
    /\ take 33 blk = test_pubkey
    /\ blk !! 33%nat = Some x80
    /\ (forall i, (34 <= i <= 55)%nat -> blk !! i = Some x00)
    /\ drop 56 blk = FIPS.be_bytes 8 264
    /\ drop 56 blk = [x00; x00; x00; x00; x00; x00; x01; x08].
Proof.
  apply (padded_block_of_33_bytes blank test_pubkey); reflexivity.
Defined.

(** C4. For every 64-byte block, the message schedule built by
    [Transform] has the sixteen big-endian words of the block in
    W[0..15], and for every i in 16..63
    W[i] = sigma1(W[i-2]) + W[i-7] + sigma0(W[i-15]) + W[i-16] mod 2^32;
    an entry keeps, through all later steps, the value first written to it,
    so the operands read are the originally computed ones; nothing depends
    on what the array held before.  For the padded block of the test
    vector, W[16] = 0x1085d5f6 and W[17] = 0x38699114. *)
Theorem message_schedule (block : list byte) (m0 : list Z) :
  length block = 64%nat ->
  length m0 = 64%nat ->
  let m := SHA256.schedule_from m0 block in
  (forall i, (i < 16)%nat ->
     rw m i = FIPS.be_word (nth (4 * i) block x00) (nth (4 * i + 1) block x00)
                           (nth (4 * i + 2) block x00) (nth (4 * i + 3) block x00))
  /\ (forall i, (16 <= i < 64)%nat ->
        rw m i = (FIPS.sigma1 (rw m (i - 2)) + rw m (i - 7)
                  + FIPS.sigma0 (rw m (i - 15)) + rw m (i - 16)) mod 2 ^ 32)
  /\ (forall t k, (k < t <= 64)%nat -> rw (SHA256.schedule_steps m0 block t) k = rw m k)
  /\ m = SHA256.schedule block
  /\ rw (SHA256.schedule (FIPS.pad33 test_pubkey)) 16 = 0x1085d5f6
  /\ rw (SHA256.schedule (FIPS.pad33 test_pubkey)) 17 = 0x38699114.
Proof.
  intros _ Hm0 m.
  destruct (schedule_from_filled block m0 Hm0) as [Hlen Hval]. fold m in Hlen, Hval.
  split; [| split; [| split; [| split; [| split]]]].
  - intros i Hi. rewrite Hval by lia. rewrite W_low by exact Hi. reflexivity.
  - intros i Hi. rewrite !Hval by lia. apply W_high. lia.
  - intros t k Hk.
    destruct (schedule_steps_filled block m0 t Hm0) as [_ Hst]; [lia |].
    rewrite Hst, Hval by lia. reflexivity.
  - apply schedule_from_any. exact Hm0.
  - vm_compute. reflexivity.
  - vm_compute. reflexivity.
Qed.

Lemma message_schedule_witness :
  let m := SHA256.schedule_from (replicate 64 0xdeadbeef) (FIPS.pad33 test_pubkey) in
  rw m 0 = 0x0279be66 /\ rw m 16 = 0x1085d5f6 /\ rw m 17 = 0x38699114
  /\ rw m 16 = (FIPS.sigma1 (rw m 14) + rw m 9 + FIPS.sigma0 (rw m 1) + rw m 0) mod 2 ^ 32.
Proof.
  destruct (message_schedule (FIPS.pad33 test_pubkey) (replicate 64 0xdeadbeef)
              eq_refl eq_refl) as (Hlow & Hhigh & _ & Hany & H16 & H17).
  cbv zeta. rewrite Hany at 2 3.
  split; [rewrite (Hlow 0%nat) by lia; vm_compute; reflexivity |].
  split; [exact H16 |]. split; [exact H17 |].
  apply (Hhigh 16%nat). lia.
Defined.

(** C5. For every 64-byte block and every state of eight 32-bit words,
    [Transform] starts a..h from the state, runs exactly 64 rounds, round
    i computing T1 = h + Sigma1(e) + Ch(e,f,g) + K[i] + W[i] and
    T2 = Sigma0(a) + Maj(a,b,c) and shifting h<-g, g<-f, f<-e, e<-d+T1,
    d<-c, c<-b, b<-a, a<-T1+T2, then adds a..h word by word into the
    state, every sum taken modulo 2^32 (this is [FIPS.compress]); the
    count and the buffer of the object are as before, and nothing but the
    state and the block enters the result. *)
Theorem transform_is_compression (o : SHA256.t) (block : list byte) :
  length block = 64%nat ->
  length (SHA256.state o) = 8%nat ->
  Forall FIPS.word (SHA256.state o) ->
  SHA256.Transform o block =
    SHA256.Obj (FIPS.compress (SHA256.state o) block)
               (SHA256.count o) (SHA256.buffer o)
               (SHA256.transforms o ++ [block])
  /\ Forall FIPS.word (FIPS.compress (SHA256.state o) block).
Proof.
  intros Hblock Hlen Hw. split.
  - rewrite Transform_compress by assumption.
    rewrite take_ge by lia. reflexivity.
  - unfold FIPS.compress. apply List.Forall_forall. intros x Hx.
    apply in_map_iff in Hx. destruct Hx as [p [<- _]]. apply wrap32_word.
Qed.

Lemma transform_is_compression_witness :
  SHA256.Transform (SHA256.Init blank) (FIPS.pad33 test_pubkey) =
    SHA256.Obj (FIPS.compress FIPS.H0 (FIPS.pad33 test_pubkey)) 0
               (replicate 64 x00) [FIPS.pad33 test_pubkey].
Proof.
  apply (transform_is_compression (SHA256.Init blank) (FIPS.pad33 test_pubkey)).
  - reflexivity.
  - reflexivity.
  - simpl. unfold FIPS.word. repeat constructor; lia.
Defined.

(* ===================================================================== *)
(** ** The batch dispatcher *)
(* ===================================================================== *)

Section Dispatcher.

(** Two allocations in a row return distinct pointers, neither of them
    live before. *)
Lemma fresh_pointers (m : gmap Z PTX.dbuf) (b : PTX.dbuf) :
  let p1 := fresh (dom m) in
  let p2 := fresh (dom (<[p1 := b]> m)) in
  m !! p1 = None /\ m !! p2 = None /\ p1 <> p2.
Proof.
  intros p1 p2.
  assert (H1 : p1 ∉ dom m) by apply is_fresh.
  assert (H2 : p2 ∉ dom (<[p1 := b]> m)) by apply is_fresh.
  rewrite dom_insert_L in H2.
  split; [apply not_elem_of_dom; exact H1 |].
  split; [apply not_elem_of_dom; set_solver | set_solver].
Qed.

(** Freeing both buffers gives back the allocation table of before,
    whatever was stored under the two pointers meanwhile. *)
Lemma free_both (m m' : gmap Z PTX.dbuf) (p1 p2 : Z) :
  m !! p1 = None -> m !! p2 = None ->
  (forall p, p <> p1 -> p <> p2 -> m' !! p = m !! p) ->
  delete p2 (delete p1 m') = m.
Proof.
  intros H1 H2 Hrest. apply map_eq. intros p.
  destruct (decide (p = p2)) as [-> | Hp2].
  - rewrite lookup_delete_eq. symmetry. exact H2.
  - rewrite lookup_delete_ne by congruence.
    destruct (decide (p = p1)) as [-> | Hp1].
    + rewrite lookup_delete_eq. symmetry. exact H1.
    + rewrite lookup_delete_ne by congruence. apply Hrest; assumption.
Qed.

Variable this : PTX.t.
Variable drv : PTX.driver.
Variables h_input h_output : Z -> byte.
Variable num_keys : Z.
Variable w : PTX.world.

(** What one call returns, what it leaves in the caller's buffer, and
    that it leaves the allocation table as it found it. *)
Lemma hash_batch_returns :
  let '(ok, out, w') := PTX.hash_batch this drv h_input h_output num_keys w in
  ok = PTX.initialized_ this && all_verdicts drv
  /\ out = (if ok then downloaded this drv h_input h_output num_keys else h_output)
  /\ PTX.device w' = PTX.device w.
Proof.
  unfold PTX.hash_batch, all_verdicts.
  destruct (PTX.initialized_ this); [| simpl; auto].
  cbn [negb].
  destruct drv as [ai gi ao go hd la sy dh]. cbn [PTX.alloc_input_ok PTX.input_garbage
    PTX.alloc_output_ok PTX.output_garbage PTX.htod_ok PTX.launch_ok PTX.sync_ok
    PTX.dtoh_ok].
  destruct w as [m errs tr].
  pose proof (fresh_pointers m (PTX.DBuf (PTX.input_size num_keys) gi)) as Hf.
  cbv zeta in Hf. destruct Hf as (Hp1 & Hp2 & Hne).
  unfold PTX.cuMemAlloc at 1. cbn [PTX.logged PTX.device PTX.cerr PTX.trace].
  destruct ai; [| simpl; auto].
  cbn [PTX.succeeded negb].
  unfold PTX.cuMemAlloc at 1. cbn [PTX.logged PTX.device PTX.cerr PTX.trace].
  set (p1 := fresh (dom m)) in *.
  set (p2 := fresh (dom (<[p1 := PTX.DBuf (PTX.input_size num_keys) gi]> m))) in *.
  destruct ao; cbn [PTX.succeeded negb andb].
  2:{ unfold PTX.cuMemFree, PTX.report. cbn [PTX.logged PTX.device PTX.cerr PTX.trace].
      rewrite delete_insert_eq, delete_id by exact Hp1. auto. }
  unfold PTX.cuMemcpyHtoD. cbn [PTX.logged PTX.device PTX.cerr PTX.trace].
  rewrite lookup_insert_ne, lookup_insert_eq by congruence.
  destruct hd; cbn [PTX.succeeded negb andb PTX.bytes PTX.bytesize].
  2:{ unfold PTX.cuMemFree, PTX.report. cbn [PTX.logged PTX.device PTX.cerr PTX.trace].
      repeat split. apply (free_both _ _ _ _ Hp1 Hp2). intros p Hn1 Hn2.
      rewrite !lookup_insert_ne by congruence. reflexivity. }
  unfold PTX.cuLaunchKernel. cbn [PTX.logged PTX.device PTX.cerr PTX.trace].
  rewrite lookup_insert_eq, lookup_insert_ne, lookup_insert_eq by congruence.
  destruct la; cbn [PTX.succeeded negb andb PTX.bytes PTX.bytesize].
  2:{ unfold PTX.cuMemFree, PTX.report. cbn [PTX.logged PTX.device PTX.cerr PTX.trace].
      repeat split. apply (free_both _ _ _ _ Hp1 Hp2). intros p Hn1 Hn2.
      rewrite !lookup_insert_ne by congruence. reflexivity. }
  unfold PTX.cuCtxSynchronize, PTX.verdict. cbn [PTX.logged PTX.device PTX.cerr PTX.trace].
  destruct sy; cbn [PTX.succeeded negb andb].
  2:{ unfold PTX.cuMemFree, PTX.report. cbn [PTX.logged PTX.device PTX.cerr PTX.trace].
      repeat split. apply (free_both _ _ _ _ Hp1 Hp2). intros p Hn1 Hn2.
      rewrite !lookup_insert_ne by congruence. reflexivity. }
  unfold PTX.cuMemcpyDtoH. cbn [PTX.logged PTX.device PTX.cerr PTX.trace].
  rewrite lookup_insert_eq.
  destruct dh; cbn [PTX.succeeded negb andb PTX.bytes PTX.bytesize].
  2:{ unfold PTX.cuMemFree, PTX.report. cbn [PTX.logged PTX.device PTX.cerr PTX.trace].
      repeat split. apply (free_both _ _ _ _ Hp1 Hp2). intros p Hn1 Hn2.
      rewrite !lookup_insert_ne by congruence. reflexivity. }
  unfold PTX.cuMemFree. cbn [PTX.logged PTX.device PTX.cerr PTX.trace].
  split; [reflexivity |]. split; [reflexivity |].
  apply (free_both _ _ _ _ Hp1 Hp2). intros p Hn1 Hn2.
  rewrite !lookup_insert_ne by congruence. reflexivity.
Qed.

(** Runs the driver calls of a path whose verdicts are known. *)
Ltac run_driver Hne :=
  unfold PTX.cuMemAlloc, PTX.cuMemcpyHtoD, PTX.cuLaunchKernel, PTX.cuCtxSynchronize,
    PTX.cuMemcpyDtoH, PTX.cuMemFree, PTX.report, PTX.verdict;
  repeat first
    [ progress cbn [PTX.logged PTX.device PTX.cerr PTX.trace PTX.succeeded negb
                    PTX.bytes PTX.bytesize PTX.alloc_input_ok PTX.input_garbage
                    PTX.alloc_output_ok PTX.output_garbage PTX.htod_ok PTX.launch_ok
                    PTX.sync_ok PTX.dtoh_ok]
    | rewrite lookup_insert_eq
    | rewrite lookup_insert_ne by (clear - Hne; congruence) ].

(** The path on which every driver call succeeds: the calls made, in
    order, and nothing written to [std::cerr]. *)
Lemma hash_batch_success_path :
  PTX.initialized_ this = true -> all_verdicts drv = true ->
  let '(ok, out, w') := PTX.hash_batch this drv h_input h_output num_keys w in
  let d_input := fresh (dom (PTX.device w)) in
  let d_output :=
    fresh (dom (<[d_input := PTX.DBuf (PTX.input_size num_keys) (PTX.input_garbage drv)]>
                  (PTX.device w))) in
  ok = true
  /\ PTX.cerr w' = PTX.cerr w
  /\ PTX.trace w' = PTX.trace w ++
       [ PTX.MemAlloc (PTX.input_size num_keys);
         PTX.MemAlloc (PTX.output_size num_keys);
         PTX.MemcpyHtoD d_input (PTX.input_size num_keys);
         PTX.LaunchKernel (wrap32 (PTX.blocks num_keys)) (wrap32 PTX.threads_per_block)
                          d_input d_output num_keys;
         PTX.CtxSynchronize;
         PTX.MemcpyDtoH d_output (PTX.output_size num_keys);
         PTX.MemFree d_input;
         PTX.MemFree d_output ].
Proof.
  intros Hinit Hall. unfold PTX.hash_batch. rewrite Hinit.
  destruct drv as [ai gi ao go hd la sy dh]. unfold all_verdicts in Hall.
  cbn [PTX.alloc_input_ok PTX.alloc_output_ok PTX.htod_ok PTX.launch_ok PTX.sync_ok
       PTX.dtoh_ok] in Hall.
  destruct ai, ao, hd, la, sy, dh; try discriminate Hall. clear Hall.
  destruct w as [m errs tr].
  pose proof (fresh_pointers m (PTX.DBuf (PTX.input_size num_keys) gi)) as Hf.
  cbv zeta in Hf. destruct Hf as (_ & _ & Hne).
  run_driver Hne.
  split; [reflexivity |]. split; [reflexivity |].
  rewrite <- !app_assoc. reflexivity.
Qed.

(** The path on which the first allocation succeeds and the second is
    refused. *)
Lemma hash_batch_second_allocation_refused :
  PTX.initialized_ this = true ->
  PTX.alloc_input_ok drv = true -> PTX.alloc_output_ok drv = false ->
  let '(ok, out, w') := PTX.hash_batch this drv h_input h_output num_keys w in
  ok = false
  /\ PTX.cerr w' = PTX.cerr w ++ ["Failed to allocate output memory"%string]
  /\ PTX.trace w' = PTX.trace w ++
       [ PTX.MemAlloc (PTX.input_size num_keys);
         PTX.MemAlloc (PTX.output_size num_keys);
         PTX.MemFree (fresh (dom (PTX.device w))) ].
Proof.
  intros Hinit Hai Hao. unfold PTX.hash_batch. rewrite Hinit.
  destruct drv as [ai gi ao go hd la sy dh].
  cbn [PTX.alloc_input_ok PTX.alloc_output_ok] in Hai, Hao. subst ai ao.
  destruct w as [m errs tr].
  assert (Hne : (0 : Z) <> 1) by discriminate.
  run_driver Hne.
  split; [reflexivity |]. split; [reflexivity |].
  rewrite <- !app_assoc. reflexivity.
Qed.

(** The path on which the first allocation is refused: nothing else is
    asked of the driver. *)
Lemma hash_batch_first_allocation_refused :
  PTX.initialized_ this = true -> PTX.alloc_input_ok drv = false ->
  let '(ok, out, w') := PTX.hash_batch this drv h_input h_output num_keys w in
  ok = false
  /\ PTX.cerr w' = PTX.cerr w ++ ["Failed to allocate input memory"%string]
  /\ PTX.trace w' = PTX.trace w ++ [PTX.MemAlloc (PTX.input_size num_keys)].
Proof.
  intros Hinit Hai. unfold PTX.hash_batch. rewrite Hinit.
  destruct drv as [ai gi ao go hd la sy dh].
  cbn [PTX.alloc_input_ok] in Hai. subst ai.
  destruct w as [m errs tr].
  assert (Hne : (0 : Z) <> 1) by discriminate.
  run_driver Hne. auto.
Qed.

End Dispatcher.

(* ===================================================================== *)
(** ** Staging sizes and the launch grid *)
(* ===================================================================== *)

Section Sizes.

Lemma input_size_exact (n : Z) :
  0 <= n <= 130150524 -> PTX.input_size n = n * 33.
Proof. intros Hn. unfold PTX.input_size, wrap32. apply Z.mod_small. lia. Qed.

Lemma input_size_wraps (n : Z) :
  130150524 < n -> PTX.input_size n < n * 33.
Proof.
  intros Hn. unfold PTX.input_size, wrap32.
  pose proof (Z.mod_pos_bound (n * 33) (2 ^ 32)). lia.
Qed.

Lemma output_size_exact (n : Z) :
  0 <= n <= 134217727 -> PTX.output_size n = n * 32.
Proof. intros Hn. unfold PTX.output_size, wrap32. apply Z.mod_small. lia. Qed.

(** Up to 2^32 - 128 records the grid has a thread for every record. *)
Lemma grid_covers (n : Z) :
  0 <= n <= 4294967168 ->
  n <= wrap32 (PTX.blocks n) * wrap32 PTX.threads_per_block.
Proof.
  intros Hn. unfold PTX.blocks, PTX.threads_per_block, wrap32, to_int.
  Z.div_mod_to_equations. lia.
Qed.

End Sizes.

(* ===================================================================== *)
(** ** What a successful call leaves in the output buffer *)
(* ===================================================================== *)

Section Download.

Lemma be_bytes_length (n : nat) (x : Z) : length (FIPS.be_bytes n x) = n.
Proof. unfold FIPS.be_bytes. rewrite length_map, length_rev, length_seq. reflexivity. Qed.

Lemma lane_length (r : list byte) : length (FIPS.lane r) = 32%nat.
Proof.
  unfold FIPS.lane, FIPS.serialize.
  pose proof (compress_length FIPS.H0 (FIPS.pad33 r) eq_refl) as Hlen.
  destruct (FIPS.compress FIPS.H0 (FIPS.pad33 r))
    as [| a [| b [| c [| d [| e [| f [| g [| h [| ? ?]]]]]]]]];
    try discriminate Hlen.
  reflexivity.
Qed.

(** A list is the list of its elements. *)
Lemma list_of_nth (l : list byte) (n : nat) :
  length l = n -> map (fun j => nth j l x00) (seq 0 n) = l.
Proof.
  intros Hn. apply (nth_ext _ _ x00 x00).
  - rewrite length_map, length_seq. symmetry. exact Hn.
  - intros k Hk. rewrite length_map, length_seq in Hk.
    rewrite (nth_indep _ x00 (nth 0 l x00)) by (rewrite length_map, length_seq; exact Hk).
    rewrite (map_nth (fun j => nth j l x00) (seq 0 n) 0%nat k).
    rewrite seq_nth by exact Hk. reflexivity.
Qed.

Variable this : PTX.t.
Variable drv : PTX.driver.
Variables h_input h_output : Z -> byte.
Variable num_keys : Z.
Hypothesis the_kernel : PTX.kernel_ this = PTX.sha256_kernel.
Hypothesis in_range : 0 <= num_keys <= 130150524.

(** With the sizes exact, a lane reads its record as the host gave it. *)
Lemma staged_record (i : Z) :
  0 <= i < num_keys ->
  PTX.record (staged drv h_input num_keys) i = PTX.record h_input i.
Proof.
  intros Hi. unfold PTX.record. apply map_ext_in. intros j Hj.
  apply in_seq in Hj. unfold staged, PTX.copy.
  rewrite input_size_exact by exact in_range.
  destruct (Z.leb_spec 0 (33 * i + Z.of_nat j)); [| lia].
  destruct (Z.ltb_spec (33 * i + Z.of_nat j) (num_keys * 33)); [| lia].
  reflexivity.
Qed.

(** Every byte of the buffer after a successful call: inside the
    [32 * num_keys] bytes of results it is the byte of the digest of the
    record of that slot, outside it is what the buffer held. *)
Lemma downloaded_exact (a : Z) :
  downloaded this drv h_input h_output num_keys a =
    if (0 <=? a) && (a <? 32 * num_keys)
    then nth (Z.to_nat (a mod 32)) (FIPS.lane (PTX.record h_input (a / 32))) x00
    else h_output a.
Proof.
  unfold downloaded, PTX.copy.
  rewrite output_size_exact by lia.
  replace (num_keys * 32) with (32 * num_keys) by lia.
  destruct ((0 <=? a) && (a <? 32 * num_keys)) eqn:Ea; [| reflexivity].
  apply andb_true_iff in Ea. destruct Ea as [E0 E1].
  apply Z.leb_le in E0. apply Z.ltb_lt in E1.
  assert (Hi : 0 <= a / 32 < num_keys) by (Z.div_mod_to_equations; lia).
  unfold computed. rewrite the_kernel. unfold PTX.sha256_kernel.
  pose proof (grid_covers num_keys) as Hg.
  destruct (Z.leb_spec 0 a); [| lia].
  destruct (Z.ltb_spec (a / 32)
              (Z.min num_keys (wrap32 (PTX.blocks num_keys) * wrap32 PTX.threads_per_block)));
    [| lia].
  cbn [andb]. rewrite staged_record by exact Hi. reflexivity.
Qed.

(** Slot by slot. *)
Lemma downloaded_slot (i : Z) :
  0 <= i < num_keys ->
  slot (downloaded this drv h_input h_output num_keys) i = FIPS.lane (PTX.record h_input i).
Proof.
  intros Hi. unfold slot.
  rewrite <- (list_of_nth (FIPS.lane (PTX.record h_input i)) 32 (lane_length _)).
  apply map_ext_in. intros j Hj. apply in_seq in Hj.
  rewrite downloaded_exact.
  destruct (Z.leb_spec 0 (32 * i + Z.of_nat j)); [| lia].
  destruct (Z.ltb_spec (32 * i + Z.of_nat j) (32 * num_keys)); [| lia].
  cbn [andb].
  replace ((32 * i + Z.of_nat j) / 32) with i by (Z.div_mod_to_equations; lia).
  replace ((32 * i + Z.of_nat j) mod 32) with (Z.of_nat j) by (Z.div_mod_to_equations; lia).
  rewrite Nat2Z.id. reflexivity.
Qed.

End Download.

(** Order preservation where the sizes are exact: after a successful call
    on at most 130,150,524 records, output slot [i] holds the digest of
    input record [i], which is also what the reference engine computes for
    that record; bytes outside the slots are untouched. *)
Lemma hash_batch_order_preserved (this : PTX.t) (drv : PTX.driver)
    (h_input h_output : Z -> byte) (num_keys : Z) (w : PTX.world) (sha : SHA256.t) :
  PTX.kernel_ this = PTX.sha256_kernel ->
  0 <= num_keys <= 130150524 ->
  length (SHA256.buffer sha) = 64%nat ->
  let '(ok, out, w') := PTX.hash_batch this drv h_input h_output num_keys w in
  ok = true ->
  (forall i, 0 <= i < num_keys ->
     slot out i = FIPS.sha256 (PTX.record h_input i)
     /\ slot out i = SHA256.Hash sha (PTX.record h_input i))
  /\ (forall a, ~ (0 <= a < 32 * num_keys) -> out a = h_output a).
Proof.
  intros Hker Hn Hsha.
  pose proof (hash_batch_returns this drv h_input h_output num_keys w) as Hret.
  destruct (PTX.hash_batch this drv h_input h_output num_keys w) as [[ok out] w'].
  destruct Hret as (_ & Hout & _). intros ->. subst out.
  split.
  - intros i Hi. rewrite downloaded_slot by assumption.
    assert (Hlen : length (PTX.record h_input i) = 33%nat)
      by (unfold PTX.record; rewrite length_map, length_seq; reflexivity).
    rewrite (sha256_33 _ Hlen). unfold SHA256.Hash.
    rewrite (Hash_obj_33 _ _ Hsha Hlen). cbn [snd]. split; reflexivity.
  - intros a Ha. rewrite downloaded_exact by assumption.
    destruct (Z.leb_spec 0 a); destruct (Z.ltb_spec a (32 * num_keys));
      cbn [andb]; try reflexivity; lia.
Qed.

(* ===================================================================== *)
(** ** Properties of the batch dispatcher *)
(* ===================================================================== *)

(** C6. On every exit path of [hash_batch] the device allocations are,
    when the call returns, exactly those of before the call: whatever was
    allocated during the call has been released.  When the first
    allocation succeeds and the second is refused, the calls made are the
    two allocations and the release of the first, and failure is returned.
    On the successful path both allocations are released after the
    download. *)
Theorem staging_released_on_every_exit (this : PTX.t) (drv : PTX.driver)
    (h_input h_output : Z -> byte) (num_keys : Z) (w : PTX.world) :
  let '(ok, out, w') := PTX.hash_batch this drv h_input h_output num_keys w in
  let d_input := fresh (dom (PTX.device w)) in
  let d_output :=
    fresh (dom (<[d_input := PTX.DBuf (PTX.input_size num_keys) (PTX.input_garbage drv)]>
                  (PTX.device w))) in
  PTX.device w' = PTX.device w
  /\ (PTX.initialized_ this = true ->
      PTX.alloc_input_ok drv = true -> PTX.alloc_output_ok drv = false ->
      ok = false
      /\ PTX.trace w' = PTX.trace w ++
           [ PTX.MemAlloc (PTX.input_size num_keys);
             PTX.MemAlloc (PTX.output_size num_keys);
             PTX.MemFree d_input ])
  /\ (PTX.initialized_ this = true -> all_verdicts drv = true ->
      ok = true
      /\ exists calls,
           PTX.trace w' = PTX.trace w ++ calls ++ [PTX.MemFree d_input; PTX.MemFree d_output]).
Proof.
  pose proof (hash_batch_returns this drv h_input h_output num_keys w) as Hret.
  pose proof (hash_batch_second_allocation_refused this drv h_input h_output num_keys w)
    as Hsnd.
  pose proof (hash_batch_success_path this drv h_input h_output num_keys w) as Hok.
  destruct (PTX.hash_batch this drv h_input h_output num_keys w) as [[ok out] w'].
  cbv zeta in *.
  split; [apply Hret |]. split.
  - intros Hi Ha Hb. destruct (Hsnd Hi Ha Hb) as (H1 & _ & H3). split; assumption.
  - intros Hi Hall. destruct (Hok Hi Hall) as (H1 & _ & H3). split; [exact H1 |].
    rewrite H3.
    exists [ PTX.MemAlloc (PTX.input_size num_keys);
             PTX.MemAlloc (PTX.output_size num_keys);
             PTX.MemcpyHtoD (fresh (dom (PTX.device w))) (PTX.input_size num_keys);
             PTX.LaunchKernel (wrap32 (PTX.blocks num_keys)) (wrap32 PTX.threads_per_block)
               (fresh (dom (PTX.device w)))
               (fresh (dom (<[fresh (dom (PTX.device w)) :=
                                PTX.DBuf (PTX.input_size num_keys) (PTX.input_garbage drv)]>
                              (PTX.device w))))
               num_keys;
             PTX.CtxSynchronize;
             PTX.MemcpyDtoH
               (fresh (dom (<[fresh (dom (PTX.device w)) :=
                                PTX.DBuf (PTX.input_size num_keys) (PTX.input_garbage drv)]>
                              (PTX.device w))))
               (PTX.output_size num_keys) ].
    reflexivity.
Qed.

Lemma staging_released_on_every_exit_witness :
  PTX.device (world_after (PTX.hash_batch engine refuse_second (host_of test_pubkey)
                             no_garbage 1 world0)) = ∅
  /\ returned (PTX.hash_batch engine refuse_second (host_of test_pubkey)
                 no_garbage 1 world0) = false
  /\ returned (PTX.hash_batch engine all_ok (host_of test_pubkey)
                 no_garbage 1 world0) = true.
Proof.
  pose proof (staging_released_on_every_exit engine refuse_second (host_of test_pubkey)
                no_garbage 1 world0) as H2.
  pose proof (staging_released_on_every_exit engine all_ok (host_of test_pubkey)
                no_garbage 1 world0) as H1.
  destruct (PTX.hash_batch engine refuse_second (host_of test_pubkey) no_garbage 1 world0)
    as [[ok2 out2] w2].
  destruct (PTX.hash_batch engine all_ok (host_of test_pubkey) no_garbage 1 world0)
    as [[ok1 out1] w1].
  cbv zeta in H1, H2.
  destruct H2 as (Hdev & Hsnd & _). destruct H1 as (_ & _ & Hok).
  split; [exact Hdev |].
  split; [exact (proj1 (Hsnd eq_refl eq_refl eq_refl)) | exact (proj1 (Hok eq_refl eq_refl))].
Defined.

(** Given the driver's answers, which are its verdicts and the contents
    of the memory it hands out, [hash_batch] keeps nothing between calls:
    called twice in a row with the same input, on the buffer the first
    call left, it returns the same value and leaves the same bytes in the
    output buffer; both calls leave the allocation table as the first one
    found it; and a call started from any other state of the allocation
    table and of the logs ([w0]) returns the same value and the same
    buffer.  What the memory handed out contains is not among the things
    this lemma lets vary. *)
Lemma hash_batch_repeatable_given_answers (this : PTX.t) (drv : PTX.driver)
    (h_input h_output : Z -> byte) (num_keys : Z) (w w0 : PTX.world) :
  let '(ok1, out1, w1) := PTX.hash_batch this drv h_input h_output num_keys w in
  let '(ok2, out2, w2) := PTX.hash_batch this drv h_input out1 num_keys w1 in
  let '(ok0, out0, _) := PTX.hash_batch this drv h_input h_output num_keys w0 in
  ok2 = ok1
  /\ (forall a, out2 a = out1 a)
  /\ PTX.device w1 = PTX.device w
  /\ PTX.device w2 = PTX.device w
  /\ ok0 = ok1
  /\ out0 = out1.
Proof.
  pose proof (hash_batch_returns this drv h_input h_output num_keys w) as H1.
  destruct (PTX.hash_batch this drv h_input h_output num_keys w) as [[ok1 out1] w1].
  pose proof (hash_batch_returns this drv h_input out1 num_keys w1) as H2.
  destruct (PTX.hash_batch this drv h_input out1 num_keys w1) as [[ok2 out2] w2].
  pose proof (hash_batch_returns this drv h_input h_output num_keys w0) as H0.
  destruct (PTX.hash_batch this drv h_input h_output num_keys w0) as [[ok0 out0] w0'].
  destruct H1 as (Hk1 & Ho1 & Hd1). destruct H2 as (Hk2 & Ho2 & Hd2).
  destruct H0 as (Hk0 & Ho0 & _).
  split; [congruence |]. split.
  - intros a. rewrite Ho2, Ho1, Hk2, Hk1.
    destruct (PTX.initialized_ this && all_verdicts drv); [| reflexivity].
    unfold downloaded, PTX.copy.
    destruct ((0 <=? a) && (a <? PTX.output_size num_keys)); reflexivity.
  - split; [exact Hd1 |]. split; [congruence |]. split; [congruence |].
    rewrite Ho0, Ho1, Hk0, Hk1. reflexivity.
Qed.

(** Where the sizes are exact and the kernel is the one of the design
    document, a second call gives what the first gave, whatever the two
    fresh allocations of either call contained. *)
Lemma hash_batch_repeatable_in_range (this : PTX.t) (drv drv' : PTX.driver)
    (h_input h_output : Z -> byte) (num_keys : Z) (w : PTX.world) :
  PTX.kernel_ this = PTX.sha256_kernel ->
  0 <= num_keys <= 130150524 ->
  all_verdicts drv' = all_verdicts drv ->
  let '(ok1, out1, w1) := PTX.hash_batch this drv h_input h_output num_keys w in
  let '(ok2, out2, w2) := PTX.hash_batch this drv' h_input out1 num_keys w1 in
  ok2 = ok1 /\ (forall a, out2 a = out1 a) /\ PTX.device w2 = PTX.device w.
Proof.
  intros Hker Hn Hv.
  pose proof (hash_batch_returns this drv h_input h_output num_keys w) as H1.
  destruct (PTX.hash_batch this drv h_input h_output num_keys w) as [[ok1 out1] w1].
  pose proof (hash_batch_returns this drv' h_input out1 num_keys w1) as H2.
  destruct (PTX.hash_batch this drv' h_input out1 num_keys w1) as [[ok2 out2] w2].
  destruct H1 as (Hk1 & Ho1 & Hd1). destruct H2 as (Hk2 & Ho2 & Hd2).
  assert (Hk : ok2 = ok1) by (rewrite Hk2, Hk1, Hv; reflexivity).
  split; [exact Hk |]. split; [| congruence].
  intros a. rewrite Ho2, Hk. destruct ok1; [| reflexivity].
  rewrite Ho1, !(downloaded_exact _ _ _ _ _ Hker Hn).
  destruct ((0 <=? a) && (a <? 32 * num_keys)); reflexivity.
Qed.

(** At the count 130,150,525 the kernel of the design document reads
    record 0 partly from memory that was never uploaded. *)
Lemma downloaded_slot_0_at_130150525 (this : PTX.t) (drv : PTX.driver)
    (h_input h_output : Z -> byte) :
  PTX.kernel_ this = PTX.sha256_kernel ->
  slot (downloaded this drv h_input h_output 130150525) 0
  = FIPS.lane (unstaged_record h_input (PTX.input_garbage drv)).
Proof.
  intros Hker. unfold slot.
  rewrite <- (list_of_nth (FIPS.lane (unstaged_record h_input (PTX.input_garbage drv))) 32
                (lane_length _)).
  apply map_ext_in. intros j Hj. apply in_seq in Hj.
  unfold downloaded, PTX.copy.
  change (PTX.output_size 130150525) with 4164816800.
  destruct (Z.leb_spec 0 (32 * 0 + Z.of_nat j)); [| lia].
  destruct (Z.ltb_spec (32 * 0 + Z.of_nat j) 4164816800); [| lia].
  cbn [andb]. unfold computed. rewrite Hker. unfold PTX.sha256_kernel.
  replace ((32 * 0 + Z.of_nat j) / 32) with 0 by (Z.div_mod_to_equations; lia).
  replace ((32 * 0 + Z.of_nat j) mod 32) with (Z.of_nat j) by (Z.div_mod_to_equations; lia).
  destruct (Z.leb_spec 0 (32 * 0 + Z.of_nat j)); [| lia].
  change (0 <? Z.min 130150525
                 (wrap32 (PTX.blocks 130150525) * wrap32 PTX.threads_per_block))
    with true.
  cbn [andb]. rewrite Nat2Z.id. reflexivity.
Qed.

(** C9, at the count 130,150,525.  The input size comes out as 29 bytes,
    so the upload leaves bytes 29..32 of record 0 as the fresh device
    allocation held them, and these bytes are hashed: with the kernel of
    the design document, slot 0 of the output of each of two successive
    calls with the same input is the digest of the first 29 bytes of the
    input followed by four bytes of whatever the device memory handed to
    that call contained.  Both calls return success and leave the
    allocation table as it was; the bytes they return differ as the
    memory they were handed differs. *)
Theorem stale_memory_hashed_at_130150525 (this : PTX.t) (drv drv' : PTX.driver)
    (h_input h_output : Z -> byte) (w : PTX.world) :
  PTX.initialized_ this = true ->
  PTX.kernel_ this = PTX.sha256_kernel ->
  all_verdicts drv = true -> all_verdicts drv' = true ->
  let '(ok1, out1, w1) := PTX.hash_batch this drv h_input h_output 130150525 w in
  let '(ok2, out2, w2) := PTX.hash_batch this drv' h_input out1 130150525 w1 in
  PTX.input_size 130150525 = 29
  /\ ok1 = true /\ ok2 = true
  /\ PTX.device w1 = PTX.device w /\ PTX.device w2 = PTX.device w
  /\ slot out1 0 = FIPS.lane (unstaged_record h_input (PTX.input_garbage drv))
  /\ slot out2 0 = FIPS.lane (unstaged_record h_input (PTX.input_garbage drv')).
Proof.
  intros Hinit Hker Hv Hv'.
  pose proof (hash_batch_returns this drv h_input h_output 130150525 w) as H1.
  destruct (PTX.hash_batch this drv h_input h_output 130150525 w) as [[ok1 out1] w1].
  pose proof (hash_batch_returns this drv' h_input out1 130150525 w1) as H2.
  destruct (PTX.hash_batch this drv' h_input out1 130150525 w1) as [[ok2 out2] w2].
  destruct H1 as (Hk1 & Ho1 & Hd1). destruct H2 as (Hk2 & Ho2 & Hd2).
  rewrite Hinit, Hv in Hk1. rewrite Hinit, Hv' in Hk2. subst ok1 ok2.
  split; [reflexivity |]. split; [reflexivity |]. split; [reflexivity |].
  split; [exact Hd1 |]. split; [congruence |].
  rewrite Ho1, Ho2. split; apply downloaded_slot_0_at_130150525; exact Hker.
Qed.

Lemma stale_memory_hashed_at_130150525_witness :
  let '(ok1, out1, w1) :=
    PTX.hash_batch engine all_ok (host_of test_pubkey) no_garbage 130150525 world0 in
  let '(ok2, out2, w2) :=
    PTX.hash_batch engine all_ok_dirty (host_of test_pubkey) out1 130150525 w1 in
  ok1 = true /\ ok2 = true /\ out1 0 <> out2 0.
Proof.
  pose proof (stale_memory_hashed_at_130150525 engine all_ok all_ok_dirty
                (host_of test_pubkey) no_garbage world0 eq_refl eq_refl eq_refl eq_refl) as H.
  destruct (PTX.hash_batch engine all_ok (host_of test_pubkey) no_garbage 130150525 world0)
    as [[ok1 out1] w1].
  destruct (PTX.hash_batch engine all_ok_dirty (host_of test_pubkey) out1 130150525 w1)
    as [[ok2 out2] w2].
  destruct H as (_ & Hk1 & Hk2 & _ & _ & Hs1 & Hs2).
  split; [exact Hk1 |]. split; [exact Hk2 |].
  intros Heq.
  assert (H0 : nth 0 (slot out1 0) x00 = nth 0 (slot out2 0) x00) by exact Heq.
  rewrite Hs1, Hs2 in H0. vm_compute in H0. discriminate H0.
Defined.

(** C10. The staging sizes are the products [num_keys * 33] and
    [num_keys * 32] reduced modulo 2^32.  Up to 130,150,524 records (the
    quotient of 2^32 - 1 by 33) the input size is the exact product; above
    it is strictly smaller than the product (29 bytes for 130,150,525
    records).  No count is turned away: on an initialized engine the value
    returned is decided by the driver's answers alone, and when the driver
    accepts every call the sizes it was asked for are the reduced ones. *)
Theorem staging_sizes_wrap :
  (forall n, PTX.input_size n = (n * 33) mod 2 ^ 32
             /\ PTX.output_size n = (n * 32) mod 2 ^ 32)
  /\ 130150524 = (2 ^ 32 - 1) / 33
  /\ (forall n, 0 <= n <= 130150524 -> PTX.input_size n = n * 33)
  /\ (forall n, 130150524 < n -> PTX.input_size n < n * 33)
  /\ PTX.input_size 130150525 = 29
  /\ (forall (this : PTX.t) (drv : PTX.driver) (h_input h_output : Z -> byte)
             (n : Z) (w : PTX.world),
        PTX.initialized_ this = true ->
        let '(ok, out, w') := PTX.hash_batch this drv h_input h_output n w in
        ok = all_verdicts drv
        /\ (all_verdicts drv = true ->
            exists d_input d_output rest,
              PTX.trace w' = PTX.trace w ++
                PTX.MemAlloc (PTX.input_size n) :: PTX.MemAlloc (PTX.output_size n)
                :: PTX.MemcpyHtoD d_input (PTX.input_size n) :: rest
              /\ In (PTX.MemcpyDtoH d_output (PTX.output_size n)) rest)).
Proof.
  split; [intros n; split; reflexivity |].
  split; [reflexivity |].
  split; [exact input_size_exact |].
  split; [exact input_size_wraps |].
  split; [reflexivity |].
  intros this drv h_input h_output n w Hinit.
  pose proof (hash_batch_returns this drv h_input h_output n w) as Hret.
  pose proof (hash_batch_success_path this drv h_input h_output n w Hinit) as Hok.
  destruct (PTX.hash_batch this drv h_input h_output n w) as [[ok out] w'].
  destruct Hret as (Hk & _ & _). rewrite Hinit in Hk. split; [exact Hk |].
  intros Hall. destruct (Hok Hall) as (_ & _ & Htr). cbv zeta in Htr.
  do 3 eexists. split; [exact Htr |]. simpl. tauto.
Qed.

Lemma staging_sizes_wrap_witness :
  PTX.input_size 130150524 = 130150524 * 33
  /\ PTX.input_size 130150525 < 130150525 * 33
  /\ returned (PTX.hash_batch engine all_ok no_garbage no_garbage 130150525 world0) = true.
Proof.
  destruct staging_sizes_wrap as (_ & _ & Hex & Hwr & _ & Hcall).
  split; [apply Hex; lia |]. split; [apply Hwr; lia |].
  specialize (Hcall engine all_ok no_garbage no_garbage 130150525 world0 eq_refl).
  destruct (PTX.hash_batch engine all_ok no_garbage no_garbage 130150525 world0)
    as [[ok out] w'].
  exact (proj1 Hcall).
Defined.

(** On every failure return the caller's output buffer is as it was: the
    only write to it is the download, which comes after the successful
    synchronization and is the last call that can fail. *)
Lemma hash_batch_failure_keeps_output (this : PTX.t) (drv : PTX.driver)
    (h_input h_output : Z -> byte) (num_keys : Z) (w : PTX.world) :
  let '(ok, out, w') := PTX.hash_batch this drv h_input h_output num_keys w in
  ok = false -> out = h_output.
Proof.
  pose proof (hash_batch_returns this drv h_input h_output num_keys w) as Hret.
  destruct (PTX.hash_batch this drv h_input h_output num_keys w) as [[ok out] w'].
  destruct Hret as (_ & Hout & _). intros ->. exact Hout.
Qed.

(** Within the exact range the bytes the driver's allocations happened to
    contain do not reach the output. *)
Lemma downloaded_ignores_garbage (this : PTX.t) (drv drv' : PTX.driver)
    (h_input h_output : Z -> byte) (num_keys a : Z) :
  PTX.kernel_ this = PTX.sha256_kernel ->
  0 <= num_keys <= 130150524 ->
  downloaded this drv h_input h_output num_keys a
  = downloaded this drv' h_input h_output num_keys a.
Proof. intros Hker Hn. rewrite !downloaded_exact by assumption. reflexivity. Qed.

(** C2, at the count 134,217,729 = 2^27 + 1.  The output size comes out
    as 32 bytes, so whatever the driver answers, every byte of the
    caller's buffer from offset 32 on is as before the call: output slots
    1, 2, ... are not the digests of input records 1, 2, ... unless they
    already were; and the call returns success whenever the driver accepts
    its calls. *)
Theorem order_lost_at_134217729 (this : PTX.t) (drv : PTX.driver)
    (h_input h_output : Z -> byte) (w : PTX.world) :
  let '(ok, out, w') := PTX.hash_batch this drv h_input h_output 134217729 w in
  PTX.output_size 134217729 = 32
  /\ ok = PTX.initialized_ this && all_verdicts drv
  /\ (forall a, 32 <= a -> out a = h_output a)
  /\ (forall i, 1 <= i -> slot out i = slot h_output i).
Proof.
  pose proof (hash_batch_returns this drv h_input h_output 134217729 w) as Hret.
  destruct (PTX.hash_batch this drv h_input h_output 134217729 w) as [[ok out] w'].
  destruct Hret as (Hk & Hout & _).
  assert (Hbytes : forall a, 32 <= a -> out a = h_output a).
  { intros a Ha. rewrite Hout. destruct ok; [| reflexivity].
    unfold downloaded, PTX.copy. change (PTX.output_size 134217729) with 32.
    destruct (Z.ltb_spec a 32); [lia |]. rewrite andb_false_r. reflexivity. }
  split; [reflexivity |]. split; [exact Hk |]. split; [exact Hbytes |].
  intros i Hi. unfold slot. apply map_ext. intros j. apply Hbytes. lia.
Qed.

Lemma order_lost_at_134217729_witness :
  returned (PTX.hash_batch engine all_ok (host_of (test_pubkey ++ test_pubkey))
              no_garbage 134217729 world0) = true
  /\ slot (buffer_after (PTX.hash_batch engine all_ok (host_of (test_pubkey ++ test_pubkey))
                           no_garbage 134217729 world0)) 1
     = replicate 32 x00
  /\ FIPS.lane (PTX.record (host_of (test_pubkey ++ test_pubkey)) 1) = test_digest.
Proof.
  pose proof (order_lost_at_134217729 engine all_ok (host_of (test_pubkey ++ test_pubkey))
                no_garbage world0) as H.
  destruct (PTX.hash_batch engine all_ok (host_of (test_pubkey ++ test_pubkey))
              no_garbage 134217729 world0) as [[ok out] w'].
  destruct H as (_ & Hk & _ & Hslot).
  split; [exact Hk |].
  split; [unfold buffer_after; cbn [fst snd]; rewrite (Hslot 1) by lia; reflexivity |].
  vm_compute. reflexivity.
Defined.

(** C7, at the same count.  On an initialized engine whose driver accepts
    every call, [hash_batch] on 134,217,729 records returns success and
    reports nothing, yet outside the 32 bytes of slot 0 the caller's
    buffer is as before: of the 134,217,729 digest slots at most one has
    been written. *)
Theorem partial_result_at_134217729 (this : PTX.t) (drv : PTX.driver)
    (h_input h_output : Z -> byte) (w : PTX.world) :
  PTX.initialized_ this = true ->
  all_verdicts drv = true ->
  let '(ok, out, w') := PTX.hash_batch this drv h_input h_output 134217729 w in
  ok = true
  /\ PTX.cerr w' = PTX.cerr w
  /\ (forall a, ~ (0 <= a < 32) -> out a = h_output a).
Proof.
  intros Hinit Hall.
  pose proof (hash_batch_returns this drv h_input h_output 134217729 w) as Hret.
  pose proof (hash_batch_success_path this drv h_input h_output 134217729 w Hinit Hall)
    as Hok.
  destruct (PTX.hash_batch this drv h_input h_output 134217729 w) as [[ok out] w'].
  destruct Hret as (_ & Hout & _). destruct Hok as (Hk & Herr & _).
  split; [exact Hk |]. split; [exact Herr |].
  intros a Ha. rewrite Hout, Hk.
  unfold downloaded, PTX.copy. change (PTX.output_size 134217729) with 32.
  destruct (Z.leb_spec 0 a); destruct (Z.ltb_spec a 32); cbn [andb]; try reflexivity; lia.
Qed.

Lemma partial_result_at_134217729_witness :
  returned (PTX.hash_batch engine all_ok_dirty (host_of test_pubkey)
              no_garbage 134217729 world0) = true
  /\ buffer_after (PTX.hash_batch engine all_ok_dirty (host_of test_pubkey)
                     no_garbage 134217729 world0) 32 = x00.
Proof.
  pose proof (partial_result_at_134217729 engine all_ok_dirty (host_of test_pubkey)
                no_garbage world0 eq_refl eq_refl) as H.
  destruct (PTX.hash_batch engine all_ok_dirty (host_of test_pubkey)
              no_garbage 134217729 world0) as [[ok out] w'].
  destruct H as (Hk & _ & Hout).
  split; [exact Hk |]. unfold buffer_after. cbn [fst snd]. rewrite Hout by lia. reflexivity.
Defined.

(** C8 as stated fails: on an initialized engine, with no records, the
    call returns failure and reports an error when the driver refuses the
    (empty) first allocation. *)
Lemma empty_batch_can_fail :
  returned (PTX.hash_batch engine refuse_first no_garbage no_garbage 0 world0) = false
  /\ PTX.cerr (world_after (PTX.hash_batch engine refuse_first no_garbage no_garbage 0 world0))
     = ["Failed to allocate input memory"%string].
Proof. vm_compute. split; reflexivity. Qed.

(** C8, amended.  With no records an initialized engine takes the same
    path as with any count: two allocations of 0 bytes, an upload of 0
    bytes, a launch of 0 blocks, a synchronization and a download of 0
    bytes.  It returns success exactly when the driver accepts every one
    of these calls, and then reports nothing; whether it succeeds or not
    it writes nothing to the output buffer and leaves no allocation. *)
Theorem empty_batch (this : PTX.t) (drv : PTX.driver)
    (h_input h_output : Z -> byte) (w : PTX.world) :
  PTX.initialized_ this = true ->
  let '(ok, out, w') := PTX.hash_batch this drv h_input h_output 0 w in
  ok = all_verdicts drv
  /\ (forall a, out a = h_output a)
  /\ PTX.device w' = PTX.device w
  /\ (all_verdicts drv = true ->
      PTX.cerr w' = PTX.cerr w
      /\ exists d_input d_output,
           PTX.trace w' = PTX.trace w ++
             [ PTX.MemAlloc 0; PTX.MemAlloc 0; PTX.MemcpyHtoD d_input 0;
               PTX.LaunchKernel 0 128 d_input d_output 0; PTX.CtxSynchronize;
               PTX.MemcpyDtoH d_output 0; PTX.MemFree d_input; PTX.MemFree d_output ]).
Proof.
  intros Hinit.
  pose proof (hash_batch_returns this drv h_input h_output 0 w) as Hret.
  pose proof (hash_batch_success_path this drv h_input h_output 0 w Hinit) as Hok.
  destruct (PTX.hash_batch this drv h_input h_output 0 w) as [[ok out] w'].
  destruct Hret as (Hk & Hout & Hdev). rewrite Hinit in Hk.
  split; [exact Hk |]. split.
  - intros a. rewrite Hout. destruct ok; [| reflexivity].
    unfold downloaded, PTX.copy. change (PTX.output_size 0) with 0.
    destruct (Z.leb_spec 0 a); destruct (Z.ltb_spec a 0); cbn [andb]; try reflexivity; lia.
  - split; [exact Hdev |]. intros Hall.
    destruct (Hok Hall) as (_ & Herr & Htr). cbv zeta in Htr.
    split; [exact Herr |]. do 2 eexists. exact Htr.
Qed.

Lemma empty_batch_witness :
  returned (PTX.hash_batch engine all_ok no_garbage no_garbage 0 world0) = true
  /\ returned (PTX.hash_batch engine refuse_first no_garbage no_garbage 0 world0) = false
  /\ PTX.cerr (world_after (PTX.hash_batch engine all_ok no_garbage no_garbage 0 world0)) = [].
Proof.
  pose proof (empty_batch engine all_ok no_garbage no_garbage world0 eq_refl) as H1.
  pose proof (empty_batch engine refuse_first no_garbage no_garbage world0 eq_refl) as H2.
  destruct (PTX.hash_batch engine all_ok no_garbage no_garbage 0 world0) as [[ok1 out1] w1].
  destruct (PTX.hash_batch engine refuse_first no_garbage no_garbage 0 world0)
    as [[ok2 out2] w2].
  destruct H1 as (Hk1 & _ & _ & Hq). destruct H2 as (Hk2 & _).
  split; [exact Hk1 |]. split; [exact Hk2 |]. exact (proj1 (Hq eq_refl)).
Defined.

(* ===================================================================== *)
(** ** Blocks of a byte string *)
(* ===================================================================== *)

Section Blocks.

Lemma blocks_S (n : nat) (l : list byte) :
  FIPS.blocks (S n) l = take 64 l :: FIPS.blocks n (drop 64 l).
Proof. reflexivity. Qed.

Lemma blocks_length (n : nat) (l : list byte) : length (FIPS.blocks n l) = n.
Proof.
  revert l. induction n as [| n IH]; intros l; [reflexivity |].
  rewrite blocks_S. simpl length. now rewrite IH.
Qed.

(** The first [a] blocks, then the blocks of what follows them. *)
Lemma blocks_add (a b : nat) (l : list byte) :
  FIPS.blocks (a + b) l = FIPS.blocks a l ++ FIPS.blocks b (drop (a * 64) l).
Proof.
  revert l. induction a as [| a IH]; intros l.
  - reflexivity.
  - change (S a + b)%nat with (S (a + b)). rewrite !blocks_S, IH, drop_drop.
    replace (64 + a * 64)%nat with (S a * 64)%nat by lia. reflexivity.
Qed.

(** Blocks that lie within a prefix do not see what comes after it. *)
Lemma blocks_app_l (n : nat) (l l' : list byte) :
  (n * 64 <= length l)%nat -> FIPS.blocks n (l ++ l') = FIPS.blocks n l.
Proof.
  revert l. induction n as [| n IH]; intros l Hn; [reflexivity |].
  rewrite !blocks_S. rewrite take_app_le by lia. rewrite drop_app_le by lia.
  rewrite IH by (rewrite length_drop; lia). reflexivity.
Qed.

Lemma full_blocks_of_short (l : list byte) :
  (length l < 64)%nat -> full_blocks_of l = [] /\ remainder_of l = l.
Proof.
  intros Hl. unfold full_blocks_of, remainder_of.
  rewrite Nat.div_small by exact Hl. split; reflexivity.
Qed.

(** Sixty-four bytes in front are one more block in front. *)
Lemma full_blocks_of_cons (b l : list byte) :
  length b = 64%nat ->
  full_blocks_of (b ++ l) = b :: full_blocks_of l
  /\ remainder_of (b ++ l) = remainder_of l.
Proof.
  intros Hb. unfold full_blocks_of, remainder_of.
  rewrite length_app, Hb.
  replace ((64 + length l) / 64)%nat with (S (length l / 64)).
  2:{ replace (64 + length l)%nat with (1 * 64 + length l)%nat by lia.
      rewrite Nat.div_add_l by lia. reflexivity. }
  split.
  - rewrite blocks_S. rewrite take_app_length' by (symmetry; exact Hb).
    rewrite drop_app_length' by (symmetry; exact Hb). reflexivity.
  - replace (S (length l / 64) * 64)%nat with (length b + length l / 64 * 64)%nat by lia.
    rewrite <- drop_drop. rewrite drop_app_length. reflexivity.
Qed.

Lemma remainder_length (l : list byte) : length (remainder_of l) = (length l mod 64)%nat.
Proof.
  unfold remainder_of. rewrite length_drop.
  pose proof (Nat.div_mod_eq (length l) 64). lia.
Qed.

Lemma full_blocks_of_length (l : list byte) :
  length (full_blocks_of l) = (length l / 64)%nat.
Proof. apply blocks_length. Qed.

(** Full blocks and remainder of a concatenation: those of the first
    part, then those of its remainder followed by the second part. *)
Lemma full_blocks_of_app (x y : list byte) :
  full_blocks_of (x ++ y) = full_blocks_of x ++ full_blocks_of (remainder_of x ++ y)
  /\ remainder_of (x ++ y) = remainder_of (remainder_of x ++ y).
Proof.
  assert (H : forall n (x : list byte), (n * 64 <= length x)%nat ->
            full_blocks_of (x ++ y)
            = FIPS.blocks n x ++ full_blocks_of (drop (n * 64) x ++ y)
            /\ remainder_of (x ++ y) = remainder_of (drop (n * 64) x ++ y)).
  { induction n as [| n IH]; intros x0 Hx.
    - split; reflexivity.
    - assert (Hlen : (64 <= length x0)%nat) by lia.
      assert (E : x0 ++ y = take 64 x0 ++ (drop 64 x0 ++ y))
        by (rewrite app_assoc, take_drop; reflexivity).
      rewrite E.
      destruct (full_blocks_of_cons (take 64 x0) (drop 64 x0 ++ y)) as [Hb Hr].
      { rewrite length_take. lia. }
      rewrite Hb, Hr.
      destruct (IH (drop 64 x0)) as [IHb IHr].
      { rewrite length_drop. lia. }
      rewrite IHb, IHr. rewrite drop_drop.
      replace (64 + n * 64)%nat with (S n * 64)%nat by lia.
      rewrite blocks_S. split; reflexivity. }
  unfold full_blocks_of at 2. unfold remainder_of at 2 4.
  apply H. pose proof (Nat.div_mod_eq (length x) 64). lia.
Qed.

End Blocks.

(* ===================================================================== *)
(** ** [Transform] and [Update] on any input *)
(* ===================================================================== *)

Section Streaming.

(** The compression reads the first 64 bytes of what it is given. *)
Lemma M_take64 (block : list byte) (t : nat) :
  (t < 16)%nat -> FIPS.M (take 64 block) t = FIPS.M block t.
Proof.
  intros Ht. unfold FIPS.M. rewrite !nth_firstn.
  destruct (Nat.ltb_spec (4 * t) 64); [| lia].
  destruct (Nat.ltb_spec (4 * t + 1) 64); [| lia].
  destruct (Nat.ltb_spec (4 * t + 2) 64); [| lia].
  destruct (Nat.ltb_spec (4 * t + 3) 64); [| lia].
  reflexivity.
Qed.

Lemma W_upto_take64 (block : list byte) (t : nat) :
  FIPS.W_upto (take 64 block) t = FIPS.W_upto block t.
Proof.
  induction t as [| t IH]; [reflexivity |].
  simpl. rewrite IH.
  destruct (Nat.ltb_spec t 16); [rewrite M_take64 by assumption |]; reflexivity.
Qed.

Lemma rounds_take64 (block : list byte) (init : FIPS.regs) (t : nat) :
  FIPS.rounds (take 64 block) init t = FIPS.rounds block init t.
Proof.
  induction t as [| t IH]; [reflexivity |].
  simpl. rewrite IH. unfold FIPS.W. rewrite W_upto_take64. reflexivity.
Qed.

Lemma compress_take64 (H : list Z) (block : list byte) :
  FIPS.compress H (take 64 block) = FIPS.compress H block.
Proof. unfold FIPS.compress. rewrite rounds_take64. reflexivity. Qed.

Lemma compress_words (H : list Z) (block : list byte) :
  Forall FIPS.word (FIPS.compress H block).
Proof.
  unfold FIPS.compress. apply List.Forall_forall. intros x Hx.
  apply in_map_iff in Hx. destruct Hx as [p [<- _]]. apply wrap32_word.
Qed.

(** Compressing the full blocks keeps a state of eight words. *)
Lemma absorb_state (st : list Z) (bytes : list byte) :
  length st = 8%nat -> Forall FIPS.word st ->
  length (absorb st bytes) = 8%nat /\ Forall FIPS.word (absorb st bytes).
Proof.
  unfold absorb. generalize (full_blocks_of bytes) as bs. intros bs. revert st.
  induction bs as [| b bs IH]; intros st Hl Hw; [split; assumption |].
  simpl. apply IH; [apply compress_length; exact Hl | apply compress_words].
Qed.

Lemma absorb_cons (st : list Z) (b l : list byte) :
  length b = 64%nat -> absorb st (b ++ l) = absorb (FIPS.compress st b) l.
Proof.
  intros Hb. unfold absorb.
  rewrite (proj1 (full_blocks_of_cons b l Hb)). reflexivity.
Qed.

Lemma memcpy_length (dst src : list byte) (off n : nat) :
  (off + n <= length dst)%nat -> (n <= length src)%nat ->
  length (memcpy dst off src n) = length dst.
Proof.
  intros H1 H2. unfold memcpy.
  rewrite !length_app, !length_take, length_drop. lia.
Qed.

(** A string of at least 64 bytes: its first block, then the rest. *)
Lemma peel_block (st : list Z) (l : list byte) :
  (64 <= length l)%nat ->
  absorb st l = absorb (FIPS.compress st l) (drop 64 l)
  /\ full_blocks_of l = take 64 l :: full_blocks_of (drop 64 l)
  /\ (length l / 64 = S (length (drop 64 l) / 64))%nat.
Proof.
  intros Hl.
  assert (Ht : length (take 64 l) = 64%nat) by (rewrite length_take; lia).
  pose proof (absorb_cons st (take 64 l) (drop 64 l) Ht) as Ha.
  destruct (full_blocks_of_cons (take 64 l) (drop 64 l) Ht) as [Hb _].
  rewrite take_drop in Ha, Hb. rewrite compress_take64 in Ha.
  split; [exact Ha |]. split; [exact Hb |].
  rewrite length_drop.
  replace (length l) with (1 * 64 + (length l - 64))%nat at 1 by lia.
  rewrite Nat.div_add_l by lia. reflexivity.
Qed.

Variable data : list byte.

(** The loop over full blocks: it compresses the full blocks of the
    part of [data] from [i] on and stops in front of its remainder. *)
Lemma full_blocks_spec (fuel : nat) :
  forall (o : SHA256.t) (i : nat),
    length (SHA256.state o) = 8%nat -> Forall FIPS.word (SHA256.state o) ->
    (i <= length data)%nat -> (length data < i + 64 * fuel + 64)%nat ->
    let rest := drop i data in
    SHA256.full_blocks fuel o data (Z.of_nat i) (Z.of_nat (length data))
    = (SHA256.Obj (absorb (SHA256.state o) rest) (SHA256.count o) (SHA256.buffer o)
                  (SHA256.transforms o ++ full_blocks_of rest),
       Z.of_nat (i + length rest / 64 * 64)).
Proof.
  induction fuel as [| fuel IH]; intros o i Hl Hw Hi Hfuel rest.
  - assert (Hshort : (length rest < 64)%nat) by (unfold rest; rewrite length_drop; lia).
    destruct (full_blocks_of_short rest Hshort) as [Hb _].
    unfold absorb. rewrite Hb, app_nil_r, Nat.div_small by exact Hshort.
    destruct o. simpl. rewrite Nat.add_0_r. reflexivity.
  - simpl SHA256.full_blocks.
    destruct (Z.leb_spec (Z.of_nat i + 64) (Z.of_nat (length data))) as [Hle | Hgt].
    + rewrite Nat2Z.id.
      rewrite (Transform_compress (drop i data) o Hl Hw).
      replace (Z.of_nat i + 64) with (Z.of_nat (i + 64)) by lia.
      rewrite IH; cbn [SHA256.state SHA256.count SHA256.buffer SHA256.transforms];
        [| apply compress_length; exact Hl | apply compress_words | lia | lia].
      fold rest.
      assert (Hrest : (64 <= length rest)%nat) by (unfold rest; rewrite length_drop; lia).
      assert (Hd : drop (i + 64) data = drop 64 rest)
        by (unfold rest; rewrite drop_drop; f_equal; lia).
      rewrite Hd.
      destruct (peel_block (SHA256.state o) rest Hrest) as (Ha & Hb & Hq).
      rewrite Ha, Hb, Hq, <- app_assoc. cbn [app].
      do 2 f_equal. lia.
    + assert (Hshort : (length rest < 64)%nat) by (unfold rest; rewrite length_drop; lia).
      destruct (full_blocks_of_short rest Hshort) as [Hb _].
      unfold absorb. rewrite Hb, app_nil_r, Nat.div_small by exact Hshort.
      destruct o. simpl. rewrite Nat.add_0_r. reflexivity.
Qed.

End Streaming.

Section UpdateAny.

Lemma wrap64_mod64 (x : Z) : wrap64 x mod 64 = x mod 64.
Proof. unfold wrap64. Z.div_mod_to_equations. lia. Qed.

Lemma wrap64_range (x : Z) : 0 <= wrap64 x < 2 ^ 64.
Proof. unfold wrap64. apply Z.mod_pos_bound. lia. Qed.

Lemma pending_length (o : SHA256.t) :
  length (SHA256.buffer o) = 64%nat ->
  length (pending o) = Z.to_nat (SHA256.count o mod 64).
Proof.
  intros Hb. unfold pending. rewrite length_take, Hb.
  pose proof (Z.mod_pos_bound (SHA256.count o) 64). lia.
Qed.

(** What [Update] does to an object, for any data: the pending bytes
    followed by the data are cut into blocks, the full blocks are
    compressed in order, the remainder is kept pending, the count grows
    by the length (modulo 2^64). *)
Lemma Update_spec (o : SHA256.t) (data : list byte) :
  well_formed o ->
  let all := pending o ++ data in
  SHA256.state (SHA256.Update o data) = absorb (SHA256.state o) all
  /\ SHA256.count (SHA256.Update o data) = wrap64 (SHA256.count o + Z.of_nat (length data))
  /\ pending (SHA256.Update o data) = remainder_of all
  /\ SHA256.transforms (SHA256.Update o data) = SHA256.transforms o ++ full_blocks_of all
  /\ well_formed (SHA256.Update o data).
Proof.
  intros (Hbuf & Hst & Hw & Hc) all.
  pose proof (pending_length o Hbuf) as Hp. subst all.
  destruct o as [st c buf log]. unfold pending in *.
  cbn [SHA256.state SHA256.count SHA256.buffer SHA256.transforms] in *.
  assert (Hr : 0 <= c mod 64 < 64) by (apply Z.mod_pos_bound; lia).
  remember (Z.to_nat (c mod 64)) as rn eqn:Ern.
  assert (Hrn : Z.of_nat rn = c mod 64) by lia.
  unfold SHA256.Update, well_formed.
  cbn [SHA256.state SHA256.count SHA256.buffer SHA256.transforms].
  rewrite Z.geb_leb.
  destruct (Z.leb_spec (64 - c mod 64) (Z.of_nat (length data))) as [Hge | Hlt].
  - (* at least one block gets full *)
    replace (Z.to_nat (64 - (64 - c mod 64))) with rn by lia.
    replace (Z.to_nat (64 - c mod 64)) with (64 - rn)%nat by lia.
    set (B1 := memcpy buf rn data (64 - rn)).
    assert (HB1 : B1 = take rn buf ++ take (64 - rn) data).
    { unfold B1, memcpy. rewrite (drop_ge buf) by lia. rewrite app_nil_r. reflexivity. }
    assert (HB1len : length B1 = 64%nat).
    { rewrite HB1, length_app, !length_take. lia. }
    rewrite Transform_compress; [| exact Hst | exact Hw].
    cbn [SHA256.state SHA256.count SHA256.buffer SHA256.transforms].
    rewrite (take_ge B1) by lia.
    replace (64 - c mod 64) with (Z.of_nat (64 - rn)) by lia.
    rewrite full_blocks_spec;
      cbn [SHA256.state SHA256.count SHA256.buffer SHA256.transforms];
      [| apply compress_length; exact Hst | apply compress_words | lia | lia].
    set (rest := drop (64 - rn) data).
    assert (Hall : take rn buf ++ data = B1 ++ rest).
    { rewrite HB1, <- app_assoc. unfold rest. rewrite take_drop. reflexivity. }
    rewrite Hall.
    destruct (full_blocks_of_cons B1 rest HB1len) as [Hfb Hrem].
    rewrite (absorb_cons _ _ _ HB1len), Hfb, Hrem.
    rewrite Nat2Z.id.
    assert (Hrestlen : length rest = (length data - (64 - rn))%nat)
      by (unfold rest; apply length_drop).
    assert (HR : drop (64 - rn + length rest / 64 * 64) data = remainder_of rest).
    { unfold remainder_of, rest. rewrite drop_drop. reflexivity. }
    rewrite HR.
    pose proof (remainder_length rest) as HRlen.
    pose proof (Nat.div_mod_eq (length rest) 64) as Hdm.
    replace (Z.to_nat (Z.of_nat (length data) - Z.of_nat (64 - rn + length rest / 64 * 64)))
      with (length (remainder_of rest)) by lia.
    change (Z.to_nat (64 - 64)) with 0%nat.
    assert (Hnew : memcpy B1 0 (remainder_of rest) (length (remainder_of rest))
                   = remainder_of rest ++ drop (length (remainder_of rest)) B1).
    { unfold memcpy. rewrite (take_ge (remainder_of rest)) by lia. reflexivity. }
    rewrite Hnew.
    assert (Hmod : Z.to_nat (wrap64 (c + Z.of_nat (length data)) mod 64)
                   = length (remainder_of rest)).
    { rewrite wrap64_mod64, HRlen.
      assert (Z.of_nat (length rest mod 64) = (c + Z.of_nat (length data)) mod 64); [| lia].
      rewrite Nat2Z.inj_mod. change (Z.of_nat 64) with 64.
      rewrite Hrestlen. Z.div_mod_to_equations. lia. }
    rewrite Hmod.
    split; [reflexivity |]. split; [reflexivity |].
    split; [rewrite take_app_length; reflexivity |].
    split; [rewrite <- app_assoc; reflexivity |].
    destruct (absorb_state (FIPS.compress st B1) rest) as [Hl' Hw'];
      [apply compress_length; exact Hst | apply compress_words |].
    split; [| split; [exact Hl' | split; [exact Hw' | apply wrap64_range]]].
    rewrite length_app, length_drop, HB1len.
    assert (length (remainder_of rest) < 64)%nat
      by (rewrite HRlen; apply Nat.mod_upper_bound; lia).
    lia.
  - (* everything stays pending *)
    cbn [SHA256.state SHA256.count SHA256.buffer SHA256.transforms].
    replace (Z.to_nat (64 - (64 - c mod 64))) with rn by lia.
    change (Z.to_nat 0) with 0%nat. rewrite drop_0.
    replace (Z.to_nat (Z.of_nat (length data) - 0)) with (length data) by lia.
    assert (Hshort : (length (take rn buf ++ data) < 64)%nat)
      by (rewrite length_app; lia).
    destruct (full_blocks_of_short _ Hshort) as [Hfb Hrem].
    unfold absorb. rewrite Hfb, Hrem, app_nil_r.
    assert (Hmod : Z.to_nat (wrap64 (c + Z.of_nat (length data)) mod 64)
                   = (rn + length data)%nat).
    { rewrite wrap64_mod64.
      assert ((c + Z.of_nat (length data)) mod 64 = Z.of_nat rn + Z.of_nat (length data));
        [| lia].
      rewrite Hrn. Z.div_mod_to_equations. lia. }
    rewrite Hmod. unfold memcpy. rewrite (take_ge data) by lia.
    split; [reflexivity |]. split; [reflexivity |].
    split.
    { rewrite app_assoc. rewrite take_app_le by (rewrite length_app; lia).
      rewrite take_ge by (rewrite length_app; lia). reflexivity. }
    split; [reflexivity |].
    split; [| split; [exact Hst | split; [exact Hw | apply wrap64_range]]].
    rewrite !length_app, length_take, length_drop. lia.
Qed.

End UpdateAny.

(* ===================================================================== *)
(** ** [Final] on any object *)
(* ===================================================================== *)

Section FinalAny.

(** A list of known length, opened into its elements. *)
Ltac open_list l H :=
  repeat (destruct l as [| ? l]; [discriminate H |]);
  destruct l; [| discriminate H]; clear H.

(** Eight stores at 63, 62, ..., 56 replace the last eight bytes. *)
Lemma store_last_eight (buf : list byte) (a0 a1 a2 a3 a4 a5 a6 a7 : byte) :
  length buf = 64%nat ->
  <[56%nat := a0]> (<[57%nat := a1]> (<[58%nat := a2]> (<[59%nat := a3]>
    (<[60%nat := a4]> (<[61%nat := a5]> (<[62%nat := a6]> (<[63%nat := a7]> buf)))))))
  = take 56 buf ++ [a0; a1; a2; a3; a4; a5; a6; a7].
Proof. intros Hb. open_list buf Hb. reflexivity. Qed.

Lemma low_byte_shift (x k : Z) :
  0 <= k -> Z.land (Z.shiftr x k) 255 = x / 2 ^ k mod 256.
Proof.
  intros Hk. change 255 with (Z.ones 8).
  rewrite Z.land_ones, Z.shiftr_div_pow2 by lia. reflexivity.
Qed.

(** The loop that stores the bit count writes its eight bytes, most
    significant first, over the last eight bytes of the buffer. *)
Lemma put_length_loop (buf : list byte) (x : Z) :
  length buf = 64%nat ->
  fst (for_down 8 SHA256.put_length (buf, x)) = take 56 buf ++ FIPS.be_bytes 8 x.
Proof.
  intros Hb.
  assert (Hloop : fst (for_down 8 SHA256.put_length (buf, x)) =
    <[56%nat := to_u8 (Z.land (Z.shiftr x 56) 255)]>
    (<[57%nat := to_u8 (Z.land (Z.shiftr x 48) 255)]>
    (<[58%nat := to_u8 (Z.land (Z.shiftr x 40) 255)]>
    (<[59%nat := to_u8 (Z.land (Z.shiftr x 32) 255)]>
    (<[60%nat := to_u8 (Z.land (Z.shiftr x 24) 255)]>
    (<[61%nat := to_u8 (Z.land (Z.shiftr x 16) 255)]>
    (<[62%nat := to_u8 (Z.land (Z.shiftr x 8) 255)]>
    (<[63%nat := to_u8 (Z.land (Z.shiftr x 0) 255)]> buf)))))))).
  { unfold for_down. cbn [rev seq app fold_left]. unfold SHA256.put_length.
    cbn [fst snd Nat.add].
    rewrite !Z.shiftr_shiftr by lia. rewrite Z.shiftr_0_r. reflexivity. }
  rewrite Hloop, store_last_eight by exact Hb.
  rewrite !low_byte_shift by lia. reflexivity.
Qed.

Lemma absorb_one_block (st : list Z) (b : list byte) :
  length b = 64%nat -> absorb st b = FIPS.compress st b /\ full_blocks_of b = [b].
Proof.
  intros Hb.
  pose proof (absorb_cons st b [] Hb) as Ha.
  destruct (full_blocks_of_cons b [] Hb) as [Hf _].
  rewrite app_nil_r in Ha, Hf. split; [exact Ha | exact Hf].
Qed.

Lemma absorb_two_blocks (st : list Z) (b1 b2 : list byte) :
  length b1 = 64%nat -> length b2 = 64%nat ->
  absorb st (b1 ++ b2) = FIPS.compress (FIPS.compress st b1) b2
  /\ full_blocks_of (b1 ++ b2) = [b1; b2].
Proof.
  intros H1 H2.
  destruct (absorb_one_block (FIPS.compress st b1) b2 H2) as [Ha Hf].
  rewrite (absorb_cons _ _ _ H1), Ha.
  rewrite (proj1 (full_blocks_of_cons b1 b2 H1)), Hf. split; reflexivity.
Qed.

(** What [Final] does, for any object: it compresses the one or two
    blocks made of the pending bytes, the marker 0x80, zeros and the
    64-bit count of bits, and writes out the state. *)
Lemma Final_spec (o : SHA256.t) :
  well_formed o ->
  snd (SHA256.Final o) = FIPS.serialize (absorb (SHA256.state o) (closing o))
  /\ SHA256.transforms (fst (SHA256.Final o))
     = SHA256.transforms o ++ full_blocks_of (closing o)
  /\ (length (closing o) = if Z.to_nat (SHA256.count o mod 64) <? 56 then 64 else 128)%nat.
Proof.
  intros (Hbuf & Hst & Hw & Hc).
  pose proof (pending_length o Hbuf) as Hp.
  destruct o as [st c buf log]. unfold closing, pending in *.
  cbn [SHA256.state SHA256.count SHA256.buffer SHA256.transforms] in *.
  assert (Hr : 0 <= c mod 64 < 64) by (apply Z.mod_pos_bound; lia).
  remember (Z.to_nat (c mod 64)) as rn eqn:Ern.
  assert (Hrn : c mod 64 = Z.of_nat rn) by lia.
  set (len8 := FIPS.be_bytes 8 (wrap64 (c * 8))).
  assert (Hlen8 : length len8 = 8%nat) by reflexivity.
  unfold SHA256.Final.
  cbn [SHA256.state SHA256.count SHA256.buffer SHA256.transforms].
  rewrite Hrn, Nat2Z.id.
  set (buf1 := <[rn := x80]> buf).
  assert (Hbuf1 : length buf1 = 64%nat) by (unfold buf1; rewrite length_insert; exact Hbuf).
  assert (Hhead : take (S rn) buf1 = take rn buf ++ [x80]).
  { rewrite (take_S_r buf1 rn x80).
    - unfold buf1. rewrite take_insert_ge by lia. reflexivity.
    - unfold buf1. apply list_lookup_insert_eq. lia. }
  replace (Z.to_nat (Z.of_nat rn + 1)) with (S rn) by lia.
  rewrite Z.gtb_ltb.
  destruct (Z.ltb_spec 56 (Z.of_nat rn + 1)) as [Hbig | Hsmall].
  - (* no room for the count: two blocks *)
    replace (Z.to_nat (64 - (Z.of_nat rn + 1))) with (63 - rn)%nat by lia.
    set (b2 := memset buf1 (S rn) x00 (63 - rn)).
    assert (Hb2 : b2 = take rn buf ++ [x80] ++ replicate (63 - rn) x00).
    { unfold b2, memset. rewrite Hhead, (drop_ge buf1) by lia.
      rewrite app_nil_r, <- app_assoc. reflexivity. }
    assert (Hb2len : length b2 = 64%nat).
    { rewrite Hb2, !length_app, length_replicate. simpl length. lia. }
    rewrite Transform_compress; [| exact Hst | exact Hw].
    cbn [SHA256.state SHA256.count SHA256.buffer SHA256.transforms].
    change (Z.to_nat 0) with 0%nat. change (Z.to_nat (56 - 0)) with 56%nat.
    set (b3 := memset b2 0 x00 56).
    assert (Hb3len : length b3 = 64%nat).
    { unfold b3, memset. rewrite !length_app, length_replicate, length_drop, length_take. lia. }
    assert (Hb3 : take 56 b3 = replicate 56 x00).
    { unfold b3, memset. rewrite take_0. cbn [app].
      apply take_app_length'. symmetry. apply length_replicate. }
    fold len8.
    destruct (for_down 8 SHA256.put_length (b3, wrap64 (c * 8))) as [b4 junk] eqn:Eloop.
    assert (Hb4 : b4 = replicate 56 x00 ++ len8).
    { pose proof (put_length_loop b3 (wrap64 (c * 8)) Hb3len) as Hl.
      rewrite Eloop in Hl. cbn [fst] in Hl. rewrite Hl, Hb3. reflexivity. }
    assert (Hb4len : length b4 = 64%nat).
    { rewrite Hb4, length_app, length_replicate, Hlen8. reflexivity. }
    rewrite Transform_compress;
      [| apply compress_length; exact Hst | apply compress_words].
    cbn [SHA256.state SHA256.count SHA256.buffer SHA256.transforms fst snd].
    rewrite digest_serialize
      by (apply compress_length; apply compress_length; exact Hst).
    rewrite (take_ge b2), (take_ge b4) by lia.
    replace (Z.to_nat ((55 - c) mod 64)) with ((63 - rn) + 56)%nat.
    2:{ assert ((55 - c) mod 64 = 119 - Z.of_nat rn); [| lia].
        Z.div_mod_to_equations. lia. }
    assert (Hcl : take rn buf ++ [x80] ++ replicate (63 - rn + 56) x00 ++ len8 = b2 ++ b4).
    { rewrite Hb2, Hb4, replicate_add, <- !app_assoc. reflexivity. }
    rewrite Hcl.
    destruct (absorb_two_blocks st b2 b4 Hb2len Hb4len) as [Ha Hf].
    rewrite Ha, Hf.
    split; [reflexivity |]. split; [rewrite <- app_assoc; reflexivity |].
    rewrite length_app, Hb2len, Hb4len.
    destruct (Nat.ltb_spec rn 56); [lia | reflexivity].
  - (* the count fits: one block *)
    cbn [SHA256.state SHA256.count SHA256.buffer SHA256.transforms].
    replace (Z.to_nat (56 - (Z.of_nat rn + 1))) with (55 - rn)%nat by lia.
    replace (Z.to_nat (Z.of_nat rn + 1)) with (S rn) by lia.
    set (b3 := memset buf1 (S rn) x00 (55 - rn)).
    assert (Hb3len : length b3 = 64%nat).
    { unfold b3, memset. rewrite !length_app, length_replicate, length_drop, length_take. lia. }
    assert (Hb3 : take 56 b3 = take rn buf ++ [x80] ++ replicate (55 - rn) x00).
    { unfold b3, memset. rewrite Hhead, app_assoc.
      rewrite take_app_length'
        by (rewrite !length_app, length_replicate, length_take; simpl length; lia).
      rewrite <- app_assoc. reflexivity. }
    fold len8.
    destruct (for_down 8 SHA256.put_length (b3, wrap64 (c * 8))) as [b4 junk] eqn:Eloop.
    assert (Hb4 : b4 = take rn buf ++ [x80] ++ replicate (55 - rn) x00 ++ len8).
    { pose proof (put_length_loop b3 (wrap64 (c * 8)) Hb3len) as Hl.
      rewrite Eloop in Hl. cbn [fst] in Hl. rewrite Hl, Hb3, <- !app_assoc. reflexivity. }
    assert (Hb4len : length b4 = 64%nat).
    { rewrite Hb4, !length_app, length_replicate, Hlen8, length_take. simpl length. lia. }
    rewrite Transform_compress; [| exact Hst | exact Hw].
    cbn [SHA256.state SHA256.count SHA256.buffer SHA256.transforms fst snd].
    rewrite digest_serialize by (apply compress_length; exact Hst).
    rewrite (take_ge b4) by lia.
    replace (Z.to_nat ((55 - c) mod 64)) with (55 - rn)%nat.
    2:{ assert ((55 - c) mod 64 = 55 - Z.of_nat rn); [| lia].
        Z.div_mod_to_equations. lia. }
    rewrite <- Hb4.
    destruct (absorb_one_block st b4 Hb4len) as [Ha Hf].
    rewrite Ha, Hf.
    split; [reflexivity |]. split; [reflexivity |].
    rewrite Hb4len. destruct (Nat.ltb_spec rn 56); [reflexivity | lia].
Qed.

End FinalAny.

(* ===================================================================== *)
(** ** Whole runs: [Init], any number of [Update]s, [Final] *)
(* ===================================================================== *)

Section Runs.

Lemma absorb_app (st : list Z) (x y : list byte) :
  absorb st (x ++ y) = absorb (absorb st x) (remainder_of x ++ y).
Proof.
  unfold absorb. rewrite (proj1 (full_blocks_of_app x y)), fold_left_app. reflexivity.
Qed.

Lemma wrap64_add_l (x y : Z) : wrap64 (wrap64 x + y) = wrap64 (x + y).
Proof. unfold wrap64. rewrite Zplus_mod_idemp_l. reflexivity. Qed.

Lemma Init_well_formed (o : SHA256.t) :
  length (SHA256.buffer o) = 64%nat ->
  well_formed (SHA256.Init o) /\ pending (SHA256.Init o) = [].
Proof.
  intros Hb. rewrite Init_H0. unfold well_formed, pending.
  cbn [SHA256.state SHA256.count SHA256.buffer SHA256.transforms].
  split; [| reflexivity].
  split; [exact Hb |]. split; [reflexivity |]. split; [exact H0_words | lia].
Qed.

(** The object after [Init] and the [Update]s of [chunks], in terms of
    the bytes fed so far. *)
Lemma fed_spec (chunks : list (list byte)) :
  forall (o : SHA256.t) (sofar : list byte),
    well_formed o ->
    SHA256.state o = absorb FIPS.H0 sofar ->
    SHA256.count o = wrap64 (Z.of_nat (length sofar)) ->
    pending o = remainder_of sofar ->
    let o' := fold_left SHA256.Update chunks o in
    let all := sofar ++ concat chunks in
    well_formed o'
    /\ SHA256.state o' = absorb FIPS.H0 all
    /\ SHA256.count o' = wrap64 (Z.of_nat (length all))
    /\ pending o' = remainder_of all
    /\ SHA256.transforms o'
       = SHA256.transforms o ++ full_blocks_of (remainder_of sofar ++ concat chunks).
Proof.
  induction chunks as [| c chunks IH]; intros o sofar Hwf Hst Hc Hp o' all.
  - subst o' all. cbn [fold_left concat]. rewrite !app_nil_r.
    split; [exact Hwf |]. split; [exact Hst |]. split; [exact Hc |].
    split; [exact Hp |].
    assert (Hshort : (length (remainder_of sofar) < 64)%nat)
      by (rewrite remainder_length; apply Nat.mod_upper_bound; lia).
    rewrite (proj1 (full_blocks_of_short _ Hshort)), app_nil_r. reflexivity.
  - subst o' all. cbn [fold_left concat].
    destruct (Update_spec o c Hwf) as (Us & Uc & Up & Ut & Uwf).
    rewrite Hp in Us, Up, Ut.
    destruct (full_blocks_of_app sofar c) as [Fb Fr].
    destruct (IH (SHA256.Update o c) (sofar ++ c)) as (Iwf & Is & Ic & Ip & It).
    + exact Uwf.
    + rewrite Us, Hst. symmetry. apply absorb_app.
    + rewrite Uc, Hc, wrap64_add_l, length_app, Nat2Z.inj_add. reflexivity.
    + rewrite Up. symmetry. exact Fr.
    + rewrite <- app_assoc in Is, Ic, Ip.
      split; [exact Iwf |]. split; [exact Is |]. split; [exact Ic |].
      split; [exact Ip |].
      rewrite It, Ut, Fr, <- app_assoc. f_equal.
      symmetry. rewrite app_assoc.
      rewrite (proj1 (full_blocks_of_app (remainder_of sofar ++ c) (concat chunks))).
      reflexivity.
Qed.

(** With fewer than 2^61 bytes fed, what [Final] appends is the padding
    of FIPS 180-4 for the whole message. *)
Lemma closing_pad (o : SHA256.t) (msg : list byte) :
  Z.of_nat (length msg) < 2 ^ 61 ->
  SHA256.count o = wrap64 (Z.of_nat (length msg)) ->
  pending o = remainder_of msg ->
  FIPS.pad msg = take (length msg / 64 * 64) msg ++ closing o.
Proof.
  intros Hlen Hc Hp. unfold closing, FIPS.pad. rewrite Hp, Hc.
  assert (Hw : wrap64 (Z.of_nat (length msg)) = Z.of_nat (length msg))
    by (unfold wrap64; apply Z.mod_small; lia).
  rewrite Hw.
  assert (Hw8 : wrap64 (Z.of_nat (length msg) * 8) = 8 * Z.of_nat (length msg))
    by (unfold wrap64; rewrite Z.mod_small by lia; lia).
  rewrite Hw8. unfold remainder_of.
  rewrite (app_assoc (take (length msg / 64 * 64) msg)), take_drop. reflexivity.
Qed.

(** Compressing the blocks of a padded message: those of its full
    blocks, then those of what [Final] appends. *)
Lemma absorb_pad (o : SHA256.t) (msg : list byte) :
  Z.of_nat (length msg) < 2 ^ 61 ->
  SHA256.count o = wrap64 (Z.of_nat (length msg)) ->
  pending o = remainder_of msg ->
  absorb FIPS.H0 (FIPS.pad msg) = absorb (absorb FIPS.H0 msg) (closing o)
  /\ full_blocks_of (FIPS.pad msg) = full_blocks_of msg ++ full_blocks_of (closing o).
Proof.
  intros Hlen Hc Hp.
  assert (Hpad : FIPS.pad msg = msg ++ drop (length (remainder_of msg)) (closing o)).
  { rewrite (closing_pad o msg Hlen Hc Hp).
    assert (Hcl : closing o = remainder_of msg ++ drop (length (remainder_of msg)) (closing o)).
    { unfold closing at 1 2. rewrite Hp. rewrite drop_app_length. reflexivity. }
    rewrite Hcl at 1. unfold remainder_of at 1.
    rewrite app_assoc, take_drop. reflexivity. }
  assert (Hcl : remainder_of msg ++ drop (length (remainder_of msg)) (closing o) = closing o).
  { unfold closing. rewrite Hp. rewrite drop_app_length. reflexivity. }
  rewrite Hpad. rewrite absorb_app, (proj1 (full_blocks_of_app _ _)), Hcl.
  split; reflexivity.
Qed.

(** One run over a message given in pieces. *)
Lemma run_spec (o : SHA256.t) (chunks : list (list byte)) :
  length (SHA256.buffer o) = 64%nat ->
  Z.of_nat (length (concat chunks)) < 2 ^ 61 ->
  let r := SHA256.Final (fold_left SHA256.Update chunks (SHA256.Init o)) in
  snd r = FIPS.sha256 (concat chunks)
  /\ SHA256.transforms (fst r)
     = SHA256.transforms o ++ full_blocks_of (FIPS.pad (concat chunks)).
Proof.
  intros Hb Hlen r. subst r.
  destruct (Init_well_formed o Hb) as [Hwf Hp0].
  destruct (fed_spec chunks (SHA256.Init o) [] Hwf eq_refl eq_refl Hp0)
    as (Fwf & Fs & Fc & Fp & Ft).
  cbn [app] in Fs, Fc, Fp, Ft.
  change (remainder_of []) with (@nil byte) in Ft. cbn [app] in Ft.
  set (o' := fold_left SHA256.Update chunks (SHA256.Init o)) in *.
  destruct (Final_spec o' Fwf) as (Hd & Ht & _).
  destruct (absorb_pad o' (concat chunks) Hlen Fc Fp) as [Ha Hf].
  rewrite Hd, Ht, Ft, Fs, <- Ha, Hf, <- app_assoc.
  split; reflexivity.
Qed.

End Runs.
(* ===================================================================== *)
(** ** The reference engine on messages of any length *)
(* ===================================================================== *)

Section HashAny.

(** [Hash] on any message, whatever its length: the full blocks of the
    message are compressed from the initial constants, then the one or
    two blocks made of the remaining bytes, the marker, the zeros and the
    count of bits modulo 2^64. *)
Lemma Hash_obj_spec (sha : SHA256.t) (data : list byte) :
  length (SHA256.buffer sha) = 64%nat ->
  let tail := remainder_of data ++ [x80]
              ++ replicate (Z.to_nat ((55 - Z.of_nat (length data)) mod 64)) x00
              ++ FIPS.be_bytes 8 (wrap64 (Z.of_nat (length data) * 8)) in
  snd (SHA256.Hash_obj sha data) = FIPS.serialize (absorb (absorb FIPS.H0 data) tail)
  /\ SHA256.transforms (fst (SHA256.Hash_obj sha data))
     = full_blocks_of data ++ full_blocks_of tail
  /\ length tail = (if (length data mod 64 <? 56)%nat then 64 else 128)%nat.
Proof.
  intros Hb tail. unfold SHA256.Hash_obj.
  set (o0 := SHA256.Obj (SHA256.state sha) (SHA256.count sha) (SHA256.buffer sha) []).
  destruct (Init_well_formed o0 Hb) as [Hwf Hp0].
  destruct (fed_spec [data] (SHA256.Init o0) [] Hwf eq_refl eq_refl Hp0)
    as (Fwf & Fs & Fc & Fp & Ft).
  cbn [app concat fold_left] in Fs, Fc, Fp, Ft, Fwf.
  change (remainder_of []) with (@nil byte) in Ft.
  cbn [app SHA256.Init SHA256.transforms o0] in Ft.
  rewrite app_nil_r in Fs, Fc, Fp, Ft.
  set (o' := SHA256.Update (SHA256.Init o0) data) in *.
  destruct (Final_spec o' Fwf) as (Hd & Ht & Hl).
  assert (Hcl : closing o' = tail).
  { unfold closing, tail. rewrite Fp, Fc. do 3 f_equal.
    - f_equal. unfold wrap64. Z.div_mod_to_equations. lia.
    - f_equal. unfold wrap64. Z.div_mod_to_equations. lia. }
  rewrite Hcl in Hd, Ht, Hl. rewrite Fs in Hd. rewrite Ft in Ht.
  split; [exact Hd |]. split; [exact Ht |].
  rewrite Hl, Fc, wrap64_mod64.
  replace (Z.to_nat (Z.of_nat (length data) mod 64)) with (length data mod 64)%nat.
  2:{ change 64 with (Z.of_nat 64). rewrite <- Nat2Z.inj_mod, Nat2Z.id. reflexivity. }
  reflexivity.
Qed.

End HashAny.

(** X1.  For every message shorter than 2^61 bytes (the messages SHA-256
    is defined on), [SHA256::Hash] returns the FIPS 180-4 SHA-256 digest
    of the message, whatever the storage of the local object held
    before; the blocks it hands to [Transform], in order, are the 64-byte
    blocks of the padded message. *)
Theorem Hash_any_length (sha : SHA256.t) (data : list byte) :
  length (SHA256.buffer sha) = 64%nat ->
  Z.of_nat (length data) < 2 ^ 61 ->
  SHA256.Hash sha data = FIPS.sha256 data
  /\ SHA256.transforms (fst (SHA256.Hash_obj sha data))
     = FIPS.blocks (length (FIPS.pad data) / 64) (FIPS.pad data).
Proof.
  intros Hb Hlen.
  pose proof (run_spec (SHA256.Obj (SHA256.state sha) (SHA256.count sha)
                                   (SHA256.buffer sha) []) [data] Hb) as Hrun.
  cbn [concat fold_left] in Hrun. rewrite app_nil_r in Hrun.
  specialize (Hrun Hlen). cbv zeta in Hrun.
  cbn [SHA256.transforms app] in Hrun.
  unfold SHA256.Hash, SHA256.Hash_obj. exact Hrun.
Qed.

Lemma Hash_any_length_witness :
  SHA256.Hash blank (test_pubkey ++ test_pubkey) = FIPS.sha256 (test_pubkey ++ test_pubkey)
  /\ length (SHA256.transforms (fst (SHA256.Hash_obj blank (test_pubkey ++ test_pubkey))))
     = 2%nat.
Proof.
  destruct (Hash_any_length blank (test_pubkey ++ test_pubkey)) as [Hd Ht].
  - reflexivity.
  - reflexivity.
  - split; [exact Hd |]. rewrite Ht. reflexivity.
Defined.

(** X2.  A message may be fed in any number of pieces of any sizes:
    after [Init] on an object in any condition (fresh or used), the
    [Update]s of the pieces in order and [Final], the digest is the
    SHA-256 digest of the concatenation, and the blocks compressed are
    those of the padded concatenation. *)
Theorem Update_in_pieces (o : SHA256.t) (chunks : list (list byte)) :
  length (SHA256.buffer o) = 64%nat ->
  Z.of_nat (length (concat chunks)) < 2 ^ 61 ->
  let r := SHA256.Final (fold_left SHA256.Update chunks (SHA256.Init o)) in
  snd r = FIPS.sha256 (concat chunks)
  /\ SHA256.transforms (fst r)
     = SHA256.transforms o
       ++ FIPS.blocks (length (FIPS.pad (concat chunks)) / 64) (FIPS.pad (concat chunks)).
Proof. intros Hb Hlen. exact (run_spec o chunks Hb Hlen). Qed.

Lemma Update_in_pieces_witness :
  snd (SHA256.Final
         (SHA256.Update (SHA256.Update (SHA256.Update (SHA256.Init blank) test_pubkey) [])
                        test_digest))
  = FIPS.sha256 (test_pubkey ++ test_digest).
Proof.
  destruct (Update_in_pieces blank [test_pubkey; []; test_digest]) as [Hd _].
  - reflexivity.
  - reflexivity.
  - exact Hd.
Defined.

(** X3.  [Update] with no data changes nothing: neither the state, nor
    the count, nor a byte of the buffer, and [Transform] is not run. *)
Theorem Update_nothing (o : SHA256.t) :
  0 <= SHA256.count o < 2 ^ 64 ->
  SHA256.Update o [] = o.
Proof.
  intros Hc. destruct o as [st c buf log]. unfold SHA256.Update.
  cbn [SHA256.state SHA256.count SHA256.buffer SHA256.transforms length].
  change (Z.of_nat 0) with 0.
  pose proof (Z.mod_pos_bound c 64 ltac:(lia)) as Hr.
  cbn [SHA256.count] in Hc.
  destruct (Z.geb_spec 0 (64 - c mod 64)) as [Hge | Hlt]; [lia |].
  cbn [SHA256.state SHA256.count SHA256.buffer SHA256.transforms].
  rewrite Z.add_0_r. unfold wrap64. rewrite Z.mod_small by lia.
  unfold memcpy. change (Z.to_nat (0 - 0)) with 0%nat.
  rewrite take_0, Nat.add_0_r. cbn [app]. rewrite take_drop. reflexivity.
Qed.

Lemma Update_nothing_witness :
  SHA256.Update (SHA256.Update (SHA256.Init blank) test_pubkey) []
  = SHA256.Update (SHA256.Init blank) test_pubkey.
Proof.
  apply (Update_nothing (SHA256.Update (SHA256.Init blank) test_pubkey)).
  vm_compute. split; [discriminate | reflexivity].
Defined.

(** X4.  What [Update] does to an object whose members have the sizes
    and ranges of their declarations, for data of any length: the bytes
    put aside so far followed by the data are cut into 64-byte blocks;
    the full blocks are compressed in order (and these are all the
    [Transform] calls made), what remains after them is put aside, the
    count grows by the length modulo 2^64 and the object stays
    well formed, with fewer than 64 bytes put aside. *)
Theorem Update_any (o : SHA256.t) (data : list byte) :
  well_formed o ->
  let all := pending o ++ data in
  let o' := SHA256.Update o data in
  SHA256.state o' = fold_left FIPS.compress (FIPS.blocks (length all / 64) all) (SHA256.state o)
  /\ SHA256.transforms o' = SHA256.transforms o ++ FIPS.blocks (length all / 64) all
  /\ pending o' = drop (length all / 64 * 64) all
  /\ SHA256.count o' = (SHA256.count o + Z.of_nat (length data)) mod 2 ^ 64
  /\ well_formed o'
  /\ (length (pending o') < 64)%nat.
Proof.
  intros Hwf all o'.
  destruct (Update_spec o data Hwf) as (Us & Uc & Up & Ut & Uwf).
  split; [exact Us |]. split; [exact Ut |]. split; [exact Up |].
  split; [exact Uc |]. split; [exact Uwf |].
  subst o'. rewrite Up, remainder_length. apply Nat.mod_upper_bound. lia.
Qed.

Lemma Update_any_witness :
  let o := SHA256.Update (SHA256.Init blank) test_pubkey in
  pending o = test_pubkey
  /\ SHA256.transforms (SHA256.Update o test_pubkey)
     = [test_pubkey ++ take 31 test_pubkey]
  /\ pending (SHA256.Update o test_pubkey) = drop 31 test_pubkey.
Proof.
  cbv zeta.
  assert (Hwf : well_formed (SHA256.Update (SHA256.Init blank) test_pubkey)).
  { destruct (Init_well_formed blank eq_refl) as [Hwf0 _].
    exact (proj2 (proj2 (proj2 (proj2 (Update_spec _ test_pubkey Hwf0))))). }
  destruct (Update_any _ test_pubkey Hwf) as (_ & Ht & Hp & _).
  split; [reflexivity |]. split; [rewrite Ht | rewrite Hp]; reflexivity.
Defined.

(** X5.  What [Final] does, for any well-formed object: it appends to
    the bytes put aside the marker 0x80, zeros up to 56 modulo 64 and the
    count of bits on 8 bytes, most significant first; it compresses the
    result, which is one block when fewer than 56 bytes were put aside
    and two blocks otherwise, and writes the eight state words, most
    significant byte first.  The count is left as it was. *)
Theorem Final_any (o : SHA256.t) :
  well_formed o ->
  let tail := pending o ++ [x80]
              ++ replicate (Z.to_nat ((55 - SHA256.count o) mod 64)) x00
              ++ FIPS.be_bytes 8 ((SHA256.count o * 8) mod 2 ^ 64) in
  let n := if (length (pending o) <? 56)%nat then 1%nat else 2%nat in
  length tail = (64 * n)%nat
  /\ snd (SHA256.Final o)
     = FIPS.serialize (fold_left FIPS.compress (FIPS.blocks n tail) (SHA256.state o))
  /\ SHA256.transforms (fst (SHA256.Final o)) = SHA256.transforms o ++ FIPS.blocks n tail
  /\ SHA256.count (fst (SHA256.Final o)) = SHA256.count o.
Proof.
  intros Hwf tail n.
  destruct (Final_spec o Hwf) as (Hd & Ht & Hl).
  pose proof (pending_length o (proj1 Hwf)) as Hp.
  fold (wrap64 (SHA256.count o * 8)) in tail.
  change (closing o) with tail in Hd, Ht, Hl.
  rewrite <- Hp in Hl.
  assert (Hn : (length tail / 64 = n)%nat).
  { rewrite Hl. subst n. destruct (length (pending o) <? 56)%nat; reflexivity. }
  unfold absorb, full_blocks_of in Hd, Ht. rewrite Hn in Hd, Ht.
  split.
  { rewrite Hl. subst n. destruct (length (pending o) <? 56)%nat; reflexivity. }
  split; [exact Hd |]. split; [exact Ht |].
  destruct Hwf as (Hbuf & Hst & Hw & Hc).
  destruct o as [st c buf log]. unfold SHA256.Final.
  cbn [SHA256.state SHA256.count SHA256.buffer SHA256.transforms] in *.
  destruct (c mod 64 + 1 >? 56).
  - rewrite Transform_compress; [| exact Hst | exact Hw].
    cbn [SHA256.state SHA256.count SHA256.buffer SHA256.transforms].
    destruct (for_down 8 SHA256.put_length _) as [b4 junk].
    rewrite Transform_compress; [| apply compress_length; exact Hst | apply compress_words].
    reflexivity.
  - cbn [SHA256.state SHA256.count SHA256.buffer SHA256.transforms].
    destruct (for_down 8 SHA256.put_length _) as [b4 junk].
    rewrite Transform_compress; [| exact Hst | exact Hw].
    reflexivity.
Qed.

Lemma Final_any_witness :
  let o := SHA256.Update (SHA256.Init blank) (test_pubkey ++ test_pubkey) in
  length (SHA256.transforms (fst (SHA256.Final o))) = 2%nat
  /\ SHA256.count (fst (SHA256.Final o)) = 66.
Proof.
  cbv zeta.
  assert (Hwf : well_formed (SHA256.Update (SHA256.Init blank) (test_pubkey ++ test_pubkey))).
  { destruct (Init_well_formed blank eq_refl) as [Hwf0 _].
    exact (proj2 (proj2 (proj2 (proj2 (Update_spec _ (test_pubkey ++ test_pubkey) Hwf0))))). }
  destruct (Final_any _ Hwf) as (_ & _ & Ht & Hc).
  split; [rewrite Ht | rewrite Hc]; reflexivity.
Defined.

(** X6.  [Transform] reads the 64 bytes at the pointer it is given and
    nothing after them: what follows the block in memory has no
    influence on the object it leaves. *)
Theorem Transform_reads_one_block (o : SHA256.t) (data : list byte) :
  length (SHA256.state o) = 8%nat -> Forall FIPS.word (SHA256.state o) ->
  SHA256.Transform o data = SHA256.Transform o (take 64 data).
Proof.
  intros Hst Hw.
  rewrite (Transform_compress data o Hst Hw).
  rewrite (Transform_compress (take 64 data) o Hst Hw).
  rewrite compress_take64, take_take. reflexivity.
Qed.

Lemma Transform_reads_one_block_witness :
  SHA256.Transform (SHA256.Init blank) (FIPS.pad test_pubkey ++ test_pubkey)
  = SHA256.Transform (SHA256.Init blank) (FIPS.pad test_pubkey).
Proof.
  rewrite (Transform_reads_one_block (SHA256.Init blank) (FIPS.pad test_pubkey ++ test_pubkey)).
  - reflexivity.
  - reflexivity.
  - exact H0_words.
Defined.

(** X7.  The digest returned by [Hash] does not depend on what the
    storage of its local object held: not on the state words and the
    count (set by the constructor), and not on the 64 bytes of the
    buffer, which the constructor leaves as they are. *)
Theorem Hash_ignores_prior_storage (sha sha' : SHA256.t) (data : list byte) :
  length (SHA256.buffer sha) = 64%nat -> length (SHA256.buffer sha') = 64%nat ->
  SHA256.Hash sha data = SHA256.Hash sha' data
  /\ SHA256.transforms (fst (SHA256.Hash_obj sha data))
     = SHA256.transforms (fst (SHA256.Hash_obj sha' data)).
Proof.
  intros Hb Hb'.
  destruct (Hash_obj_spec sha data Hb) as (Hd & Ht & _).
  destruct (Hash_obj_spec sha' data Hb') as (Hd' & Ht' & _).
  unfold SHA256.Hash. rewrite Hd, Hd', Ht, Ht'. split; reflexivity.
Qed.

Lemma Hash_ignores_prior_storage_witness :
  SHA256.Hash blank test_pubkey
  = SHA256.Hash (SHA256.Obj [1; 2; 3] 77 (replicate 64 xff) [test_digest]) test_pubkey.
Proof.
  exact (proj1 (Hash_ignores_prior_storage blank
                  (SHA256.Obj [1; 2; 3] 77 (replicate 64 xff) [test_digest])
                  test_pubkey eq_refl eq_refl)).
Defined.

(** X8.  The number of times [Hash] runs the compression function on a
    message of [n] bytes is [(n + 8) / 64 + 1]: one per full block of the
    message, and one or two more for the padding. *)
Theorem Hash_compression_count (sha : SHA256.t) (data : list byte) :
  length (SHA256.buffer sha) = 64%nat ->
  length (SHA256.transforms (fst (SHA256.Hash_obj sha data)))
  = ((length data + 8) / 64 + 1)%nat.
Proof.
  intros Hb. destruct (Hash_obj_spec sha data Hb) as (_ & Ht & Hl).
  rewrite Ht, length_app, !full_blocks_of_length, Hl.
  pose proof (Nat.div_mod_eq (length data) 64) as Hdm.
  pose proof (Nat.mod_upper_bound (length data) 64 ltac:(lia)) as Hr.
  destruct (Nat.ltb_spec (length data mod 64) 56) as [Hlt | Hge].
  - change (64 / 64)%nat with 1%nat.
    replace (length data + 8)%nat
      with (length data / 64 * 64 + (length data mod 64 + 8))%nat by lia.
    rewrite Nat.div_add_l by lia.
    rewrite (Nat.div_small (length data mod 64 + 8)) by lia. lia.
  - change (128 / 64)%nat with 2%nat.
    replace (length data + 8)%nat
      with ((length data / 64 + 1) * 64 + (length data mod 64 - 56))%nat by lia.
    rewrite Nat.div_add_l by lia.
    rewrite (Nat.div_small (length data mod 64 - 56)) by lia. lia.
Qed.

Lemma Hash_compression_count_witness :
  length (SHA256.transforms (fst (SHA256.Hash_obj blank (replicate 56 x00)))) = 2%nat.
Proof.
  rewrite (Hash_compression_count blank (replicate 56 x00) eq_refl). reflexivity.
Defined.
(* ===================================================================== *)
(** ** Construction, initialization and cleanup of the engine *)
(* ===================================================================== *)

Section SetupFacts.

Import Setup.

Lemma new_handle_fresh (live : gset Z) :
  (new_handle live ∉ live) /\ new_handle live <> 0.
Proof.
  unfold new_handle.
  pose proof (is_fresh ({[0]} ∪ live)) as H.
  rewrite elem_of_union, elem_of_singleton in H. tauto.
Qed.

Lemma release_new (h : Z) (live : gset Z) :
  h ∉ live -> ({[h]} ∪ live) ∖ {[h]} = live.
Proof.
  intros H. apply set_eq. intros x.
  rewrite elem_of_difference, elem_of_union, elem_of_singleton.
  split; [tauto |]. intros Hx. split; [tauto |]. intros ->. contradiction.
Qed.

Lemma release_absent (h : Z) (live : gset Z) :
  h ∉ live -> live ∖ {[h]} = live.
Proof.
  intros H. apply set_eq. intros x.
  rewrite elem_of_difference, elem_of_singleton.
  split; [tauto |]. intros Hx. split; [tauto |]. intros ->. contradiction.
Qed.

(** Runs the driver calls of a path whose verdicts are known. *)
Ltac run_setup :=
  unfold cuInit, cuDeviceGet, cuCtxCreate, cuCtxDestroy, cuLinkCreate, cuLinkAddData,
    cuLinkComplete, cuLinkDestroy, cuModuleLoadData, cuModuleGetFunction, cuModuleUnload,
    report, say, logged, PTX.verdict;
  cbn [contexts modules linkers cerr cout trace PTX.succeeded negb
       init_ok device_ok device ctx_ok link_create_ok add_data_ok complete_ok
       walltime info_log error_log load_ok function_ok function
       module_ kernel_ context_ initialized_].

(** What [compile_ptx] leaves, on every path. *)
Lemma compile_ptx_spec (this : t) (drv : driver) (ptx_source : string) (w : world) :
  let '(ok, this', w') := compile_ptx this drv ptx_source w in
  let hmod := new_handle (modules w) in
  ok = links drv
  /\ linkers w' = linkers w
  /\ contexts w' = contexts w
  /\ context_ this' = context_ this
  /\ initialized_ this' = initialized_ this
  /\ modules w' = (if ok then {[ hmod ]} ∪ modules w else modules w)
  /\ module_ this' = (if link_create_ok drv && add_data_ok drv && complete_ok drv
                         && load_ok drv then hmod else module_ this)
  /\ kernel_ this' = (if ok then function drv else kernel_ this).
Proof.
  unfold compile_ptx, links.
  destruct drv as [i d dv c lc ad co wt il el lo fo fn].
  destruct w as [cs ms ls err out tr]. destruct this as [m k cx ini].
  destruct (new_handle_fresh ls) as [Hls _].
  destruct (new_handle_fresh ms) as [Hms _].
  run_setup.
  destruct lc; run_setup; [| repeat split; reflexivity].
  destruct ad; run_setup.
  2:{ rewrite (release_new _ _ Hls). repeat split; reflexivity. }
  destruct co; run_setup.
  2:{ rewrite (release_new _ _ Hls). repeat split; reflexivity. }
  destruct lo; run_setup.
  2:{ rewrite (release_new _ _ Hls). repeat split; reflexivity. }
  destruct fo; run_setup.
  2:{ rewrite (release_new _ _ Hls), (release_new _ _ Hms). repeat split; reflexivity. }
  rewrite (release_new _ _ Hls). repeat split; reflexivity.
Qed.


(** [cleanup] leaves every member null and the flag down. *)
Lemma cleanup_members (this : t) (w : world) :
  fst (cleanup this w) = Obj 0 0 0 false.
Proof.
  destruct this as [m k cx ini]. unfold cleanup.
  cbn [module_ kernel_ context_ initialized_].
  destruct (Z.eqb_spec k 0) as [-> | Hk]; cbn [negb module_ kernel_ context_ initialized_];
    (destruct (Z.eqb_spec m 0) as [-> | Hm]; cbn [negb module_ kernel_ context_ initialized_];
     (destruct (Z.eqb_spec cx 0) as [-> | Hc]; reflexivity)).
Qed.

(** [cleanup] of an object that holds a module and a context. *)
Lemma cleanup_loaded (m k cx : Z) (ini : bool) (w : world) :
  m <> 0 -> cx <> 0 ->
  cleanup (Obj m k cx ini) w = (Obj 0 0 0 false, cuCtxDestroy cx (cuModuleUnload m w)).
Proof.
  intros Hm Hc. unfold cleanup. cbn [module_ kernel_ context_ initialized_].
  apply Z.eqb_neq in Hm, Hc.
  destruct (Z.eqb_spec k 0) as [-> | Hk]; cbn [negb module_ kernel_ context_ initialized_];
    rewrite Hm; cbn [negb module_ kernel_ context_ initialized_];
    rewrite Hc; reflexivity.
Qed.

(** What [initialize] leaves, on every path. *)
Lemma initialize_spec (this : t) (drv : driver) (files : string -> file_result)
    (ptx_file_path : string) (w : world) :
  let '(ok, this', w') := initialize this drv files ptx_file_path w in
  let ctx := new_handle (contexts w) in
  let hmod := new_handle (modules w) in
  ok = ready drv files ptx_file_path
  /\ initialized_ this' = ok || initialized_ this
  /\ linkers w' = linkers w
  /\ contexts w' = (if boots drv then {[ ctx ]} ∪ contexts w else contexts w)
  /\ context_ this' = (if boots drv then ctx else context_ this)
  /\ modules w' = (if ok then {[ hmod ]} ∪ modules w else modules w)
  /\ (ok = true -> module_ this' = hmod /\ kernel_ this' = function drv)
  /\ (boots drv = false -> this' = this).
Proof.
  unfold initialize, ready, boots.
  destruct (init_ok drv) eqn:Ei; unfold cuInit at 1; cbn [PTX.verdict PTX.succeeded negb andb];
    [| repeat split; try reflexivity; discriminate].
  destruct (device_ok drv) eqn:Ed; unfold cuDeviceGet at 1;
    cbn [PTX.verdict PTX.succeeded negb andb];
    [| repeat split; try reflexivity; discriminate].
  destruct (ctx_ok drv) eqn:Ec; unfold cuCtxCreate at 1;
    cbn [PTX.verdict PTX.succeeded negb andb];
    [| repeat split; try reflexivity; discriminate].
  unfold read_ptx.
  set (w3 := World _ _ _ _ _ _).
  set (this3 := Obj _ _ _ _).
  destruct (files ptx_file_path) as [| src | what].
  - repeat split; try reflexivity; discriminate.
  - destruct (String.eqb src "") eqn:Ee; cbn [negb andb].
    + repeat split; try reflexivity; discriminate.
    + pose proof (compile_ptx_spec this3 drv src w3) as Hc.
      destruct (compile_ptx this3 drv src w3) as [[ok this'] w'].
      cbv zeta in Hc. destruct Hc as (Hok & Hl & Hcs & Hcx & Hini & Hms & Hm & Hk).
      cbn [contexts modules linkers cerr cout trace logged w3
           module_ kernel_ context_ initialized_ this3] in *.
      rewrite <- Hok.
      destruct ok; cbn [negb orb module_ kernel_ context_ initialized_].
      * repeat split; try assumption; try reflexivity; try discriminate.
        symmetry in Hok. unfold links in Hok.
        apply andb_true_iff in Hok. destruct Hok as [Hfour _].
        rewrite Hfour in Hm. exact Hm.
      * repeat split; try assumption; try reflexivity; try discriminate.
  - repeat split; try reflexivity; discriminate.
Qed.

End SetupFacts.

Section SetupProperties.

Import Setup.

Ltac run_setup' :=
  unfold cuInit, cuDeviceGet, cuCtxCreate, cuCtxDestroy, cuLinkCreate, cuLinkAddData,
    cuLinkComplete, cuLinkDestroy, cuModuleLoadData, cuModuleGetFunction, cuModuleUnload,
    report, say, logged, PTX.verdict;
  cbn [contexts modules linkers cerr cout trace PTX.succeeded negb
       init_ok device_ok device ctx_ok link_create_ok add_data_ok complete_ok
       walltime info_log error_log load_ok function_ok function
       module_ kernel_ context_ initialized_].

(** X9.  [compile_ptx], whatever the driver answers: it succeeds exactly
    when the driver accepts its five calls; the link state it created is
    destroyed on every path, and it touches no context; on success the
    new module is loaded and [kernel_] is the function found in it; on
    failure no module stays loaded and [kernel_] is as before.  When the
    lookup of the function is the call that fails, [module_] keeps the
    handle of the module that has just been unloaded. *)
Theorem compile_ptx_leaves_no_linker (this : t) (drv : driver) (ptx_source : string)
    (w : world) :
  let '(ok, this', w') := compile_ptx this drv ptx_source w in
  ok = links drv
  /\ linkers w' = linkers w
  /\ contexts w' = contexts w
  /\ (ok = true ->
      module_ this' ∈ modules w' /\ (module_ this' ∉ modules w)
      /\ kernel_ this' = function drv)
  /\ (ok = false -> modules w' = modules w /\ kernel_ this' = kernel_ this)
  /\ (link_create_ok drv && add_data_ok drv && complete_ok drv && load_ok drv = true ->
      function_ok drv = false ->
      module_ this' <> 0 /\ module_ this' ∉ modules w').
Proof.
  pose proof (compile_ptx_spec this drv ptx_source w) as H.
  destruct (compile_ptx this drv ptx_source w) as [[ok this'] w'].
  cbv zeta in H. destruct H as (Hok & Hl & Hcs & _ & _ & Hms & Hm & Hk).
  destruct (new_handle_fresh (modules w)) as [Hfresh Hnz].
  split; [exact Hok |]. split; [exact Hl |]. split; [exact Hcs |].
  split; [| split].
  - intros ->. rewrite Hms, Hk. unfold links in Hok. symmetry in Hok.
    apply andb_true_iff in Hok. destruct Hok as [Hfour _]. rewrite Hfour in Hm.
    rewrite Hm. split; [| split; [exact Hfresh | reflexivity]].
    apply elem_of_union_l, elem_of_singleton. reflexivity.
  - intros ->. split; [exact Hms | exact Hk].
  - intros Hfour Hfn. rewrite Hfour in Hm. rewrite Hm.
    unfold links in Hok. rewrite Hfour, Hfn in Hok. subst ok.
    rewrite Hms. split; [exact Hnz | exact Hfresh].
Qed.

Lemma compile_ptx_leaves_no_linker_witness :
  let '(ok, this', w') := compile_ptx (Obj 0 0 1 false) no_function ".version 7.0" setup0 in
  ok = false /\ linkers w' = ∅ /\ module_ this' <> 0 /\ module_ this' ∉ modules w'.
Proof.
  pose proof (compile_ptx_leaves_no_linker (Obj 0 0 1 false) no_function ".version 7.0" setup0)
    as H.
  destruct (compile_ptx (Obj 0 0 1 false) no_function ".version 7.0" setup0)
    as [[ok this'] w'].
  destruct H as (Hok & Hl & _ & _ & _ & Hd).
  split; [exact Hok |]. split; [exact Hl |]. exact (Hd eq_refl eq_refl).
Defined.

(** X10.  [initialize], whatever the driver and the file system answer:
    it returns true exactly when the driver accepts its eight calls and
    the file can be read and is not empty.  It raises [initialized_] on
    success and never lowers it: after a failure the flag is what it
    was.  No link state is left behind.  Once the context is created it
    is kept in [context_] and stays live, also when [initialize] fails
    afterwards; before that point a failure leaves the object as it
    was. *)
Theorem initialize_outcome (this : t) (drv : driver) (files : string -> file_result)
    (ptx_file_path : string) (w : world) :
  let '(ok, this', w') := initialize this drv files ptx_file_path w in
  ok = ready drv files ptx_file_path
  /\ initialized_ this' = ok || initialized_ this
  /\ linkers w' = linkers w
  /\ (boots drv = true ->
      context_ this' <> 0 /\ (context_ this' ∉ contexts w)
      /\ contexts w' = {[ context_ this' ]} ∪ contexts w)
  /\ (boots drv = false -> this' = this /\ contexts w' = contexts w)
  /\ (ok = true ->
      module_ this' <> 0 /\ (module_ this' ∉ modules w)
      /\ modules w' = {[ module_ this' ]} ∪ modules w
      /\ kernel_ this' = function drv)
  /\ (ok = false -> modules w' = modules w).
Proof.
  pose proof (initialize_spec this drv files ptx_file_path w) as H.
  destruct (initialize this drv files ptx_file_path w) as [[ok this'] w'].
  cbv zeta in H. destruct H as (Hok & Hini & Hl & Hcs & Hcx & Hms & Hm & Hsame).
  destruct (new_handle_fresh (modules w)) as [Hmf Hmz].
  destruct (new_handle_fresh (contexts w)) as [Hcf Hcz].
  split; [exact Hok |]. split; [exact Hini |]. split; [exact Hl |].
  split; [| split; [| split]].
  - intros Hb. rewrite Hb in Hcs, Hcx. rewrite Hcx, Hcs.
    split; [exact Hcz |]. split; [exact Hcf | reflexivity].
  - intros Hb. rewrite Hb in Hcs. split; [exact (Hsame Hb) | exact Hcs].
  - intros Ht. destruct (Hm Ht) as [Hm' Hk]. rewrite Ht in Hms. rewrite Hm', Hms.
    split; [exact Hmz |]. split; [exact Hmf |]. split; [reflexivity | exact Hk].
  - intros Hf. rewrite Hf in Hms. exact Hms.
Qed.

Lemma initialize_outcome_witness :
  let '(ok, this', w') :=
    initialize (Obj 5 6 0 true) no_function disk ptx_path setup0 in
  ok = false /\ initialized_ this' = true /\ context_ this' <> 0 /\ modules w' = ∅.
Proof.
  pose proof (initialize_outcome (Obj 5 6 0 true) no_function disk ptx_path setup0) as H.
  destruct (initialize (Obj 5 6 0 true) no_function disk ptx_path setup0)
    as [[ok this'] w'].
  destruct H as (Hok & Hini & _ & Hb & _ & _ & Hf).
  assert (Hok' : ok = false) by (rewrite Hok; reflexivity).
  split; [exact Hok' |].
  split; [rewrite Hini, Hok'; reflexivity |].
  split; [exact (proj1 (Hb eq_refl)) | exact (Hf Hok')].
Defined.

(** X11.  When the context has been created but the kernel text cannot
    be had (the file cannot be opened, is empty, or reading it throws),
    [initialize] returns false after three driver calls and asks
    nothing more of the driver: the context stays live.  A file that
    cannot be opened and an exception are each reported by one line on
    [std::cerr]; an empty file is not reported at all. *)
Theorem initialize_without_kernel_text (this : t) (drv : driver)
    (files : string -> file_result) (ptx_file_path : string) (w : world) :
  boots drv = true ->
  (forall s, files ptx_file_path = Contents s -> s = ""%string) ->
  let '(ok, this', w') := initialize this drv files ptx_file_path w in
  ok = false
  /\ this' = Obj (module_ this) (kernel_ this) (new_handle (contexts w)) (initialized_ this)
  /\ trace w' = trace w ++ [Init 0; DeviceGet 0; CtxCreate 0 (device drv)]
  /\ contexts w' = {[ new_handle (contexts w) ]} ∪ contexts w
  /\ cout w' = cout w
  /\ cerr w' = cerr w ++
       match files ptx_file_path with
       | CannotOpen => [("Failed to open PTX file: " ++ ptx_file_path)%string]
       | Contents _ => []
       | Throws what => [("Exception during initialization: " ++ what)%string]
       end.
Proof.
  intros Hb Hfile. unfold boots in Hb.
  apply andb_true_iff in Hb. destruct Hb as [Hb Hc].
  apply andb_true_iff in Hb. destruct Hb as [Hi Hd].
  unfold initialize, read_ptx. rewrite Hi, Hd, Hc.
  destruct w as [cs ms ls err out tr]. run_setup'.
  destruct (files ptx_file_path) as [| src | what].
  - run_setup'. rewrite <- !app_assoc. repeat split; reflexivity.
  - rewrite (Hfile src eq_refl). cbn [String.eqb]. run_setup'.
    rewrite <- !app_assoc, app_nil_r. repeat split; reflexivity.
  - run_setup'. rewrite <- !app_assoc. repeat split; reflexivity.
Qed.

Lemma initialize_without_kernel_text_witness :
  let '(ok, this', w') :=
    initialize (Obj 0 0 0 false) setup_ok disk "sha256_kernel.ptx" setup0 in
  ok = false
  /\ trace w' = [Init 0; DeviceGet 0; CtxCreate 0 0]
  /\ cerr w' = ["Failed to open PTX file: sha256_kernel.ptx"%string].
Proof.
  pose proof (initialize_without_kernel_text (Obj 0 0 0 false) setup_ok disk
                "sha256_kernel.ptx" setup0 eq_refl) as H.
  destruct (initialize (Obj 0 0 0 false) setup_ok disk "sha256_kernel.ptx" setup0)
    as [[ok this'] w'].
  destruct H as (Hok & _ & Htr & _ & _ & Herr).
  - intros s Hs. discriminate Hs.
  - split; [exact Hok |]. split; [exact Htr | exact Herr].
Defined.


(** X12.  A successful [initialize] followed by the destructor gives
    back everything: the context, the module and the link state that
    were created are released, whatever [context_] held when the object
    was constructed; nothing is written to [std::cerr], and the two
    lines about the link are written to [std::cout]. *)
Theorem initialize_then_destroy (storage : t) (drv : driver)
    (files : string -> file_result) (ptx_file_path : string) (w : world) :
  ready drv files ptx_file_path = true ->
  let '(ok, this1, w1) := initialize (PTX_SHA256 storage) drv files ptx_file_path w in
  let '(this2, w2) := destroy this1 w1 in
  ok = true
  /\ initialized_ this1 = true
  /\ this2 = Obj 0 0 0 false
  /\ contexts w2 = contexts w /\ modules w2 = modules w /\ linkers w2 = linkers w
  /\ cerr w2 = cerr w
  /\ cout w2 = cout w ++ [("CUDA Link Completed in " ++ walltime drv ++ " ms.")%string;
                          ("Linker Output:" ++ newline ++ info_log drv)%string].
Proof.
  intros Hready. unfold ready, boots, links in Hready.
  destruct (files ptx_file_path) as [| src | what] eqn:Efile;
    try (rewrite andb_false_r in Hready; discriminate Hready).
  destruct (String.eqb src "") eqn:Esrc;
    try (rewrite andb_false_r in Hready; discriminate Hready).
  destruct drv as [i d dv c lc ad co wt il el lo fo fn].
  cbn [init_ok device_ok ctx_ok link_create_ok add_data_ok complete_ok load_ok function_ok]
    in Hready.
  destruct i, d, c, lc, ad, co, lo, fo; try discriminate Hready. clear Hready.
  destruct w as [cs ms ls err out tr]. destruct storage as [m0 k0 c0 i0].
  destruct (new_handle_fresh cs) as [Hcf Hcz].
  destruct (new_handle_fresh ms) as [Hmf Hmz].
  destruct (new_handle_fresh ls) as [Hlf _].
  unfold initialize, PTX_SHA256, read_ptx, compile_ptx. rewrite Efile.
  run_setup'. rewrite Esrc. run_setup'.
  unfold destroy. rewrite (cleanup_loaded _ _ _ _ _ Hmz Hcz). run_setup'.
  rewrite (release_new _ _ Hcf), (release_new _ _ Hmf), (release_new _ _ Hlf).
  rewrite <- !app_assoc. repeat split; reflexivity.
Qed.

Lemma initialize_then_destroy_witness :
  let '(ok, this1, w1) := initialize (PTX_SHA256 (Obj 3 4 5 true)) setup_ok disk ptx_path setup0 in
  let '(this2, w2) := destroy this1 w1 in
  ok = true /\ contexts w2 = ∅ /\ modules w2 = ∅ /\ linkers w2 = ∅.
Proof.
  pose proof (initialize_then_destroy (Obj 3 4 5 true) setup_ok disk ptx_path setup0 eq_refl)
    as H.
  destruct (initialize (PTX_SHA256 (Obj 3 4 5 true)) setup_ok disk ptx_path setup0)
    as [[ok this1] w1].
  destruct (destroy this1 w1) as [this2 w2].
  destruct H as (Hok & _ & _ & Hc & Hm & Hl & _).
  split; [exact Hok |]. split; [exact Hc |]. split; [exact Hm | exact Hl].
Defined.

(** X13.  The constructor does not set [context_].  When an object is
    destroyed without [cuCtxCreate] having succeeded for it (it was never
    initialized, or [initialize] failed at one of its first three
    calls), and the storage of [context_] happened to hold a value other
    than null, the destructor hands that value to [cuCtxDestroy]: a
    context of that handle, whoever owns it, is destroyed.  When the
    storage held null the destructor asks nothing of the driver. *)
Theorem destructor_uses_unset_context (storage : t) (drv : driver)
    (files : string -> file_result) (ptx_file_path : string) (w : world) :
  boots drv = false ->
  let '(ok, this1, w1) := initialize (PTX_SHA256 storage) drv files ptx_file_path w in
  let '(this2, w2) := destroy this1 w1 in
  ok = false
  /\ (context_ storage <> 0 ->
      trace w2 = trace w1 ++ [CtxDestroy (context_ storage)]
      /\ contexts w2 = contexts w ∖ {[ context_ storage ]})
  /\ (context_ storage = 0 -> w2 = w1)
  /\ (context_ storage <> 0 ->
      destroy (PTX_SHA256 storage) w
      = (Obj 0 0 0 false, cuCtxDestroy (context_ storage) w)).
Proof.
  intros Hb.
  pose proof (initialize_spec (PTX_SHA256 storage) drv files ptx_file_path w) as H.
  destruct (initialize (PTX_SHA256 storage) drv files ptx_file_path w) as [[ok this1] w1].
  cbv zeta in H. destruct H as (Hok & _ & _ & Hcs & _ & _ & _ & Hsame).
  rewrite Hb in Hcs. rewrite (Hsame Hb). clear Hsame.
  assert (Hok' : ok = false) by (rewrite Hok; unfold ready; rewrite Hb; reflexivity).
  destruct storage as [m0 k0 c0 i0]. unfold destroy, PTX_SHA256, cleanup.
  cbn [module_ kernel_ context_ initialized_ Z.eqb negb].
  destruct (Z.eqb_spec c0 0) as [-> | Hc0]; cbn [negb].
  - split; [exact Hok' |]. split; [intros Hn; contradiction |].
    split; [reflexivity | intros Hn; contradiction].
  - split; [exact Hok' |]. destruct w1 as [cs1 ms1 ls1 err1 out1 tr1]. run_setup'.
    cbn [contexts] in Hcs. rewrite Hcs.
    split; [intros _; split; reflexivity |].
    split; [intros Hz; contradiction | intros _; reflexivity].
Qed.

Lemma destructor_uses_unset_context_witness :
  let '(ok, this1, w1) := initialize (PTX_SHA256 (Obj 0 0 9 false)) no_cuda disk ptx_path
                            (World {[ 9 ]} ∅ ∅ [] [] []) in
  let '(this2, w2) := destroy this1 w1 in
  ok = false
  /\ trace w2 = trace w1 ++ [CtxDestroy 9]
  /\ contexts w2 = {[ 9 ]} ∖ {[ 9 ]}.
Proof.
  pose proof (destructor_uses_unset_context (Obj 0 0 9 false) no_cuda disk ptx_path
                (World {[ 9 ]} ∅ ∅ [] [] []) eq_refl) as H.
  destruct (initialize (PTX_SHA256 (Obj 0 0 9 false)) no_cuda disk ptx_path
              (World {[ 9 ]} ∅ ∅ [] [] [])) as [[ok this1] w1].
  destruct (destroy this1 w1) as [this2 w2].
  destruct H as (Hok & Hd & _ & _).
  split; [exact Hok |]. apply Hd. discriminate.
Defined.

(** X14.  When the lookup of the kernel function is the call that
    fails, [compile_ptx] unloads the module but leaves its handle in
    [module_]; the destructor then unloads the same handle a second
    time.  The calls made, from [initialize] to the end of the
    destructor, are these, in this order. *)
Theorem failed_lookup_unloads_twice (storage : t) (drv : driver)
    (files : string -> file_result) (ptx_file_path src : string) (w : world) :
  boots drv = true ->
  files ptx_file_path = Contents src -> src <> ""%string ->
  link_create_ok drv && add_data_ok drv && complete_ok drv && load_ok drv = true ->
  function_ok drv = false ->
  let ctx := new_handle (contexts w) in
  let st := new_handle (linkers w) in
  let hmod := new_handle (modules w) in
  let '(ok, this1, w1) := initialize (PTX_SHA256 storage) drv files ptx_file_path w in
  let '(this2, w2) := destroy this1 w1 in
  ok = false
  /\ module_ this1 = hmod
  /\ trace w2 = trace w ++
       [ Init 0; DeviceGet 0; CtxCreate 0 (device drv);
         LinkCreate 7;
         LinkAddData st (Z.of_nat (String.length src)) "sha256_kernel.ptx";
         LinkComplete st;
         ModuleLoadData;
         ModuleGetFunction hmod "sha256_kernel";
         ModuleUnload hmod;
         LinkDestroy st;
         ModuleUnload hmod;
         CtxDestroy ctx ]
  /\ cerr w2 = cerr w ++ ["Failed to get kernel function"%string].
Proof.
  intros Hb Efile Hsrc Hfour Hfn ctx st hmod. subst ctx st hmod.
  apply String.eqb_neq in Hsrc.
  unfold boots in Hb.
  destruct drv as [i d dv c lc ad co wt il el lo fo fn].
  cbn [init_ok device_ok ctx_ok link_create_ok add_data_ok complete_ok load_ok function_ok]
    in Hb, Hfour, Hfn.
  destruct i, d, c; try discriminate Hb.
  destruct lc, ad, co, lo; try discriminate Hfour. subst fo. clear Hb Hfour.
  destruct w as [cs ms ls err out tr]. destruct storage as [m0 k0 c0 i0].
  destruct (new_handle_fresh cs) as [Hcf Hcz].
  destruct (new_handle_fresh ms) as [Hmf Hmz].
  unfold initialize, PTX_SHA256, read_ptx, compile_ptx. rewrite Efile.
  run_setup'. rewrite Hsrc. run_setup'.
  unfold destroy. rewrite (cleanup_loaded _ _ _ _ _ Hmz Hcz). run_setup'.
  rewrite <- !app_assoc. repeat split; reflexivity.
Qed.

Lemma failed_lookup_unloads_twice_witness :
  let '(ok, this1, w1) := initialize (PTX_SHA256 (Obj 0 0 0 false)) no_function disk ptx_path
                            setup0 in
  let '(this2, w2) := destroy this1 w1 in
  ok = false /\ cerr w2 = ["Failed to get kernel function"%string].
Proof.
  pose proof (failed_lookup_unloads_twice (Obj 0 0 0 false) no_function disk ptx_path
                ".version 7.0" setup0 eq_refl eq_refl) as H.
  cbv zeta in H.
  destruct (initialize (PTX_SHA256 (Obj 0 0 0 false)) no_function disk ptx_path setup0)
    as [[ok this1] w1].
  destruct (destroy this1 w1) as [this2 w2].
  destruct H as (Hok & _ & _ & Herr); [discriminate | reflexivity | reflexivity |].
  split; [exact Hok | exact Herr].
Defined.

(** X15.  [initialize] does not release what an earlier [initialize]
    acquired: after two successful calls on the same object and the
    destructor, the context and the module of the first call are still
    there, and nothing refers to them any more. *)
Theorem second_initialize_leaks_the_first (this : t) (drv drv' : driver)
    (files files' : string -> file_result) (path path' : string) (w : world) :
  ready drv files path = true -> ready drv' files' path' = true ->
  let '(ok1, this1, w1) := initialize this drv files path w in
  let '(ok2, this2, w2) := initialize this1 drv' files' path' w1 in
  let '(this3, w3) := destroy this2 w2 in
  ok1 = true /\ ok2 = true
  /\ this3 = Obj 0 0 0 false
  /\ (context_ this1 ∉ contexts w) /\ contexts w3 = {[ context_ this1 ]} ∪ contexts w
  /\ (module_ this1 ∉ modules w) /\ modules w3 = {[ module_ this1 ]} ∪ modules w
  /\ linkers w3 = linkers w.
Proof.
  intros Hr Hr'.
  assert (Hb : boots drv = true) by (unfold ready in Hr; apply andb_true_iff in Hr; tauto).
  assert (Hb' : boots drv' = true) by (unfold ready in Hr'; apply andb_true_iff in Hr'; tauto).
  pose proof (initialize_spec this drv files path w) as H1.
  destruct (initialize this drv files path w) as [[ok1 this1] w1].
  cbv zeta in H1. destruct H1 as (Hok1 & _ & Hl1 & Hcs1 & Hcx1 & Hms1 & Hm1 & _).
  rewrite Hr in Hok1. subst ok1. rewrite Hb in Hcs1, Hcx1.
  destruct (Hm1 eq_refl) as [Hm1' _]. clear Hm1.
  pose proof (initialize_spec this1 drv' files' path' w1) as H2.
  destruct (initialize this1 drv' files' path' w1) as [[ok2 this2] w2].
  cbv zeta in H2. destruct H2 as (Hok2 & _ & Hl2 & Hcs2 & Hcx2 & Hms2 & Hm2 & _).
  rewrite Hr' in Hok2. subst ok2. rewrite Hb' in Hcs2, Hcx2.
  destruct (Hm2 eq_refl) as [Hm2' _]. clear Hm2.
  destruct (new_handle_fresh (contexts w)) as [Hcf Hcz].
  destruct (new_handle_fresh (modules w)) as [Hmf Hmz].
  destruct (new_handle_fresh (contexts w1)) as [Hcf1 Hcz1].
  destruct (new_handle_fresh (modules w1)) as [Hmf1 Hmz1].
  destruct this2 as [m2 k2 c2 i2]. cbn [module_ kernel_ context_ initialized_] in *.
  subst m2 c2.
  unfold destroy. rewrite (cleanup_loaded _ _ _ _ _ Hmz1 Hcz1).
  destruct w2 as [cs2 ms2 ls2 err2 out2 tr2]. run_setup'.
  cbn [contexts modules linkers] in Hl2, Hcs2, Hms2. subst cs2 ms2 ls2.
  rewrite (release_new _ _ Hcf1), (release_new _ _ Hmf1).
  rewrite Hcx1, Hm1', Hcs1, Hms1, Hl1.
  repeat split; try reflexivity; assumption.
Qed.

Lemma second_initialize_leaks_the_first_witness :
  let '(ok1, this1, w1) := initialize (Obj 0 0 0 false) setup_ok disk ptx_path setup0 in
  let '(ok2, this2, w2) := initialize this1 setup_ok disk ptx_path w1 in
  let '(this3, w3) := destroy this2 w2 in
  ok2 = true /\ contexts w3 = {[ context_ this1 ]} ∪ ∅.
Proof.
  pose proof (second_initialize_leaks_the_first (Obj 0 0 0 false) setup_ok setup_ok
                disk disk ptx_path ptx_path setup0 eq_refl eq_refl) as H.
  destruct (initialize (Obj 0 0 0 false) setup_ok disk ptx_path setup0) as [[ok1 this1] w1].
  destruct (initialize this1 setup_ok disk ptx_path w1) as [[ok2 this2] w2].
  destruct (destroy this2 w2) as [this3 w3].
  destruct H as (_ & Hok & _ & _ & Hc & _).
  split; [exact Hok | exact Hc].
Defined.

(** X16.  [hash_batch] works only between a successful [initialize]
    and the destructor.  On an object that was constructed and whose
    [initialize] failed, and on any object after [cleanup], it returns
    false, writes the line "PTX_SHA256 not initialized", leaves the
    output buffer alone and asks nothing of the driver; after a
    successful [initialize] its result is decided by the driver's
    answers. *)
Theorem hash_batch_needs_initialize (denotes : Z -> PTX.kernel) (storage : t)
    (drv : driver) (files : string -> file_result) (ptx_file_path : string) (w : world)
    (batch : PTX.driver) (h_input h_output : Z -> byte) (num_keys : Z) (pw : PTX.world) :
  let '(ok, this1, w1) := initialize (PTX_SHA256 storage) drv files ptx_file_path w in
  let refusal := (false, h_output,
                  PTX.World (PTX.device pw)
                            (PTX.cerr pw ++ ["PTX_SHA256 not initialized"%string])
                            (PTX.trace pw)) in
  (ok = false ->
   PTX.hash_batch (engine_of denotes this1) batch h_input h_output num_keys pw = refusal)
  /\ (ok = true ->
      returned (PTX.hash_batch (engine_of denotes this1) batch h_input h_output num_keys pw)
      = all_verdicts batch)
  /\ PTX.hash_batch (engine_of denotes (fst (destroy this1 w1))) batch
                    h_input h_output num_keys pw = refusal.
Proof.
  pose proof (initialize_spec (PTX_SHA256 storage) drv files ptx_file_path w) as H.
  destruct (initialize (PTX_SHA256 storage) drv files ptx_file_path w) as [[ok this1] w1].
  cbv zeta in H. destruct H as (_ & Hini & _).
  cbn [PTX_SHA256 initialized_] in Hini. rewrite orb_false_r in Hini.
  cbv zeta. split; [| split].
  - intros ->. unfold PTX.hash_batch, engine_of. cbn [PTX.initialized_].
    rewrite Hini. reflexivity.
  - intros ->.
    pose proof (hash_batch_returns (engine_of denotes this1) batch h_input h_output
                  num_keys pw) as Hret.
    destruct (PTX.hash_batch (engine_of denotes this1) batch h_input h_output num_keys pw)
      as [[r out] pw'].
    destruct Hret as (Hr & _). unfold returned. cbn [fst].
    rewrite Hr. unfold engine_of. cbn [PTX.initialized_]. rewrite Hini. reflexivity.
  - unfold destroy. rewrite cleanup_members.
    unfold PTX.hash_batch, engine_of. reflexivity.
Qed.

Lemma hash_batch_needs_initialize_witness :
  let '(ok, this1, w1) := initialize (PTX_SHA256 (Obj 0 0 0 false)) no_cuda disk ptx_path
                            setup0 in
  returned (PTX.hash_batch (engine_of (fun _ => PTX.sha256_kernel) this1) all_ok
              (host_of test_pubkey) no_garbage 1 world0) = false.
Proof.
  pose proof (hash_batch_needs_initialize (fun _ => PTX.sha256_kernel) (Obj 0 0 0 false)
                no_cuda disk ptx_path setup0 all_ok (host_of test_pubkey) no_garbage 1 world0)
    as H.
  pose proof (initialize_spec (PTX_SHA256 (Obj 0 0 0 false)) no_cuda disk ptx_path setup0)
    as Hs.
  destruct (initialize (PTX_SHA256 (Obj 0 0 0 false)) no_cuda disk ptx_path setup0)
    as [[ok this1] w1].
  cbv zeta in H, Hs. destruct H as (Hf & _ & _). destruct Hs as (Hok & _).
  rewrite (Hf Hok). reflexivity.
Defined.

End SetupProperties.

(* ===================================================================== *)
(** ** More on the batch dispatcher *)
(* ===================================================================== *)

Section DispatcherCalls.

Ltac run_calls Hne :=
  unfold PTX.cuMemAlloc, PTX.cuMemcpyHtoD, PTX.cuLaunchKernel, PTX.cuCtxSynchronize,
    PTX.cuMemcpyDtoH, PTX.cuMemFree, PTX.report, PTX.verdict;
  repeat first
    [ progress cbn [PTX.logged PTX.device PTX.cerr PTX.trace PTX.succeeded negb
                    PTX.bytes PTX.bytesize PTX.alloc_input_ok PTX.input_garbage
                    PTX.alloc_output_ok PTX.output_garbage PTX.htod_ok PTX.launch_ok
                    PTX.sync_ok PTX.dtoh_ok]
    | rewrite lookup_insert_eq
    | rewrite lookup_insert_ne by (clear - Hne; congruence) ].

(** X17.  The driver calls of one [hash_batch] on an initialized
    engine: the six requests are made in a fixed order up to and
    including the first one the driver refuses, and none after it; then
    the device buffers that were obtained are released, the input buffer
    first, each once, and nothing that was not obtained is released.  On
    a failure exactly one line is written to [std::cerr], the one that
    names the refused call; on success none is. *)
Theorem hash_batch_stops_at_first_refusal (this : PTX.t) (drv : PTX.driver)
    (h_input h_output : Z -> byte) (num_keys : Z) (w : PTX.world) :
  PTX.initialized_ this = true ->
  let '(ok, out, w') := PTX.hash_batch this drv h_input h_output num_keys w in
  let d_input := fresh (dom (PTX.device w)) in
  let d_output :=
    fresh (dom (<[d_input := PTX.DBuf (PTX.input_size num_keys) (PTX.input_garbage drv)]>
                  (PTX.device w))) in
  let k := accepted (verdicts drv) in
  ok = (k =? 6)%nat
  /\ PTX.trace w' = PTX.trace w ++ take (S k) (requests num_keys d_input d_output)
                                ++ releases k d_input d_output
  /\ PTX.cerr w' = PTX.cerr w ++ take 1 (drop k complaints).
Proof.
  intros Hinit. unfold PTX.hash_batch. rewrite Hinit.
  destruct drv as [ai gi ao go hd la sy dh]. unfold verdicts.
  cbn [PTX.alloc_input_ok PTX.alloc_output_ok PTX.htod_ok PTX.launch_ok PTX.sync_ok
       PTX.dtoh_ok PTX.input_garbage].
  destruct w as [m errs tr].
  pose proof (fresh_pointers m (PTX.DBuf (PTX.input_size num_keys) gi)) as Hf.
  cbv zeta in Hf. destruct Hf as (_ & _ & Hne).
  destruct ai; [| run_calls Hne; rewrite app_nil_r; repeat split; reflexivity].
  destruct ao;
    [| run_calls Hne; rewrite <- !app_assoc; repeat split; reflexivity].
  destruct hd;
    [| run_calls Hne; rewrite <- !app_assoc; repeat split; reflexivity].
  destruct la;
    [| run_calls Hne; rewrite <- !app_assoc; repeat split; reflexivity].
  destruct sy;
    [| run_calls Hne; rewrite <- !app_assoc; repeat split; reflexivity].
  destruct dh; run_calls Hne; rewrite <- ?app_assoc, ?app_nil_r; repeat split; reflexivity.
Qed.

Lemma hash_batch_stops_at_first_refusal_witness :
  let '(ok, out, w') :=
    PTX.hash_batch engine refuse_second (host_of test_pubkey) no_garbage 1 world0 in
  ok = false
  /\ PTX.trace w' = [PTX.MemAlloc 33; PTX.MemAlloc 32; PTX.MemFree (fresh (dom (PTX.device world0)))]
  /\ PTX.cerr w' = ["Failed to allocate output memory"%string].
Proof.
  pose proof (hash_batch_stops_at_first_refusal engine refuse_second (host_of test_pubkey)
                no_garbage 1 world0 eq_refl) as H.
  destruct (PTX.hash_batch engine refuse_second (host_of test_pubkey) no_garbage 1 world0)
    as [[ok out] w'].
  exact H.
Defined.

End DispatcherCalls.

(** X18.  [hash_batch] writes to the caller's output buffer only within
    its first [output_size] bytes (the count times 32, reduced modulo
    2^32): every byte outside that range is after the call what it was
    before, whatever the kernel computes and whatever the driver
    answers. *)
Theorem hash_batch_writes_within_output_size (this : PTX.t) (drv : PTX.driver)
    (h_input h_output : Z -> byte) (num_keys : Z) (w : PTX.world) (a : Z) :
  ~ (0 <= a < PTX.output_size num_keys) ->
  buffer_after (PTX.hash_batch this drv h_input h_output num_keys w) a = h_output a.
Proof.
  intros Ha.
  pose proof (hash_batch_returns this drv h_input h_output num_keys w) as Hret.
  destruct (PTX.hash_batch this drv h_input h_output num_keys w) as [[ok out] w'].
  destruct Hret as (_ & Hout & _). unfold buffer_after. cbn [fst snd]. subst out.
  destruct ok; [| reflexivity].
  unfold downloaded, PTX.copy.
  destruct (Z.leb_spec 0 a); destruct (Z.ltb_spec a (PTX.output_size num_keys));
    cbn [andb]; try reflexivity; lia.
Qed.

Lemma hash_batch_writes_within_output_size_witness :
  buffer_after (PTX.hash_batch engine all_ok (host_of test_pubkey) no_garbage 1 world0) 32
  = x00.
Proof.
  apply (hash_batch_writes_within_output_size engine all_ok (host_of test_pubkey)
           no_garbage 1 world0 32).
  vm_compute. intros [_ H]. discriminate H.
Defined.

Section DispatcherReads.

Lemma copy_agree (h1 h2 g : Z -> byte) (n : Z) :
  (forall a, 0 <= a < n -> h1 a = h2 a) -> PTX.copy h1 g n = PTX.copy h2 g n.
Proof.
  intros H. apply functional_extensionality. intros a. unfold PTX.copy.
  destruct (Z.leb_spec 0 a); destruct (Z.ltb_spec a n); cbn [andb]; try reflexivity.
  apply H. lia.
Qed.

Lemma cuMemcpyHtoD_agree (ok : bool) (dptr : Z) (h1 h2 : Z -> byte) (n : Z) (w : PTX.world) :
  (forall a, 0 <= a < n -> h1 a = h2 a) ->
  PTX.cuMemcpyHtoD ok dptr h1 n w = PTX.cuMemcpyHtoD ok dptr h2 n w.
Proof.
  intros H. unfold PTX.cuMemcpyHtoD. destruct ok; [| reflexivity].
  destruct (PTX.device (PTX.logged (PTX.MemcpyHtoD dptr n) w) !! dptr) as [b |];
    [| reflexivity].
  rewrite (copy_agree h1 h2 (PTX.bytes b) n H). reflexivity.
Qed.

End DispatcherReads.

(** X19.  [hash_batch] reads the caller's input buffer only within its
    first [input_size] bytes (the count times 33, reduced modulo 2^32):
    two input buffers that agree on that range give the same return
    value, the same output buffer, the same lines on [std::cerr] and the
    same driver calls, whatever the kernel computes. *)
Theorem hash_batch_reads_within_input_size (this : PTX.t) (drv : PTX.driver)
    (h_input h_input' h_output : Z -> byte) (num_keys : Z) (w : PTX.world) :
  (forall a, 0 <= a < PTX.input_size num_keys -> h_input a = h_input' a) ->
  PTX.hash_batch this drv h_input h_output num_keys w
  = PTX.hash_batch this drv h_input' h_output num_keys w.
Proof.
  intros H. unfold PTX.hash_batch.
  destruct (negb (PTX.initialized_ this)); [reflexivity |].
  destruct (PTX.cuMemAlloc (PTX.alloc_input_ok drv) (PTX.input_garbage drv)
              (PTX.input_size num_keys) w) as [[r1 d_input] w1].
  destruct (negb (PTX.succeeded r1)); [reflexivity |].
  destruct (PTX.cuMemAlloc (PTX.alloc_output_ok drv) (PTX.output_garbage drv)
              (PTX.output_size num_keys) w1) as [[r2 d_output] w2].
  destruct (negb (PTX.succeeded r2)); [reflexivity |].
  rewrite (cuMemcpyHtoD_agree _ _ h_input h_input' _ _ H). reflexivity.
Qed.

Lemma hash_batch_reads_within_input_size_witness :
  PTX.hash_batch engine all_ok (host_of test_pubkey) no_garbage 1 world0
  = PTX.hash_batch engine all_ok (host_of (test_pubkey ++ [xff])) no_garbage 1 world0.
Proof.
  apply (hash_batch_reads_within_input_size engine all_ok (host_of test_pubkey)
           (host_of (test_pubkey ++ [xff])) no_garbage 1 world0).
  intros a Ha. change (PTX.input_size 1) with 33 in Ha.
  unfold host_of. destruct (Z.leb_spec 0 a); [| reflexivity].
  rewrite app_nth1; [reflexivity |].
  change (length test_pubkey) with 33%nat. lia.
Defined.

(** X20.  The launch grid.  For a count of at most 2^32 - 128 the
    number of blocks is the count divided by 128, rounded up: the grid
    has a thread for every record and fewer than 128 threads to spare.
    For the 127 counts above, the sum [num_keys + 127] wraps around in
    [uint32_t] and the grid has no block at all. *)
Theorem launch_grid (num_keys : Z) :
  0 <= num_keys < 2 ^ 32 ->
  PTX.blocks num_keys = (if num_keys <=? 4294967168 then (num_keys + 127) / 128 else 0)
  /\ (num_keys <= 4294967168 ->
      num_keys <= PTX.blocks num_keys * PTX.threads_per_block < num_keys + 128)
  /\ (4294967168 < num_keys -> PTX.blocks num_keys * PTX.threads_per_block = 0).
Proof.
  intros Hn.
  assert (Hb : PTX.blocks num_keys
               = if num_keys <=? 4294967168 then (num_keys + 127) / 128 else 0).
  { unfold PTX.blocks, PTX.threads_per_block, wrap32, to_int.
    destruct (Z.leb_spec num_keys 4294967168); Z.div_mod_to_equations; lia. }
  split; [exact Hb |]. rewrite Hb. unfold PTX.threads_per_block.
  destruct (Z.leb_spec num_keys 4294967168); split; intros; try lia.
  Z.div_mod_to_equations. lia.
Qed.

Lemma launch_grid_witness :
  PTX.blocks 1000 = 8 /\ PTX.blocks 4294967169 * PTX.threads_per_block = 0.
Proof.
  split.
  - rewrite (proj1 (launch_grid 1000 ltac:(lia))). reflexivity.
  - apply (proj2 (proj2 (launch_grid 4294967169 ltac:(lia)))). lia.
Defined.

(* ===================================================================== *)
(** ** The test program *)
(* ===================================================================== *)

Section TestProgram.

Lemma printf_02x_read (b : byte) (rest : string) :
  Hex.bytes_of (Tests.printf_02x b ++ rest) = b :: Hex.bytes_of rest.
Proof. destruct b; reflexivity. Qed.

Lemma hex_read (data : list byte) : Hex.bytes_of (hex data) = data.
Proof.
  induction data as [| b data IH]; [reflexivity |].
  cbn [hex fold_right]. fold (hex data). rewrite printf_02x_read, IH. reflexivity.
Qed.

Lemma hex_length (data : list byte) : String.length (hex data) = (2 * length data)%nat.
Proof.
  induction data as [| b data IH]; [reflexivity |].
  change (String.length (hex (b :: data))) with (S (S (String.length (hex data)))).
  rewrite IH. cbn [length]. lia.
Qed.

Lemma string_app_assoc (a b c : string) : ((a ++ b) ++ c = a ++ (b ++ c))%string.
Proof.
  induction a as [| x a IH]; [reflexivity |].
  change (String x ((a ++ b) ++ c) = String x (a ++ (b ++ c)))%string.
  rewrite IH. reflexivity.
Qed.

Lemma string_app_nil_r (a : string) : (a ++ "" = a)%string.
Proof.
  induction a as [| x a IH]; [reflexivity |].
  change (String x (a ++ "") = String x a)%string. rewrite IH. reflexivity.
Qed.

(** The loop of [print_hex] appends the digits of the bytes in order. *)
Lemma print_loop (data : list byte) :
  forall (done : list byte) (out : string),
    fold_left (fun acc i => (acc ++ Tests.printf_02x (nth i (done ++ data) x00))%string)
              (seq (length done) (length data)) out
    = (out ++ hex data)%string.
Proof.
  induction data as [| b data IH]; intros done out.
  - cbn. rewrite string_app_nil_r. reflexivity.
  - cbn [length seq fold_left].
    rewrite app_nth2 by lia. rewrite Nat.sub_diag. cbn [nth].
    replace (done ++ b :: data) with ((done ++ [b]) ++ data)
      by (rewrite <- app_assoc; reflexivity).
    replace (S (length done)) with (length (done ++ [b]))
      by (rewrite length_app; cbn; lia).
    rewrite IH. cbn [hex fold_right]. fold (hex data).
    rewrite string_app_assoc. reflexivity.
Qed.

Lemma to_u8_low_byte (i : nat) :
  to_u8 (Z.land (Z.of_nat i) 255) = to_u8 (Z.of_nat (i mod 256)).
Proof.
  change 255 with (Z.ones 8). rewrite Z.land_ones by lia.
  rewrite Nat2Z.inj_mod. reflexivity.
Qed.

Lemma varied_length (i : nat) : length (varied i) = 33%nat.
Proof. reflexivity. Qed.

(** The two arrays after [k] turns of the generating loop. *)
Lemma generate_turns (sha : nat -> SHA256.t) (input0 cpu0 : list byte) (k : nat) :
  (forall i, length (SHA256.buffer (sha i)) = 64%nat) ->
  (k * 33 <= length input0)%nat -> (k * 32 <= length cpu0)%nat ->
  for_loop 0 k (Tests.generate sha) (input0, cpu0)
  = (concat (map varied (seq 0 k)) ++ drop (k * 33) input0,
     concat (map (fun i => FIPS.sha256 (varied i)) (seq 0 k)) ++ drop (k * 32) cpu0).
Proof.
  intros Hsha. induction k as [| k IH]; intros Hin Hcpu.
  - rewrite for_loop_0. reflexivity.
  - rewrite for_loop_S, IH by lia. clear IH.
    set (A := concat (map varied (seq 0 k))).
    set (B := concat (map (fun i => FIPS.sha256 (varied i)) (seq 0 k))).
    assert (HA : length A = (k * 33)%nat).
    { unfold A. clear. induction k as [| k IH]; [reflexivity |].
      rewrite seq_S, map_app, concat_app, length_app, IH. cbn [map concat Nat.add].
      rewrite app_nil_r, varied_length. lia. }
    assert (Hd : forall i, length (FIPS.sha256 (varied i)) = 32%nat).
    { intros i. rewrite (sha256_33 _ (varied_length i)). apply lane_length. }
    assert (HB : length B = (k * 32)%nat).
    { unfold B. clear - Hd. induction k as [| k IH]; [reflexivity |].
      rewrite seq_S, map_app, concat_app, length_app, IH. cbn [map concat length].
      rewrite app_nil_r, Hd. lia. }
    unfold Tests.generate. cbn [Nat.add].
    assert (Hrest : (33 <= length (drop (k * 33) input0))%nat)
      by (rewrite length_drop; lia).
    assert (Hcopy : memcpy (A ++ drop (k * 33) input0) (k * 33) test_pubkey 33
                    = A ++ test_pubkey ++ drop (S k * 33) input0).
    { unfold memcpy. rewrite <- HA at 1. rewrite take_app_length.
      replace (k * 33 + 33)%nat with (length A + 33)%nat by lia.
      rewrite drop_app_add, drop_drop.
      replace (k * 33 + 33)%nat with (S k * 33)%nat by lia.
      rewrite (take_ge test_pubkey) by (change (length test_pubkey) with 33%nat; lia).
      reflexivity. }
    rewrite Hcopy.
    assert (Hstore : <[(k * 33 + 32)%nat := to_u8 (Z.land (Z.of_nat k) 255)]>
                       (A ++ test_pubkey ++ drop (S k * 33) input0)
                     = A ++ varied k ++ drop (S k * 33) input0).
    { rewrite <- HA. rewrite insert_app_r. f_equal.
      rewrite to_u8_low_byte. reflexivity. }
    rewrite Hstore.
    assert (Hrec : take 33 (drop (k * 33) (A ++ varied k ++ drop (S k * 33) input0))
                   = varied k).
    { rewrite <- HA, drop_app_length.
      rewrite take_app_length' by reflexivity. reflexivity. }
    rewrite Hrec. unfold SHA256.Hash.
    rewrite (Hash_obj_33 _ _ (Hsha k) (varied_length k)). cbn [snd].
    rewrite <- (sha256_33 _ (varied_length k)).
    assert (Hout : memcpy (B ++ drop (k * 32) cpu0) (k * 32) (FIPS.sha256 (varied k)) 32
                   = B ++ FIPS.sha256 (varied k) ++ drop (S k * 32) cpu0).
    { unfold memcpy. rewrite <- HB at 1. rewrite take_app_length.
      replace (k * 32 + 32)%nat with (length B + 32)%nat by lia.
      rewrite drop_app_add, drop_drop.
      replace (k * 32 + 32)%nat with (S k * 32)%nat by lia.
      rewrite (take_ge (FIPS.sha256 (varied k))) by (rewrite Hd; lia). reflexivity. }
    rewrite Hout.
    rewrite !seq_S, !map_app, !concat_app. cbn [map concat Nat.add].
    rewrite !app_nil_r, <- !app_assoc. fold A. fold B. reflexivity.
Qed.

End TestProgram.

(** X21.  [print_hex] writes the label, a colon and a space, two
    lowercase hexadecimal digits for every byte in order, and a line
    end; reading the digits back gives the bytes, so two buffers are
    printed alike only when they are equal. *)
Theorem print_hex_digits (label : string) (data data' : list byte) :
  Tests.print_hex label data = (label ++ ": " ++ hex data ++ Setup.newline)%string
  /\ String.length (hex data) = (2 * length data)%nat
  /\ Hex.bytes_of (hex data) = data
  /\ (hex data = hex data' -> data = data').
Proof.
  split; [| split; [apply hex_length | split; [apply hex_read |]]].
  - unfold Tests.print_hex, for_loop.
    pose proof (print_loop data [] (label ++ ": ")) as Hloop.
    cbn [app length] in Hloop. cbv zeta. rewrite Hloop.
    rewrite !string_app_assoc. reflexivity.
  - intros H. rewrite <- (hex_read data), <- (hex_read data'), H. reflexivity.
Qed.

Lemma print_hex_digits_witness :
  Tests.print_hex "CPU SHA256" test_digest
  = ("CPU SHA256: 0f715baf5d4c2ed329785cef29e562f73488c8a2bb9dbc5700b361d54b9b0554"
     ++ Setup.newline)%string.
Proof.
  rewrite (proj1 (print_hex_digits "CPU SHA256" test_digest [])). reflexivity.
Defined.

(** X22.  The loop of the test program that generates a batch: for any
    batch size, it fills input record [i] with the first 32 bytes of the
    test key followed by the byte [i mod 256], and reference slot [i]
    with the SHA-256 digest of that record, whatever the two arrays held
    before.  Records whose indices differ by a multiple of 256 are
    therefore the same record.  The batch size is such that the offsets
    [i * 33] fit the [int] they are computed in. *)
Theorem generated_batch (sha : nat -> SHA256.t) (batch_size : nat)
    (input_batch cpu_batch : list byte) :
  Z.of_nat batch_size * 33 < 2 ^ 31 ->
  (forall i, length (SHA256.buffer (sha i)) = 64%nat) ->
  length input_batch = (batch_size * 33)%nat ->
  length cpu_batch = (batch_size * 32)%nat ->
  Tests.generate_batch sha batch_size input_batch cpu_batch
  = (concat (map (fun i => take 32 test_pubkey ++ [to_u8 (Z.of_nat (i mod 256))])
                 (seq 0 batch_size)),
     concat (map (fun i => FIPS.sha256
                             (take 32 test_pubkey ++ [to_u8 (Z.of_nat (i mod 256))]))
                 (seq 0 batch_size))).
Proof.
  intros _ Hsha Hin Hcpu. unfold Tests.generate_batch.
  rewrite (generate_turns sha input_batch cpu_batch batch_size Hsha) by lia.
  rewrite <- Hin, <- Hcpu, !drop_all, !app_nil_r. reflexivity.
Qed.

Lemma generated_batch_witness :
  fst (Tests.generate_batch (fun _ => blank) 2 (replicate 66 xff) (replicate 64 xff))
  = take 32 test_pubkey ++ [x00] ++ take 32 test_pubkey ++ [x01].
Proof.
  rewrite (generated_batch (fun _ => blank) 2 (replicate 66 xff) (replicate 64 xff)).
  - reflexivity.
  - reflexivity.
  - intros i. reflexivity.
  - reflexivity.
  - reflexivity.
Defined.

(* ===================================================================== *)
(** ** The comparison loop and the batch test as a whole *)
(* ===================================================================== *)

Section BatchTest.

Lemma byte_val_inj (a b : byte) : byte_val a = byte_val b -> a = b.
Proof.
  unfold byte_val. intros H. apply N2Z.inj in H.
  pose proof (Byte.of_to_N a) as Ha. pose proof (Byte.of_to_N b) as Hb.
  rewrite H in Ha. congruence.
Qed.

(** [memcmp] is zero exactly when the first [n] bytes agree. *)
Lemma memcmp_zero (n : nat) :
  forall a b : list byte,
    (n <= length a)%nat -> (n <= length b)%nat ->
    (Compare.memcmp a b n = 0 <-> take n a = take n b).
Proof.
  induction n as [| n IH]; intros a b Ha Hb.
  - cbn. rewrite !take_0. tauto.
  - destruct a as [| x a]; [cbn in Ha; lia |].
    destruct b as [| y b]; [cbn in Hb; lia |].
    cbn [Compare.memcmp]. unfold rd. cbn [nth drop length] in *.
    rewrite !firstn_cons.
    destruct (Z.eqb_spec (byte_val x) (byte_val y)) as [E | E].
    + apply byte_val_inj in E. subst y.
      rewrite (IH a b) by lia.
      split; [intros ->; reflexivity | intros H; injection H; tauto].
    + split; [lia |]. intros H. injection H. intros _ Hxy. subst y. contradiction.
Qed.

Lemma take_next_slot (l : list byte) (k : nat) :
  take (S k * 32) l = take (k * 32) l ++ take 32 (drop (k * 32) l).
Proof.
  replace (S k * 32)%nat with (k * 32 + 32)%nat by lia.
  rewrite <- (take_drop (k * 32) l) at 1.
  destruct (Nat.le_gt_cases (k * 32) (length l)) as [Hle | Hgt].
  - rewrite take_app_add'; [reflexivity |]. rewrite length_take. lia.
  - rewrite (drop_ge l) by lia. rewrite app_nil_r, take_nil, app_nil_r.
    rewrite take_take. f_equal. lia.
Qed.

(** The loop after [k] turns: the count is zero exactly when the first
    [k] slots agree, and then nothing has been written. *)
Lemma compare_turns (cpu gpu : list byte) (k : nat) :
  (k * 32 <= length cpu)%nat -> (k * 32 <= length gpu)%nat ->
  Z.of_nat k < 2 ^ 31 ->
  let '(m, out) := for_loop 0 k (Compare.compare_one cpu gpu) (0, ""%string) in
  0 <= m <= Z.of_nat k
  /\ (m = 0 <-> take (k * 32) cpu = take (k * 32) gpu)
  /\ (m = 0 -> out = ""%string).
Proof.
  induction k as [| k IH]; intros Hc Hg Hk.
  - rewrite for_loop_0. cbn. rewrite !take_0. repeat split; try lia; reflexivity.
  - rewrite for_loop_S. cbn [Nat.add].
    specialize (IH ltac:(lia) ltac:(lia) ltac:(lia)).
    destruct (for_loop 0 k (Compare.compare_one cpu gpu) (0, ""%string)) as [m out].
    destruct IH as (Hm & Hiff & Hout).
    unfold Compare.compare_one, Compare.compare_hashes.
    pose proof (memcmp_zero 32 (drop (k * 32) cpu) (drop (k * 32) gpu)) as Hz.
    rewrite !length_drop in Hz. specialize (Hz ltac:(lia) ltac:(lia)).
    rewrite !take_next_slot.
    assert (Hlen : length (take (k * 32) cpu) = length (take (k * 32) gpu))
      by (rewrite !length_take; lia).
    destruct (Z.eqb_spec (Compare.memcmp (drop (k * 32) cpu) (drop (k * 32) gpu) 32) 0)
      as [E | E]; cbn [negb].
    + split; [lia |]. split; [| exact Hout].
      rewrite Hiff. split.
      * intros ->. f_equal. apply Hz. exact E.
      * intros H. apply app_inj_1 in H; [tauto | exact Hlen].
    + assert (Hw : to_int (m + 1) = m + 1).
      { unfold to_int. Z.div_mod_to_equations. lia. }
      rewrite Hw. split; [lia |]. split; [| lia].
      split; [lia |]. intros H. apply app_inj_1 in H; [| exact Hlen].
      exfalso. apply E, Hz. tauto.
Qed.

(** Element [a] of a concatenation of chunks of one length. *)
Lemma nth_chunks (f : nat -> list byte) (L : nat) :
  (forall i, length (f i) = L) -> (0 < L)%nat ->
  forall N a, (a < N * L)%nat ->
    nth a (concat (map f (seq 0 N))) x00 = nth (a mod L)%nat (f (a / L)%nat) x00.
Proof.
  intros Hf HL. induction N as [| N IH]; intros a Ha; [lia |].
  assert (Hlen : length (concat (map f (seq 0 N))) = (N * L)%nat).
  { clear - Hf. induction N as [| N IH]; [reflexivity |].
    rewrite seq_S, map_app, concat_app, length_app, IH. cbn [map concat Nat.add].
    rewrite app_nil_r, Hf. lia. }
  rewrite seq_S, map_app, concat_app. cbn [map concat Nat.add]. rewrite app_nil_r.
  destruct (Nat.lt_ge_cases a (N * L)) as [Hlt | Hge].
  - rewrite app_nth1 by lia. apply IH. exact Hlt.
  - rewrite app_nth2 by lia. rewrite Hlen.
    assert (Hq : (a / L = N)%nat).
    { symmetry. apply (Nat.div_unique a L N (a - N * L)); lia. }
    assert (Hr : (a mod L = a - N * L)%nat).
    { symmetry. apply (Nat.mod_unique a L N (a - N * L)); lia. }
    rewrite Hq, Hr. reflexivity.
Qed.

Lemma chunks_length (f : nat -> list byte) (L : nat) :
  (forall i, length (f i) = L) ->
  forall N, length (concat (map f (seq 0 N))) = (N * L)%nat.
Proof.
  intros Hf. induction N as [| N IH]; [reflexivity |].
  rewrite seq_S, map_app, concat_app, length_app, IH. cbn [map concat Nat.add].
  rewrite app_nil_r, Hf. lia.
Qed.

(** A record of the generated batch, read through the host pointer. *)
Lemma record_of_generated (N : nat) (i : Z) :
  0 <= i < Z.of_nat N ->
  PTX.record (host_of (concat (map varied (seq 0 N)))) i = varied (Z.to_nat i).
Proof.
  intros Hi. unfold PTX.record.
  rewrite <- (list_of_nth (varied (Z.to_nat i)) 33 (varied_length _)).
  apply map_ext_in. intros j Hj. apply in_seq in Hj. unfold host_of.
  destruct (Z.leb_spec 0 (33 * i + Z.of_nat j)); [| lia].
  rewrite (nth_chunks varied 33 varied_length ltac:(lia) N) by lia.
  replace (Z.to_nat (33 * i + Z.of_nat j)) with (Z.to_nat i * 33 + j)%nat by lia.
  assert (Hq : ((Z.to_nat i * 33 + j) / 33 = Z.to_nat i)%nat).
  { symmetry. apply (Nat.div_unique _ 33 _ j); lia. }
  assert (Hr : ((Z.to_nat i * 33 + j) mod 33 = j)%nat).
  { symmetry. apply (Nat.mod_unique _ 33 (Z.to_nat i) j); lia. }
  rewrite Hq, Hr. reflexivity.
Qed.

Lemma array_of_nth (h : Z -> byte) (n a : nat) :
  (a < n)%nat -> nth a (array_of h n) x00 = h (Z.of_nat a).
Proof.
  intros Ha. unfold array_of.
  rewrite (nth_indep _ x00 (h (Z.of_nat 0))) by (rewrite length_map, length_seq; exact Ha).
  rewrite (map_nth (fun a => h (Z.of_nat a)) (seq 0 n) 0%nat a).
  rewrite seq_nth by exact Ha. reflexivity.
Qed.

End BatchTest.

(** X23.  The loop of the test program that compares the two batches
    counts no mismatch exactly when the two arrays hold the same bytes,
    and then it prints nothing; the count never exceeds the batch
    size.  ([compare_hashes] is true exactly when the 32 bytes of the two
    slots agree.) *)
Theorem compare_batches_verdict (batch_size : nat) (cpu_batch gpu_batch : list byte) :
  Z.of_nat batch_size * 32 < 2 ^ 31 ->
  length cpu_batch = (batch_size * 32)%nat ->
  length gpu_batch = (batch_size * 32)%nat ->
  let '(mismatches, out) := Compare.compare_batches batch_size cpu_batch gpu_batch in
  0 <= mismatches <= Z.of_nat batch_size
  /\ (mismatches = 0 <-> cpu_batch = gpu_batch)
  /\ (mismatches = 0 -> out = ""%string).
Proof.
  intros Hn Hc Hg. unfold Compare.compare_batches.
  pose proof (compare_turns cpu_batch gpu_batch batch_size ltac:(lia) ltac:(lia) ltac:(lia))
    as H.
  destruct (for_loop 0 batch_size (Compare.compare_one cpu_batch gpu_batch) (0, ""%string))
    as [m out].
  rewrite <- Hc in H at 1. rewrite <- Hg in H. rewrite !firstn_all in H. exact H.
Qed.

Lemma compare_batches_verdict_witness :
  Compare.compare_batches 1 test_digest test_digest = (0, ""%string)
  /\ fst (Compare.compare_batches 1 test_digest (replicate 32 x00)) <> 0.
Proof.
  pose proof (compare_batches_verdict 1 test_digest test_digest
                ltac:(reflexivity) eq_refl eq_refl) as H1.
  pose proof (compare_batches_verdict 1 test_digest (replicate 32 x00)
                ltac:(reflexivity) eq_refl eq_refl) as H2.
  destruct (Compare.compare_batches 1 test_digest test_digest) as [m out].
  destruct (Compare.compare_batches 1 test_digest (replicate 32 x00)) as [m' out'].
  destruct H1 as (_ & Hz & Ho). destruct H2 as (_ & Hz' & _).
  split.
  - assert (Hm : m = 0) by (apply Hz; reflexivity). rewrite Hm, (Ho Hm). reflexivity.
  - cbn [fst]. intros Hm'. apply Hz' in Hm'. discriminate Hm'.
Defined.

(** X24.  The batch test of the test program as a whole, for any batch
    size whose offsets fit an [int]: when the engine is initialized, the
    function in its module is the kernel of the design document and the
    driver accepts every call, [hash_batch] on the generated batch
    returns true, the array of results it leaves is byte for byte the
    array of reference digests computed with [SHA256::Hash], and the
    comparison loop counts no mismatch and prints nothing. *)
Theorem batch_test_passes (this : PTX.t) (drv : PTX.driver) (w : PTX.world)
    (sha : nat -> SHA256.t) (batch_size : nat) (input0 cpu0 gpu0 : list byte) :
  PTX.initialized_ this = true ->
  PTX.kernel_ this = PTX.sha256_kernel ->
  all_verdicts drv = true ->
  Z.of_nat batch_size * 33 < 2 ^ 31 ->
  (forall i, length (SHA256.buffer (sha i)) = 64%nat) ->
  length input0 = (batch_size * 33)%nat ->
  length cpu0 = (batch_size * 32)%nat ->
  let '(input_batch, cpu_batch) := Tests.generate_batch sha batch_size input0 cpu0 in
  let '(ok, out, w') :=
    PTX.hash_batch this drv (host_of input_batch) (host_of gpu0)
                   (Z.of_nat batch_size) w in
  let gpu_batch := array_of out (batch_size * 32) in
  ok = true
  /\ gpu_batch = cpu_batch
  /\ Compare.compare_batches batch_size cpu_batch gpu_batch = (0, ""%string).
Proof.
  intros Hinit Hker Hall Hn Hsha Hin Hcpu.
  unfold Tests.generate_batch.
  rewrite (generate_turns sha input0 cpu0 batch_size Hsha) by lia.
  rewrite (drop_ge input0), (drop_ge cpu0), !app_nil_r by lia.
  set (input := concat (map varied (seq 0 batch_size))).
  set (cpu := concat (map (fun i => FIPS.sha256 (varied i)) (seq 0 batch_size))).
  assert (Hd : forall i, length (FIPS.sha256 (varied i)) = 32%nat).
  { intros i. rewrite (sha256_33 _ (varied_length i)). apply lane_length. }
  assert (Hcpulen : length cpu = (batch_size * 32)%nat)
    by (apply (chunks_length (fun i => FIPS.sha256 (varied i)) 32 Hd)).
  pose proof (hash_batch_returns this drv (host_of input) (host_of gpu0)
                (Z.of_nat batch_size) w) as Hret.
  destruct (PTX.hash_batch this drv (host_of input) (host_of gpu0) (Z.of_nat batch_size) w)
    as [[ok out] w'].
  destruct Hret as (Hok & Hout & _). rewrite Hinit, Hall in Hok. subst ok.
  cbv zeta.
  assert (Hgpu : array_of out (batch_size * 32) = cpu).
  { subst out. apply (nth_ext _ _ x00 x00).
    - unfold array_of. rewrite length_map, length_seq. symmetry. exact Hcpulen.
    - intros a Ha. unfold array_of in Ha. rewrite length_map, length_seq in Ha.
      rewrite (array_of_nth _ _ _ Ha).
      rewrite (downloaded_exact this drv (host_of input) (host_of gpu0)
                 (Z.of_nat batch_size) Hker ltac:(lia)).
      destruct (Z.leb_spec 0 (Z.of_nat a)); [| lia].
      destruct (Z.ltb_spec (Z.of_nat a) (32 * Z.of_nat batch_size)); [| lia].
      cbn [andb].
      assert (Hi : 0 <= Z.of_nat a / 32 < Z.of_nat batch_size)
        by (Z.div_mod_to_equations; lia).
      unfold input. rewrite (record_of_generated batch_size _ Hi).
      rewrite <- (sha256_33 _ (varied_length _)).
      unfold cpu.
      rewrite (nth_chunks (fun i => FIPS.sha256 (varied i)) 32 Hd ltac:(lia) batch_size a)
        by lia.
      replace (Z.to_nat (Z.of_nat a / 32)) with (a / 32)%nat
        by (rewrite <- (Nat2Z.id (a / 32)), Nat2Z.inj_div; reflexivity).
      replace (Z.to_nat (Z.of_nat a mod 32)) with (a mod 32)%nat
        by (rewrite <- (Nat2Z.id (a mod 32)), Nat2Z.inj_mod; reflexivity).
      reflexivity. }
  split; [reflexivity |]. split; [exact Hgpu |].
  rewrite Hgpu. unfold Compare.compare_batches.
  pose proof (compare_turns cpu cpu batch_size ltac:(lia) ltac:(lia) ltac:(lia)) as H.
  destruct (for_loop 0 batch_size (Compare.compare_one cpu cpu) (0, ""%string)) as [m o].
  destruct H as (_ & Hz & Ho).
  assert (Hm : m = 0) by (apply Hz; reflexivity).
  rewrite Hm, (Ho Hm). reflexivity.
Qed.

Lemma batch_test_passes_witness :
  let '(input_batch, cpu_batch) :=
    Tests.generate_batch (fun _ => blank) 2 (replicate 66 xff) (replicate 64 xff) in
  let '(ok, out, w') :=
    PTX.hash_batch engine all_ok (host_of input_batch) (host_of (replicate 64 xff)) 2 world0 in
  ok = true /\ array_of out 64 = cpu_batch.
Proof.
  pose proof (batch_test_passes engine all_ok world0 (fun _ => blank) 2
                (replicate 66 xff) (replicate 64 xff) (replicate 64 xff)
                eq_refl eq_refl eq_refl ltac:(reflexivity) (fun _ => eq_refl)
                eq_refl eq_refl) as H.
  destruct (Tests.generate_batch (fun _ => blank) 2 (replicate 66 xff) (replicate 64 xff))
    as [input_batch cpu_batch].
  change (Z.of_nat 2) with 2 in H.
  destruct (PTX.hash_batch engine all_ok (host_of input_batch) (host_of (replicate 64 xff))
              2 world0) as [[ok out] w'].
  destruct H as (Hok & Hgpu & _). split; [exact Hok | exact Hgpu].
Defined.
